(** * compgrapher: the salary-survey loaders and their value parser

    A shallow embedding of the parsing code of the repository:
    [clean_salary_value] and [load_comparison_data] of
    [compare_to_first_employer.py] (the same [clean_salary_value] is
    repeated in [visualize_all_employers.py] and
    [visualize_dartmouth_original.py]), the column selection of
    [load_all_employer_data], [load_dartmouth_data] and
    [filter_data_for_visualization].

    Conventions of the embedding.
    - A Python [str] is a Rocq [string], read as a sequence of code points
      below 256; the character tables ([str.isspace], [str.lower], the
      regex class [\d], the digits [float] accepts) are the Unicode ones
      restricted to that range.
    - A Python [float] is a binary64 number, [spec_float] of the standard
      library with [prec = 53] and [emax = 1024]; [float(str)] rounds the
      decimal literal to the nearest binary64, ties to even, and overflows
      to an infinity.
    - Exceptions are explicit: a computation returns [Ok v] or [Raise e].
    - A [dict] that is only read by key is a [gmap]; a [dict] that the code
      iterates over is an insertion-ordered association list.
    - A file is what [csv.reader] yields for it, a list of rows, each a
      list of cells; a path either has such a file or has none. Failures
      of reading other than the absence of the file (permissions, bytes
      that are not UTF-8) are outside the model. *)

From Stdlib Require Import ZArith NArith List Ascii String Bool Lia.
From Stdlib Require Import Floats.SpecFloat.
From stdpp Require Import gmap strings list.

(** ** Exceptions *)

Inductive exn : Set :=
  | ValueError
  | IndexError
  | KeyError
  | StopIteration
  | FileNotFoundError.

Inductive result (A : Type) : Type :=
  | Ok (a : A)
  | Raise (e : exn).

Arguments Ok {A} a.
Arguments Raise {A} e.

#[global] Instance result_ret : MRet result := fun A a => Ok a.

#[global] Instance result_bind : MBind result :=
  fun A B k r =>
    match r with
    | Ok a => k a
    | Raise e => Raise e
    end.

Definition raises {A : Type} (r : result A) : Prop :=
  match r with
  | Ok _ => False
  | Raise _ => True
  end.

(** ** Python strings *)

Module PyStr.

Definition code (c : ascii) : N := N_of_ascii c.

Definition in_range (lo hi : N) (c : ascii) : bool :=
  ((lo <=? code c) && (code c <=? hi))%N.

(** [str.isspace] on one character: the characters [str.strip] removes. *)
Definition isspace (c : ascii) : bool :=
  in_range 9 13 c || in_range 28 32 c
  || (code c =? 133)%N || (code c =? 160)%N.

(** The regex class [\d], and the decimal digits of [float]. *)
Definition isdigit (c : ascii) : bool := in_range 48 57 c.

Definition lower_char (c : ascii) : ascii :=
  if in_range 65 90 c
     || (in_range 192 222 c && negb (code c =? 215)%N)
  then ascii_of_N (code c + 32)
  else c.

Definition lower (s : list ascii) : list ascii := map lower_char s.

Fixpoint drop_while (p : ascii -> bool) (s : list ascii) : list ascii :=
  match s with
  | [] => []
  | c :: t => if p c then drop_while p t else s
  end.

Definition lstrip (s : list ascii) : list ascii := drop_while isspace s.
Definition rstrip (s : list ascii) : list ascii := rev (lstrip (rev s)).

(** [s.strip()] *)
Definition strip (s : list ascii) : list ascii := rstrip (lstrip s).

(** [s.replace(c, '')] for a one-character [c] *)
Definition remove_char (c : ascii) (s : list ascii) : list ascii :=
  List.filter (fun x => negb (Ascii.eqb x c)) s.

Fixpoint starts_with (p s : list ascii) : bool :=
  match p, s with
  | [], _ => true
  | _ :: _, [] => false
  | a :: p', b :: s' => Ascii.eqb a b && starts_with p' s'
  end.

(** [p in s] *)
Fixpoint contains (p s : list ascii) : bool :=
  starts_with p s
  || match s with
     | [] => false
     | _ :: t => contains p t
     end.

Definition is_empty (s : list ascii) : bool :=
  match s with
  | [] => true
  | _ :: _ => false
  end.

(** The maximal run of digits at the head of [s], and what follows it. *)
Fixpoint span_digits (s : list ascii) : list ascii * list ascii :=
  match s with
  | [] => ([], [])
  | c :: t =>
      if isdigit c
      then let '(d, r) := span_digits t in (c :: d, r)
      else ([], s)
  end.

Definition of_string (s : string) : list ascii := list_ascii_of_string s.
Definition to_string (s : list ascii) : string := string_of_list_ascii s.

(** [s.strip()] on a [string] *)
Definition strip_string (s : string) : string :=
  to_string (strip (of_string s)).

(** [p in s] on [string]s *)
Definition in_string (p s : string) : bool :=
  contains (of_string p) (of_string s).

End PyStr.

(** ** Python floats and [float(str)] *)

Module PyFloat.
Import PyStr.

Abbreviation float := spec_float.

Definition prec : Z := 53.
Definition emax : Z := 1024.

(** The binary64 nearest to [d * 10 ^ e10], with the sign [neg]. *)
Definition of_decimal (neg : bool) (d : N) (e10 : Z) : float :=
  match d with
  | N0 => S754_zero neg
  | Npos p =>
      if (0 <=? e10)%Z
      then binary_round prec emax neg (p * Z.to_pos (10 ^ e10)) 0
      else
        let '(q, e, l) :=
          SFdiv_core_binary prec emax (Zpos p) 0 (10 ^ (- e10)) 0 in
        binary_round_aux prec emax neg q e l
  end.

Definition digits_val (ds : list ascii) : N :=
  fold_left (fun acc c => (10 * acc + (code c - 48))%N) ds 0%N.

Inductive literal : Set :=
  | LitNum (neg : bool) (ip fp : list ascii) (e10 : Z)
  | LitInf (neg : bool)
  | LitNan.

Definition eval (l : literal) : float :=
  match l with
  | LitNum neg ip fp e10 =>
      of_decimal neg (digits_val (ip ++ fp)) (e10 - Z.of_nat (length fp))
  | LitInf neg => S754_infinity neg
  | LitNan => S754_nan
  end.

Definition parse_sign (s : list ascii) : bool * list ascii :=
  match s with
  | c :: t =>
      if Ascii.eqb c "-" then (true, t)
      else if Ascii.eqb c "+" then (false, t)
      else (false, s)
  | [] => (false, s)
  end.

(** Digits, a point, digits; one of the two runs of digits may be empty. *)
Definition parse_number (s : list ascii)
  : option (list ascii * list ascii * list ascii) :=
  let '(ip, r) := span_digits s in
  if starts_with ["."%char] r then
    let '(fp, r2) := span_digits (drop 1 r) in
    if is_empty ip && is_empty fp then None else Some (ip, fp, r2)
  else
    if is_empty ip then None else Some (ip, [], r).

(** An exponent is read only when it has a digit; otherwise nothing of it
    is consumed. *)
Definition parse_exponent (s : list ascii) : Z * list ascii :=
  match s with
  | c :: t =>
      if Ascii.eqb c "e" || Ascii.eqb c "E"
      then
        let '(neg, t1) := parse_sign t in
        let '(ds, r) := span_digits t1 in
        if is_empty ds then (0%Z, s)
        else (if neg then (- Z.of_N (digits_val ds))%Z
              else Z.of_N (digits_val ds), r)
      else (0%Z, s)
  | [] => (0%Z, s)
  end.

Definition parse_inf_or_nan (neg : bool) (s : list ascii) : option literal :=
  let w := to_string (lower s) in
  if String.eqb w "inf" || String.eqb w "infinity" then Some (LitInf neg)
  else if String.eqb w "nan" then Some LitNan
  else None.

(** The whole of [s] must be one literal. *)
Definition parse_literal (s : list ascii) : option literal :=
  let '(neg, t) := parse_sign s in
  match parse_number t with
  | Some (ip, fp, r) =>
      match parse_exponent r with
      | (e10, []) => Some (LitNum neg ip fp e10)
      | (_, _ :: _) => None
      end
  | None => parse_inf_or_nan neg t
  end.

(** Underscores are accepted between two digits and dropped. *)
Fixpoint strip_underscores (prev : ascii) (s : list ascii)
  : option (list ascii) :=
  match s with
  | [] => if Ascii.eqb prev "_" then None else Some []
  | c :: t =>
      if Ascii.eqb c "_"
      then if isdigit prev then strip_underscores c t else None
      else if Ascii.eqb prev "_" && negb (isdigit c) then None
      else option_map (cons c) (strip_underscores c t)
  end.

(** Before parsing, [float] maps the white space outside ASCII to a space
    and every other character outside ASCII to one it rejects. *)
Definition to_ascii_float (c : ascii) : ascii :=
  if (code c <? 127)%N then c
  else if isspace c then " "%char
  else "?"%char.

(** The white space [float] strips around the literal. *)
Definition c_isspace (c : ascii) : bool :=
  in_range 9 13 c || (code c =? 32)%N.

Definition c_strip (s : list ascii) : list ascii :=
  rev (drop_while c_isspace (rev (drop_while c_isspace s))).

(** [float(s)] for a [str] *)
Definition py_float (s : list ascii) : result float :=
  match c_strip (map to_ascii_float s) with
  | [] => Raise ValueError
  | s1 =>
      match strip_underscores Ascii.zero s1 with
      | None => Raise ValueError
      | Some s2 =>
          match parse_literal s2 with
          | Some l => Ok (eval l)
          | None => Raise ValueError
          end
      end
  end.

End PyFloat.

(** ** The regular expression of [clean_salary_value] *)

Module Regex.
Import PyStr.

(** [re.search] with the pattern of the source, one group made of one or
    more [\d], an optional point and any number of [\d]: [group(1)] of the
    leftmost match, when there is one. The match starts at the first digit
    of [s], takes the whole run of digits there, a point if one follows,
    and the run of digits after the point. *)
Definition search_number (s : list ascii) : option (list ascii) :=
  match drop_while (fun c => negb (isdigit c)) s with
  | [] => None
  | s1 =>
      let '(d1, r) := span_digits s1 in
      if starts_with ["."%char] r
      then Some (d1 ++ "."%char :: fst (span_digits (drop 1 r)))
      else Some d1
  end.

End Regex.

(** ** [clean_salary_value] *)

Import PyStr PyFloat Regex.

(** The [try: float(..) except ValueError: return None] of the function:
    a [ValueError] becomes [None], any other exception goes on. *)
Definition float_or_none (r : result float) : result (option float) :=
  match r with
  | Ok x => Ok (Some x)
  | Raise ValueError => Ok None
  | Raise e => Raise e
  end.

(** [clean_val] of the function: the stripped text without dollar signs and
    commas. *)
Definition cleaned (value : string) : list ascii :=
  remove_char "," (remove_char "$" (strip (of_string value))).

Definition clean_salary_value (value : string) : result (option float) :=
  let value := of_string value in
  if is_empty value || is_empty (strip value) then Ok None
  else
    let clean_val := remove_char "," (remove_char "$" (strip value)) in
    if contains (of_string "per") (lower clean_val) then
      match search_number clean_val with
      | Some group1 => x ← py_float group1; Ok (Some x)
      | None => Ok None
      end
    else float_or_none (py_float clean_val).

(** ** Dictionaries that are iterated over

    [town_indices] and [town_colors] are filled by assignment and then
    iterated: an assignment to a key already present replaces its value
    and keeps its place, an assignment to a new key goes to the end. *)

Module ODict.

Fixpoint set {V : Type} (k : string) (v : V) (d : list (string * V))
  : list (string * V) :=
  match d with
  | [] => [(k, v)]
  | (k', v') :: r =>
      if String.eqb k' k then (k, v) :: r else (k', v') :: set k v r
  end.

Fixpoint get {V : Type} (k : string) (d : list (string * V)) : option V :=
  match d with
  | [] => None
  | (k', v') :: r => if String.eqb k' k then Some v' else get k r
  end.

Definition keys {V : Type} (d : list (string * V)) : list string :=
  map fst d.

End ODict.

(** ** [load_comparison_data] *)

Abbreviation dataset := (gmap string (gmap string float)).

(** What [csv.reader] yields for the file at a path, when the file is
    opened and read as text; [None] when no file is there. A path whose
    file is there and cannot be read (a directory, bytes that are not
    UTF-8) is not represented. *)
Definition file_system : Type := string -> option (list (list string)).

Definition inspector_positions : list string :=
  [ "Alternate Building Inspector";
    "Alternate Gas/Plumbing Inspector";
    "Alternate Wire Inspector" ]%string.

(** [l[i]] for a non-negative [i] *)
Definition py_index {A : Type} (l : list A) (i : nat) : result A :=
  match l !! i with
  | Some x => Ok x
  | None => Raise IndexError
  end.

(** [headers[1:-3] if len(headers) > 3 else headers[1:]] *)
Definition employer_headers (headers : list string) : list string :=
  if 3 <? length headers
  then drop 1 (take (length headers - 3) headers)
  else drop 1 headers.

(** The loop [for i, header in enumerate(employer_headers)] that fills
    [town_indices], started at index [i] with the dictionary [d]. *)
Fixpoint town_indices_from (i : nat) (hs : list string)
  (d : list (string * nat)) : list (string * nat) :=
  match hs with
  | [] => d
  | header :: rest =>
      let clean_header := strip_string header in
      town_indices_from (S i) rest (ODict.set clean_header (i + 1) d)
  end.

(** The number of colours of the colour map [tab20]. *)
Definition tab20_len : nat := 20.

(** The same loop for [town_colors]; a colour is its index in [tab20]. *)
Fixpoint town_colors_from (i : nat) (hs : list string)
  (d : list (string * nat)) : list (string * nat) :=
  match hs with
  | [] => d
  | employer :: rest =>
      let clean_employer := strip_string employer in
      town_colors_from (S i) rest
        (ODict.set clean_employer (i mod tab20_len) d)
  end.

(** [position_data[position][employer] = v] *)
Definition set_salary (position employer : string) (v : float)
  (position_data : dataset) : result dataset :=
  match position_data !! position with
  | Some by_employer =>
      Ok (<[position := <[employer := v]> by_employer]> position_data)
  | None => Raise KeyError
  end.

(** The loop [for employer, col_idx in town_indices.items()] on one row. *)
Fixpoint extract_row (row : list string) (position : string)
  (items : list (string * nat)) (position_data : dataset)
  : result dataset :=
  match items with
  | [] => Ok position_data
  | (employer, col_idx) :: rest =>
      cell ← py_index row col_idx;
      salary_value ← clean_salary_value cell;
      position_data' ←
        match salary_value with
        | Some v => set_salary position employer v position_data
        | None => Ok position_data
        end;
      extract_row row position rest position_data'
  end.

(** The body of [for row in reader]. *)
Definition process_row (town_indices : list (string * nat))
  (position_data : dataset) (row : list string) : result dataset :=
  if length row <? 2 then Ok position_data
  else
    title ← py_index row 0;
    let position := strip_string title in
    if String.eqb position "" then Ok position_data
    else if bool_decide (position ∈ inspector_positions)
    then Ok position_data
    else
      extract_row row position town_indices
        (<[position := ∅]> position_data).

Fixpoint process_rows (town_indices : list (string * nat))
  (rows : list (list string)) (position_data : dataset) : result dataset :=
  match rows with
  | [] => Ok position_data
  | row :: rest =>
      position_data' ← process_row town_indices position_data row;
      process_rows town_indices rest position_data'
  end.

(** What the function does once the file is open. *)
Definition load_comparison_rows (rows : list (list string))
  : result (dataset * list (string * nat)) :=
  match rows with
  | [] => Raise StopIteration
  | headers :: data_rows =>
      let town_indices := town_indices_from 0 (employer_headers headers) [] in
      let town_colors := town_colors_from 0 (employer_headers headers) [] in
      position_data ← process_rows town_indices data_rows ∅;
      Ok (position_data, town_colors)
  end.

Definition load_comparison_data (fs : file_system) (csv_file : string)
  : result (dataset * list (string * nat)) :=
  match fs csv_file with
  | None => Raise FileNotFoundError
  | Some rows => load_comparison_rows rows
  end.

(** *** What one row contributes *)

(** [town_indices] as the function builds it from the header row. *)
Definition town_indices_of (headers : list string) : list (string * nat) :=
  town_indices_from 0 (employer_headers headers) [].

(** The position under which the loop files a row; [None] for the rows it
    skips: fewer than two cells, a blank title, an inspector title. *)
Definition kept_position (row : list string) : option string :=
  if length row <? 2 then None
  else
    match row !! 0 with
    | Some title =>
        let position := strip_string title in
        if String.eqb position "" then None
        else if bool_decide (position ∈ inspector_positions) then None
        else Some position
    | None => None
    end.

(** The value, if any, that [clean_salary_value] finds in cell [idx]. *)
Definition parsed_cell (row : list string) (idx : nat) : option float :=
  match row !! idx with
  | Some cell =>
      match clean_salary_value cell with
      | Ok (Some v) => Some v
      | _ => None
      end
  | None => None
  end.

(** The value, if any, that a row has for an employer. *)
Definition row_entry (town_indices : list (string * nat))
  (row : list string) (employer : string) : option float :=
  match ODict.get employer town_indices with
  | Some idx => parsed_cell row idx
  | None => None
  end.

(** The row has a cell at every employer column. *)
Definition row_in_range (town_indices : list (string * nat))
  (row : list string) : bool :=
  forallb (fun item => snd item <? length row) town_indices.

(** The entry of the dataset for a position and an employer. *)
Definition entry (d : dataset) (position employer : string) : option float :=
  match d !! position with
  | Some by_employer => by_employer !! employer
  | None => None
  end.

(** ** [load_dartmouth_data] and [load_all_employer_data] *)

(** The dictionaries [{'position': .., 'salary': ..}] of the two scripts. *)
Record item : Set := Item { position : string; salary : float }.

(** The body of [for row in reader] in [load_dartmouth_data]. *)
Definition dartmouth_row (data : list item) (row : list string)
  : result (list item) :=
  if length row <? 2 then Ok data
  else
    title ← py_index row 0;
    if String.eqb (strip_string title) "" then Ok data
    else
      let position := strip_string title in
      cell ← py_index row 1;
      dartmouth_salary ← clean_salary_value cell;
      match dartmouth_salary with
      | Some v => Ok (data ++ [Item position v])
      | None => Ok data
      end.

Fixpoint dartmouth_rows (rows : list (list string)) (data : list item)
  : result (list item) :=
  match rows with
  | [] => Ok data
  | row :: rest =>
      data' ← dartmouth_row data row;
      dartmouth_rows rest data'
  end.

Definition load_dartmouth_data (fs : file_system) (csv_file : string)
  : result (list item) :=
  match fs csv_file with
  | None => Raise FileNotFoundError
  | Some [] => Raise StopIteration
  | Some (headers :: data_rows) => dartmouth_rows data_rows []
  end.

(** [headers[2:18]] *)
Definition all_employers (headers : list string) : list string :=
  drop 2 (take 18 headers).

(** [for employer in employers: data_by_employer[employer.strip()] = []] *)
Definition init_by_employer (employers : list string)
  : gmap string (list item) :=
  fold_left (fun d employer => <[strip_string employer := []]> d)
    employers ∅.

(** [data_by_employer[employer].append(it)] *)
Definition append_item (employer : string) (it : item)
  (d : gmap string (list item)) : result (gmap string (list item)) :=
  match d !! employer with
  | Some l => Ok (<[employer := l ++ [it]]> d)
  | None => Raise KeyError
  end.

(** The loop [for i, employer in enumerate(employers)] on one row, from
    index [i] on. *)
Fixpoint all_employers_cells (i : nat) (employers : list string)
  (row : list string) (position : string) (d : gmap string (list item))
  : result (gmap string (list item)) :=
  match employers with
  | [] => Ok d
  | employer :: rest =>
      cell ← py_index row (i + 2);
      salary_value ← clean_salary_value cell;
      d' ←
        match salary_value with
        | Some v => append_item (strip_string employer) (Item position v) d
        | None => Ok d
        end;
      all_employers_cells (S i) rest row position d'
  end.

Definition all_employers_row (employers : list string)
  (d : gmap string (list item)) (row : list string)
  : result (gmap string (list item)) :=
  if length row <? 2 then Ok d
  else
    title ← py_index row 0;
    if String.eqb (strip_string title) "" then Ok d
    else all_employers_cells 0 employers row (strip_string title) d.

Fixpoint all_employers_rows (employers : list string)
  (rows : list (list string)) (d : gmap string (list item))
  : result (gmap string (list item)) :=
  match rows with
  | [] => Ok d
  | row :: rest =>
      d' ← all_employers_row employers d row;
      all_employers_rows employers rest d'
  end.

Definition load_all_employer_data (fs : file_system) (csv_file : string)
  : result (gmap string (list item)) :=
  match fs csv_file with
  | None => Raise FileNotFoundError
  | Some [] => Raise StopIteration
  | Some (headers :: data_rows) =>
      let employers := all_employers headers in
      all_employers_rows employers data_rows (init_by_employer employers)
  end.

(** ** [filter_data_for_visualization]

    [list.sort] is taken as a parameter of which only one fact is used:
    its result is a rearrangement of its argument. *)

Section Filter.

Variable sort_by_salary : bool -> list item -> list item.

Definition filter_data_for_visualization (data : list item) : list item :=
  let filtered_data :=
    List.filter
      (fun it => negb (bool_decide (position it ∈ inspector_positions)))
      data in
  let filtered_data := sort_by_salary true filtered_data in
  let filtered_data :=
    if 2 <? length filtered_data then drop 2 filtered_data
    else filtered_data in
  sort_by_salary false filtered_data.

End Filter.

(** ** Properties of floats *)

Definition float_zero : float := S754_zero false.

(** [x < 0], [x >= 0] and [math.isfinite(x)] *)
Definition is_negative (x : float) : bool := SFltb x float_zero.
Definition is_nonneg (x : float) : bool := SFleb float_zero x.
Definition is_finite (x : float) : bool :=
  match x with
  | S754_zero _ | S754_finite _ _ _ => true
  | S754_infinity _ | S754_nan => false
  end.

(** [x] is a zero, a finite number or an infinity with the sign bit [s]. *)
Definition has_sign (s : bool) (x : float) : Prop :=
  match x with
  | S754_zero s' | S754_infinity s' | S754_finite s' _ _ => s' = s
  | S754_nan => False
  end.

(** ** Which columns the loader reads *)

(** The column indices [load_comparison_data] reads cells from. *)
Definition columns_read (headers : list string) : list nat :=
  map snd (town_indices_from 0 (employer_headers headers) []).

Definition column_read (headers : list string) (i : nat) : bool :=
  bool_decide (i ∈ columns_read headers).

(** ** Currency-formatted numbers

    An optional minus sign, an optional dollar sign, groups of digits
    separated by commas, and an optional point followed by digits. *)

Fixpoint join_groups (groups : list (list ascii)) : list ascii :=
  match groups with
  | [] => []
  | [g] => g
  | g :: rest => g ++ ","%char :: join_groups rest
  end.

Definition currency_text (neg dollar : bool) (groups : list (list ascii))
  (frac : option (list ascii)) : list ascii :=
  (if neg then ["-"%char] else [])
  ++ (if dollar then ["$"%char] else [])
  ++ join_groups groups
  ++ match frac with
     | Some f => "."%char :: f
     | None => []
     end.

Definition all_digits (s : list ascii) : bool := forallb isdigit s.

(** The text of a decimal numeral: a minus sign or none, digits, and
    possibly a point and digits. *)
Definition numeral_text (neg : bool) (ip : list ascii)
  (frac : option (list ascii)) : list ascii :=
  (if neg then ["-"%char] else [])
  ++ ip
  ++ match frac with
     | Some f => "."%char :: f
     | None => []
     end.

(** The characters of a numeral. *)
Definition plain (c : ascii) : bool :=
  isdigit c || Ascii.eqb c "." || Ascii.eqb c "-".

(** [s] is not empty and neither begins nor ends with a character of [p]:
    stripping [p] leaves it as it is. *)
Definition bounded_by (p : ascii -> bool) (s : list ascii) : Prop :=
  exists c t, s = c :: t /\ p c = false /\ p (List.last s c) = false.

Definition well_grouped (groups : list (list ascii)) : bool :=
  negb (is_empty (concat groups))
  && forallb (fun g => negb (is_empty g) && all_digits g) groups.

Definition frac_digits (frac : option (list ascii)) : list ascii :=
  match frac with
  | Some f => f
  | None => []
  end.

(** The number a currency text stands for, as [float] rounds it. *)
Definition currency_value (neg : bool) (groups : list (list ascii))
  (frac : option (list ascii)) : float :=
  of_decimal neg (digits_val (concat groups ++ frac_digits frac))
    (- Z.of_nat (length (frac_digits frac))).

(** ** Sample files *)

Definition one_file (name : string) (rows : list (list string))
  : file_system :=
  fun path => if String.eqb path name then Some rows else None.

(** A survey with two employers and three trailing columns; the title
    [Clerk] comes twice. *)
Definition survey_headers : list string :=
  [ "POSITION TITLE"; " Town A "; "Town B";
    "ERI"; "Data Points"; "60th" ]%string.

Definition clerk_row : list string :=
  ["Clerk"; "$1,234.50"; "$25 per inspection"; "1"; "2"; "3"]%string.

Definition inspector_row : list string :=
  [" Alternate Wire Inspector"; "5"; "6"; "1"; "2"; "3"]%string.

Definition untitled_row : list string :=
  [""; "5"; "6"; "1"; "2"; "3"]%string.

Definition second_clerk_row : list string :=
  ["Clerk"; "n/a"; "7"; "1"; "2"; "3"]%string.

Definition chief_row : list string :=
  ["Chief"; "-5"; "inf"; "1"; "2"; "3"]%string.

Definition survey_rows : list (list string) :=
  survey_headers
  :: [clerk_row; inspector_row; untitled_row]
  ++ second_clerk_row :: [chief_row].

Definition survey_fs : file_system := one_file "survey.csv" survey_rows.

(** What [load_comparison_data] returns for it: 7.0 for the clerk, -5.0
    and an infinity for the chief. *)
Definition survey_dataset : dataset :=
  {[ "Clerk"%string :=
       {[ "Town B"%string := S754_finite false 7881299347898368 (-50) ]};
     "Chief"%string :=
       {[ "Town A"%string := S754_finite true 5629499534213120 (-50);
          "Town B"%string := S754_infinity false ]} ]}.

Definition survey_colors : list (string * nat) :=
  [("Town A"%string, 0); ("Town B"%string, 1)].

(** A table whose only data row is an inspector's. *)
Definition inspector_rows : list (list string) :=
  [ ["POSITION TITLE"; "Town A"];
    ["Alternate Wire Inspector"; "5"] ]%string.

(** ** File extensions *)




(** ** Validation

    [validate_data] of [CompensationDataParser] (module [data_parser]) is
    not among the sources, only its tests ([TestDataValidation]) are. A
    dataset is given here with the order of its keys, since the warnings
    come in that order, and its leaves are [(low, high)] pairs as in the
    tests. *)

Module Validate.

Abbreviation ranges := (list (string * (float * float))).

(** Modelled from the spec: the warning for a position without employer
    data; the text is the phrase the specification asks for and the
    position. *)
Definition no_data_msg (position : string) : string :=
  "Position has no compensation data: " +:+ position.

(** Modelled from the spec: the warning for a negative value. *)
Definition negative_msg (position employer : string) : string :=
  "Negative compensation value: " +:+ position +:+ " / " +:+ employer.

(** Modelled from the spec: the warning for a range with [low > high]. *)
Definition low_exceeds_msg (position employer : string) : string :=
  "Low value exceeds high value: " +:+ position +:+ " / " +:+ employer.

(** Modelled from the spec: the checks on one [(low, high)] entry, one
    warning for each negative value and one when [low > high]. *)
Definition range_warnings (position : string)
  (entry : string * (float * float)) : list string :=
  let '(employer, (low, high)) := entry in
  (if is_negative low then [negative_msg position employer] else [])
  ++ (if is_negative high then [negative_msg position employer] else [])
  ++ (if SFltb high low then [low_exceeds_msg position employer] else []).

(** Modelled from the spec: the checks on one position, first that it has
    employer data, then its entries in order. *)
Definition position_warnings (entry : string * ranges) : list string :=
  let '(position, employers) := entry in
  (match employers with
   | [] => [no_data_msg position]
   | _ :: _ => []
   end)
  ++ concat (map (range_warnings position) employers).

(** Modelled from the spec: [validate_data], which is absent from the
    sources: the ordered list of the warnings of all positions. It
    returns a list and has no other outcome: the specification asks for
    warnings, not exceptions. *)
Definition validate_data (data : list (string * ranges)) : list string :=
  concat (map position_warnings data).

(** Modelled from the spec: the end of [process], which is absent from the
    sources: the dataset is returned with the warnings of [validate_data]
    when validation is asked for, and with no warning otherwise. *)
Definition process_validation (validate : bool)
  (data : list (string * ranges)) : list (string * ranges) * list string :=
  (data, if validate then validate_data data else []).

(** The datasets of the tests of [TestDataValidation]. *)
Definition hundred : float := of_decimal false 100 0.
Definition eighty : float := of_decimal false 80 0.
Definition minus_ten : float := of_decimal true 10 0.

Definition whole (n : N) : float := of_decimal false n 0.

Definition sample_compensation_data : list (string * ranges) :=
  [ ("Software Engineer"%string,
      [ ("Employer A"%string, (whole 80, whole 100));
        ("Employer B"%string, (whole 75, whole 95));
        ("Employer C"%string, (whole 85, whole 105)) ]);
    ("Data Scientist"%string,
      [ ("Employer A"%string, (whole 90, whole 120));
        ("Employer B"%string, (whole 85, whole 110)) ]) ].

Definition inverted_data : list (string * ranges) :=
  [("Position A"%string, [("Employer A"%string, (hundred, eighty))])].

Definition negative_data : list (string * ranges) :=
  [("Position A"%string, [("Employer A"%string, (minus_ten, eighty))])].

Definition empty_position_data : list (string * ranges) :=
  [("Position A"%string, [])].

End Validate.

(** ** Further notions for the loaders *)

(** The loop does not skip the row. *)
Definition is_kept (row : list string) : bool :=
  match kept_position row with
  | Some _ => true
  | None => false
  end.

(** Every row that the loop keeps has a cell at every employer column. *)
Definition rows_in_range (town_indices : list (string * nat))
  (rows : list (list string)) : bool :=
  forallb (fun row => negb (is_kept row) || row_in_range town_indices row)
    rows.

(** Two rows that the loader cannot tell apart: both short or both not,
    the same title cell, and the same cell at every column it reads. *)
Definition same_cells_read (headers : list string) (r r' : list string)
  : Prop :=
  (length r <? 2) = (length r' <? 2)
  /\ r !! 0 = r' !! 0
  /\ forall i, column_read headers i = true -> r !! i = r' !! i.

(** No character of [s] is a digit. *)
Definition no_digit (s : list ascii) : bool :=
  forallb (fun c => negb (isdigit c)) s.

(** The value of an unsigned numeral, as [float] rounds it. *)
Definition numeral_value (ip : list ascii) (frac : option (list ascii))
  : float :=
  of_decimal false (digits_val (ip ++ frac_digits frac))
    (- Z.of_nat (length (frac_digits frac))).

(** ** A stable sort

    [list.sort] compares keys with [<] only and is stable. For keys that
    [<] orders totally, which floats without a NaN are, a stable sort has
    one possible result, and this insertion sort computes it. [before x y]
    says that [x] has to come before [y]. *)

Fixpoint insert_stable {A : Type} (before : A -> A -> bool) (x : A)
  (l : list A) : list A :=
  match l with
  | [] => [x]
  | y :: l' =>
      if before y x then y :: insert_stable before x l' else x :: l
  end.

Definition stable_sort {A : Type} (before : A -> A -> bool) (l : list A)
  : list A :=
  foldr (insert_stable before) [] l.

(** [data.sort(key=lambda x: x['salary'], reverse=reverse)] *)
Definition sort_items (reverse : bool) (data : list item) : list item :=
  stable_sort
    (fun a b =>
       if reverse then SFltb (salary b) (salary a)
       else SFltb (salary a) (salary b))
    data.

(** [it in data_by_employer[k]] *)
Definition holds (d : gmap string (list item)) (k : string) (it : item)
  : Prop :=
  exists l, d !! k = Some l /\ In it l.

(** Two rows that [load_all_employer_data] cannot tell apart: both short
    or both not, the same title cell, and the same cell at the place of
    every employer header. *)
Definition same_employer_cells (headers : list string)
  (r r' : list string) : Prop :=
  (length r <? 2) = (length r' <? 2)
  /\ r !! 0 = r' !! 0
  /\ forall j, j < length (all_employers headers) ->
                r !! (2 + j) = r' !! (2 + j).

(** The items that [filter_data_for_visualization] keeps at its first
    step. *)
Definition without_inspectors (data : list item) : list item :=
  List.filter
    (fun it => negb (bool_decide (position it ∈ inspector_positions)))
    data.

(** The keys are in decreasing order: none is smaller than a later one. *)
Fixpoint sorted_desc (keys : list float) : bool :=
  match keys with
  | [] => true
  | x :: rest => forallb (fun y => negb (SFltb x y)) rest && sorted_desc rest
  end.

(** ** [filter_highest_paid_positions]

    [sum(..) / len(..)] and [list.sort] are parameters: the average of a
    position, and the sort of the pairs by decreasing average. The
    positions are taken in the order of [map_to_list]; the sort is given
    that list. *)

Section FilterHighest.

Variable average_salary : gmap string float -> float.
Variable sort_by_average : list (string * float) -> list (string * float).

(** The loop that fills [position_averages]: the positions that have
    data, each with its average. *)
Definition position_averages (position_data : dataset)
  : list (string * float) :=
  omap
    (fun '(position, town_salaries) =>
       if decide (town_salaries = ∅) then None
       else Some (position, average_salary town_salaries))
    (map_to_list position_data).

(** [positions_to_exclude] *)
Definition positions_to_exclude (position_data : dataset) : list string :=
  let sorted := sort_by_average (position_averages position_data) in
  if 2 <=? length sorted then map fst (take 2 sorted) else [].

Definition filter_highest_paid_positions (position_data : dataset)
  : dataset :=
  filter
    (fun '(pos, data) =>
       (pos ∉ positions_to_exclude position_data) /\ 1 < size data)
    position_data.

End FilterHighest.

(** Averages by a plain sum from the left, and the stable sort by
    decreasing average. *)
Definition plain_average (town_salaries : gmap string float) : float :=
  SFdiv prec emax
    (foldr (SFadd prec emax) (S754_zero false)
       (map snd (map_to_list town_salaries)))
    (of_decimal false (N.of_nat (size town_salaries)) 0).

Definition sort_averages (l : list (string * float))
  : list (string * float) :=
  stable_sort (fun a b => SFltb (snd b) (snd a)) l.

(** ** Rounding to binary64, as a property

    These notions state what [float] is to return for a decimal numeral;
    the parser uses none of them. *)

(** The value of a decimal digit. *)
Definition digit_number (c : ascii) : Z :=
  if Ascii.eqb c "1" then 1
  else if Ascii.eqb c "2" then 2
  else if Ascii.eqb c "3" then 3
  else if Ascii.eqb c "4" then 4
  else if Ascii.eqb c "5" then 5
  else if Ascii.eqb c "6" then 6
  else if Ascii.eqb c "7" then 7
  else if Ascii.eqb c "8" then 8
  else if Ascii.eqb c "9" then 9
  else 0.

(** The number that a string of decimal digits denotes. *)
Fixpoint decimal_number (ds : list ascii) : Z :=
  match ds with
  | [] => 0
  | c :: rest =>
      digit_number c * 10 ^ Z.of_nat (length rest) + decimal_number rest
  end.

(** The magnitude of a finite binary64 number, counted in units of
    [2 ^ (-1074)], the least positive binary64 number: the magnitude is
    [m * 2 ^ e] with [m < 2 ^ 53] and [-1074 <= e <= 971]. *)
Definition binary64_units (x : float) : option Z :=
  match x with
  | S754_zero _ => Some 0
  | S754_finite _ m e =>
      if (Z.pos m <? 2 ^ 53) && (-1074 <=? e) && (e <=? 971)
      then Some (Z.pos m * 2 ^ (e + 1074))
      else None
  | _ => None
  end%Z.

(** The significand has 53 bits, or the exponent is the least one. *)
Definition normalised (x : float) : bool :=
  match x with
  | S754_finite _ m e => (2 ^ 52 <=? Z.pos m) || (e =? -1074)
  | _ => true
  end%Z.

Definition even_significand (x : float) : bool :=
  match x with
  | S754_finite _ m _ => Z.even (Z.pos m)
  | _ => true
  end.

(** [x] is [n / d] rounded to binary64 with the sign [neg], for [0 <= n]
    and [0 < d]: from [2 ^ 1024 - 2 ^ 970] on it is the infinity; below,
    it is a finite binary64 number than which no other is nearer to
    [n / d], and when another is as near, the significand of [x] is
    even. *)
Definition rounded_to_binary64 (neg : bool) (n d : Z) (x : float) : Prop :=
  if ((2 ^ 1024 - 2 ^ 970) * d <=? n)%Z then x = S754_infinity neg
  else
    exists u,
      has_sign neg x /\ normalised x = true /\ binary64_units x = Some u
      /\ forall y v,
           binary64_units y = Some v ->
           (Z.abs (n * 2 ^ 1074 - u * d) <= Z.abs (n * 2 ^ 1074 - v * d)
            /\ (Z.abs (n * 2 ^ 1074 - u * d) = Z.abs (n * 2 ^ 1074 - v * d) ->
                v <> u -> even_significand x = true))%Z.

(** Where [T] lies from [m * U], for [0 <= T - m * U < U]: on it, below
    the middle of the step, in the middle, above. *)
Definition location_of (rho U : Z) : location :=
  if (rho =? 0)%Z then loc_Exact else loc_Inexact (2 * rho ?= U)%Z.

(** [m] is the quotient of [T] by [U], and [l] the place of the
    remainder. *)
Definition located (T U m : Z) (l : location) : Prop :=
  (0 <= m /\ 0 < U /\ m * U <= T < (m + 1) * U)%Z
  /\ l = location_of (T - m * U) U.

(** The weight of the exponent [e], for the denominator [d], in units of
    [2 ^ (-1074)]. *)
Definition weight (d e : Z) : Z := (2 ^ (e + 1074) * d)%Z.

(** What [binary_round_aux] makes of a significand that the first shift
    has brought to 53 bits or fewer. *)
Definition rounded_result (neg : bool) (m1 e1 : Z) (l1 : location)
  : float :=
  let '(r, e3) :=
    shr_fexp prec emax (round_nearest_even m1 l1) e1 loc_Exact in
  match shr_m r with
  | 0%Z => S754_zero neg
  | Z.pos m =>
      if (e3 <=? 971)%Z then S754_finite neg m e3 else S754_infinity neg
  | Z.neg _ => S754_nan
  end.


(** ** Sample items *)

Definition sample_items : list item :=
  [ Item "Clerk" (of_decimal false 40 0);
    Item "Alternate Wire Inspector" (of_decimal false 90 0);
    Item "Chief" (of_decimal false 80 0);
    Item "Planner" (of_decimal false 60 0);
    Item "Aide" (of_decimal false 30 0) ].

(** A dataset with five positions: two employers for three of them, one
    for the aide, none for the vacancy. *)
Definition staff_dataset : dataset :=
  {[ "Chief"%string :=
       {[ "Town A"%string := of_decimal false 90 0;
          "Town B"%string := of_decimal false 100 0 ]};
     "Clerk"%string :=
       {[ "Town A"%string := of_decimal false 40 0;
          "Town B"%string := of_decimal false 50 0 ]};
     "Planner"%string :=
       {[ "Town A"%string := of_decimal false 60 0;
          "Town B"%string := of_decimal false 70 0 ]};
     "Aide"%string := {[ "Town A"%string := of_decimal false 30 0 ]};
     "Vacancy"%string := ∅ ]}.

(** A file whose third and fourth headers differ by a space only, and
    what [load_all_employer_data] returns for it. *)
Definition twin_rows : list (list string) :=
  [ ["POSITION TITLE"; "Dartmouth"; "Town A"; " Town A"];
    ["Clerk"; "1"; "2"; "3"];
    ["Alternate Wire Inspector"; "4"; "n/a"; "5"] ]%string.

Definition twin_data : gmap string (list item) :=
  {[ "Town A"%string :=
       [ Item "Clerk" (of_decimal false 2 0);
         Item "Clerk" (of_decimal false 3 0);
         Item "Alternate Wire Inspector" (of_decimal false 5 0) ] ]}.

(** A file in which the last row with the title [Clerk] has one cell. *)
Definition short_last_rows : list (list string) :=
  [ ["POSITION TITLE"; "Town A"]; ["Clerk"; "5"]; ["Clerk"] ]%string.

(** A header row with a repeated employer name. *)
Definition repeated_headers : list string :=
  [ "POSITION TITLE"; "Town A"; " Town A"; "Town B";
    "ERI"; "Data Points"; "60th" ]%string.

(** A header row of four cells, and a table with it. *)
Definition four_headers : list string :=
  ["POSITION TITLE"; "Town A"; "ERI"; "Data Points"]%string.

Definition four_rows : list (list string) :=
  [four_headers; ["Clerk"; "5"; "1"; "2"]%string].

(** * Proofs *)

(** ** Characters *)

Lemma in_range_spec lo hi c :
  in_range lo hi c = true <-> (lo <= code c <= hi)%N.
Proof.
  unfold in_range. rewrite andb_true_iff, !N.leb_le. tauto.
Qed.

Lemma in_range_false lo hi c :
  in_range lo hi c = false <-> (code c < lo \/ hi < code c)%N.
Proof.
  unfold in_range. rewrite andb_false_iff, !N.leb_gt. tauto.
Qed.

Lemma isdigit_spec c : isdigit c = true <-> (48 <= code c <= 57)%N.
Proof. apply in_range_spec. Qed.


Lemma digit_not_char c d :
  isdigit c = true -> isdigit d = false -> Ascii.eqb c d = false.
Proof.
  intros Hc Hd. apply Ascii.eqb_neq. intros ->. congruence.
Qed.

Lemma digit_not_isspace c : isdigit c = true -> isspace c = false.
Proof.
  rewrite isdigit_spec. intros H. unfold isspace.
  rewrite !orb_false_iff, !in_range_false, !N.eqb_neq. lia.
Qed.

Lemma digit_not_c_isspace c : isdigit c = true -> c_isspace c = false.
Proof.
  rewrite isdigit_spec. intros H. unfold c_isspace.
  rewrite orb_false_iff, in_range_false, N.eqb_neq. lia.
Qed.

Lemma digit_to_ascii_float c : isdigit c = true -> to_ascii_float c = c.
Proof.
  rewrite isdigit_spec. intros H. unfold to_ascii_float.
  destruct (N.ltb_spec (code c) 127); [reflexivity | lia].
Qed.

Lemma digit_lower_char c : isdigit c = true -> lower_char c = c.
Proof.
  rewrite isdigit_spec. intros H. unfold lower_char.
  assert (in_range 65 90 c = false) as -> by (apply in_range_false; lia).
  assert (in_range 192 222 c = false) as -> by (apply in_range_false; lia).
  reflexivity.
Qed.

(** ** Stripping *)

Lemma drop_while_all p s : forallb p s = true -> drop_while p s = [].
Proof.
  induction s as [|c t IH]; simpl; [reflexivity|].
  rewrite andb_true_iff. intros [-> Ht]. now apply IH.
Qed.

Lemma drop_while_app_all p ws s :
  forallb p ws = true -> drop_while p (ws ++ s) = drop_while p s.
Proof.
  induction ws as [|c t IH]; simpl; [reflexivity|].
  rewrite andb_true_iff. intros [-> Ht]. now apply IH.
Qed.

Lemma drop_while_head p s c t :
  drop_while p s = c :: t -> p c = false.
Proof.
  induction s as [|a s IH]; simpl; [discriminate|].
  destruct (p a) eqn:Ha; [exact IH|].
  intros [= -> _]. exact Ha.
Qed.

Lemma drop_while_stop p c t : p c = false -> drop_while p (c :: t) = c :: t.
Proof. simpl. now intros ->. Qed.

Lemma rev_drop_while_rev p s :
  bounded_by p s -> rev (drop_while p (rev s)) = s.
Proof.
  intros (c & t & Hs & _ & Hl).
  assert (s <> []) as Hne by (subst; discriminate).
  destruct (exists_last Hne) as (s' & x & Hx).
  rewrite Hx in Hl |- *. rewrite last_last in Hl.
  rewrite rev_app_distr. simpl. rewrite Hl. simpl.
  now rewrite rev_involutive.
Qed.

Lemma strip_gen_bounded p s :
  bounded_by p s -> rev (drop_while p (rev (drop_while p s))) = s.
Proof.
  intros H. pose proof H as (c & t & Hs & Hc & _).
  assert (drop_while p s = s) as ->
    by (rewrite Hs; now apply drop_while_stop).
  now apply rev_drop_while_rev.
Qed.

Lemma strip_gen_padded p ws1 s ws2 :
  forallb p ws1 = true -> forallb p ws2 = true -> bounded_by p s ->
  rev (drop_while p (rev (drop_while p (ws1 ++ s ++ ws2)))) = s.
Proof.
  intros H1 H2 H. pose proof H as (c & t & Hs & Hc & _).
  rewrite drop_while_app_all by exact H1.
  assert (drop_while p (s ++ ws2) = s ++ ws2) as ->
    by (rewrite Hs; now apply drop_while_stop).
  rewrite rev_app_distr, drop_while_app_all
    by (rewrite forallb_forall in *; intros x Hx; apply H2;
        now apply in_rev).
  now apply rev_drop_while_rev.
Qed.

Lemma strip_bounded s : bounded_by isspace s -> strip s = s.
Proof. apply strip_gen_bounded. Qed.

Lemma strip_padded ws1 s ws2 :
  forallb isspace ws1 = true -> forallb isspace ws2 = true ->
  bounded_by isspace s -> strip (ws1 ++ s ++ ws2) = s.
Proof. apply strip_gen_padded. Qed.

Lemma c_strip_bounded s : bounded_by c_isspace s -> c_strip s = s.
Proof. apply strip_gen_bounded. Qed.

Lemma strip_all_space s : forallb isspace s = true -> strip s = [].
Proof.
  intros H. unfold strip, lstrip, rstrip.
  now rewrite (drop_while_all _ _ H).
Qed.

(** ** Runs of digits *)

Lemma span_digits_app d r :
  all_digits d = true ->
  (forall c t, r = c :: t -> isdigit c = false) ->
  span_digits (d ++ r) = (d, r).
Proof.
  unfold all_digits. intros Hd Hr.
  induction d as [|c d IH]; simpl in *.
  - destruct r as [|c t]; [reflexivity|].
    simpl. now rewrite (Hr c t eq_refl).
  - apply andb_true_iff in Hd as [-> Hd]. now rewrite IH.
Qed.

Lemma span_digits_all d : all_digits d = true -> span_digits d = (d, []).
Proof.
  intros H. rewrite <- (app_nil_r d) at 1.
  apply span_digits_app; [exact H | discriminate].
Qed.

Lemma span_digits_spec s d r :
  span_digits s = (d, r) ->
  s = d ++ r /\ all_digits d = true
  /\ (forall c t, r = c :: t -> isdigit c = false).
Proof.
  unfold all_digits. revert d r.
  induction s as [|c s IH]; simpl; intros d r.
  - intros [= <- <-]. repeat split. discriminate.
  - destruct (isdigit c) eqn:Hc.
    + destruct (span_digits s) as [d' r'].
      intros [= <- <-]. destruct (IH d' r' eq_refl) as (-> & Hd & Hr).
      simpl. rewrite Hc, Hd. repeat split. exact Hr.
    + intros [= <- <-]. repeat split.
      intros c' t' [= <- <-]. exact Hc.
Qed.

(** ** Numerals *)

Lemma plain_cases c :
  plain c = true -> isdigit c = true \/ c = "."%char \/ c = "-"%char.
Proof.
  unfold plain. rewrite !orb_true_iff, !Ascii.eqb_eq. tauto.
Qed.

Lemma plain_to_ascii_float c : plain c = true -> to_ascii_float c = c.
Proof.
  intros [H | [-> | ->]]%plain_cases; [|reflexivity..].
  now apply digit_to_ascii_float.
Qed.

Lemma plain_lower_char c : plain c = true -> lower_char c = c.
Proof.
  intros [H | [-> | ->]]%plain_cases; [|reflexivity..].
  now apply digit_lower_char.
Qed.

Lemma plain_not_isspace c : plain c = true -> isspace c = false.
Proof.
  intros [H | [-> | ->]]%plain_cases; [|reflexivity..].
  now apply digit_not_isspace.
Qed.

Lemma plain_not_c_isspace c : plain c = true -> c_isspace c = false.
Proof.
  intros [H | [-> | ->]]%plain_cases; [|reflexivity..].
  now apply digit_not_c_isspace.
Qed.

Lemma plain_not_letter c d :
  plain c = true -> plain d = false -> Ascii.eqb c d = false.
Proof.
  intros Hc Hd. apply Ascii.eqb_neq. intros ->. congruence.
Qed.

Lemma digit_plain c : isdigit c = true -> plain c = true.
Proof. unfold plain. now intros ->. Qed.

Lemma all_digits_plain s : all_digits s = true -> forallb plain s = true.
Proof.
  unfold all_digits. rewrite !forallb_forall.
  intros H c Hc. apply digit_plain. now apply H.
Qed.

Lemma numeral_text_plain neg ip frac :
  all_digits ip = true -> all_digits (frac_digits frac) = true ->
  forallb plain (numeral_text neg ip frac) = true.
Proof.
  intros Hi Hf. unfold numeral_text.
  rewrite !forallb_app, (all_digits_plain _ Hi).
  destruct neg, frac as [f|]; simpl in *;
    rewrite ?(all_digits_plain _ Hf); reflexivity.
Qed.

Lemma map_plain (f : ascii -> ascii) s :
  (forall c, plain c = true -> f c = c) ->
  forallb plain s = true -> map f s = s.
Proof.
  intros Hf. induction s as [|c s IH]; simpl; [reflexivity|].
  rewrite andb_true_iff. intros [Hc Hs]. now rewrite Hf, IH.
Qed.

Lemma last_In (s : list ascii) d : s <> [] -> In (List.last s d) s.
Proof.
  intros Hne. destruct (exists_last Hne) as (s' & x & ->).
  rewrite last_last. apply in_or_app. right. now left.
Qed.

Lemma forallb_bounded_by (q p : ascii -> bool) s :
  (forall c, q c = true -> p c = false) ->
  s <> [] -> forallb q s = true -> bounded_by p s.
Proof.
  intros Hp Hne Hs. pose proof (last_In s) as Hl.
  destruct s as [|c t]; [congruence|].
  exists c, t. rewrite forallb_forall in Hs.
  split; [reflexivity|]. split; apply Hp, Hs.
  - now left.
  - now apply Hl.
Qed.

Lemma strip_underscores_plain prev s :
  Ascii.eqb prev "_" = false -> forallb plain s = true ->
  strip_underscores prev s = Some s.
Proof.
  revert prev. induction s as [|c s IH]; simpl; intros prev Hp.
  - now rewrite Hp.
  - rewrite andb_true_iff. intros [Hc Hs].
    assert (Ascii.eqb c "_" = false) as Hu
      by (now apply plain_not_letter).
    rewrite Hu, Hp. simpl. now rewrite IH.
Qed.

Lemma numeral_text_nonempty neg ip frac :
  ip <> [] -> numeral_text neg ip frac <> [].
Proof.
  intros Hne. unfold numeral_text. destruct neg; [discriminate|].
  destruct ip; [congruence | discriminate].
Qed.

Lemma parse_sign_digit c t :
  isdigit c = true -> parse_sign (c :: t) = (false, c :: t).
Proof.
  intros H. unfold parse_sign.
  now rewrite !(digit_not_char _ _ H) by reflexivity.
Qed.

Lemma parse_sign_numeral (neg : bool) ip r :
  ip <> [] -> all_digits ip = true ->
  parse_sign ((if neg then ["-"%char] else []) ++ ip ++ r) = (neg, ip ++ r).
Proof.
  intros Hne Hd. destruct neg; [reflexivity|].
  destruct ip as [|c t]; [congruence|]. simpl in Hd.
  apply andb_true_iff in Hd as [Hc _]. now apply parse_sign_digit.
Qed.

Lemma parse_number_numeral ip frac :
  ip <> [] -> all_digits ip = true -> all_digits (frac_digits frac) = true ->
  parse_number (ip ++ match frac with
                      | Some f => "."%char :: f
                      | None => []
                      end)
  = Some (ip, frac_digits frac, []).
Proof.
  intros Hne Hi Hf. unfold parse_number.
  rewrite span_digits_app; [|exact Hi|].
  - destruct frac as [f|]; cbn [frac_digits] in *.
    + change (starts_with ["."%char] ("."%char :: f)) with true.
      change (drop 1 ("."%char :: f)) with f.
      cbv iota. rewrite (span_digits_all _ Hf).
      destruct ip; [congruence|reflexivity].
    + destruct ip; [congruence|reflexivity].
  - destruct frac; [|discriminate]. now intros c t [= <- <-].
Qed.

(** [float] of a numeral is the rounded value of its digits. *)
Lemma py_float_numeral neg ip frac :
  ip <> [] -> all_digits ip = true -> all_digits (frac_digits frac) = true ->
  py_float (numeral_text neg ip frac)
  = Ok (of_decimal neg (digits_val (ip ++ frac_digits frac))
          (- Z.of_nat (length (frac_digits frac)))).
Proof.
  intros Hne Hi Hf.
  pose proof (numeral_text_plain neg ip frac Hi Hf) as Hp.
  pose proof (numeral_text_nonempty neg ip frac Hne) as Hn.
  unfold py_float.
  rewrite (map_plain _ _ plain_to_ascii_float Hp).
  rewrite c_strip_bounded
    by (now apply (forallb_bounded_by plain); [apply plain_not_c_isspace|..]).
  destruct (numeral_text neg ip frac) eqn:E; [congruence|].
  rewrite strip_underscores_plain by (reflexivity || exact Hp).
  rewrite <- E.
  unfold parse_literal, numeral_text.
  rewrite parse_sign_numeral by assumption.
  rewrite parse_number_numeral by assumption.
  reflexivity.
Qed.

(** ** The regular expression *)

Lemma starts_with_point r :
  starts_with ["."%char] r = true -> r = "."%char :: drop 1 r.
Proof.
  destruct r as [|c t]; [discriminate|].
  change (starts_with ["."%char] (c :: t)) with (Ascii.eqb "." c && true).
  rewrite andb_true_r, Ascii.eqb_eq. now intros <-.
Qed.

(** What the regular expression matches is a numeral without sign. *)
Lemma search_number_numeral s m :
  search_number s = Some m ->
  exists d1 frac,
    m = numeral_text false d1 frac /\ d1 <> []
    /\ all_digits d1 = true /\ all_digits (frac_digits frac) = true.
Proof.
  unfold search_number.
  destruct (drop_while _ s) as [|c t] eqn:E; [discriminate|].
  apply drop_while_head in E. apply negb_false_iff in E.
  destruct (span_digits (c :: t)) as [d1 r] eqn:Hspan.
  apply span_digits_spec in Hspan as (Hs & Hd1 & Hr).
  assert (d1 <> []) as Hne.
  { intros ->. simpl in Hs. specialize (Hr c t (eq_sym Hs)). congruence. }
  destruct (starts_with ["."%char] r) eqn:Hpt; intros [= <-].
  - destruct (span_digits (drop 1 r)) as [d2 r2] eqn:H2.
    apply span_digits_spec in H2 as (_ & Hd2 & _).
    exists d1, (Some d2). repeat split; assumption.
  - exists d1, None. unfold numeral_text. simpl.
    rewrite app_nil_r. repeat split; assumption.
Qed.

Lemma search_number_float s m :
  search_number s = Some m -> exists x, py_float m = Ok x.
Proof.
  intros (d1 & frac & -> & Hne & Hd1 & Hd2)%search_number_numeral.
  rewrite py_float_numeral by assumption. eauto.
Qed.

(** ** [clean_salary_value] never raises *)

Lemma py_float_raises s e : py_float s = Raise e -> e = ValueError.
Proof.
  unfold py_float.
  destruct (c_strip _) as [|c t]; [now intros [= <-]|].
  destruct (strip_underscores _ _); [|now intros [= <-]].
  destruct (parse_literal _); [discriminate | now intros [= <-]].
Qed.

Lemma float_or_none_ok s : exists r, float_or_none (py_float s) = Ok r.
Proof.
  destruct (py_float s) as [x|e] eqn:E; simpl; [eauto|].
  apply py_float_raises in E as ->. eauto.
Qed.

Lemma clean_salary_value_ok value : exists r, clean_salary_value value = Ok r.
Proof.
  unfold clean_salary_value.
  destruct (is_empty _ || is_empty _); [eauto|].
  destruct (contains _ _).
  - destruct (search_number _) as [m|] eqn:E; [|eauto].
    apply search_number_float in E as [x ->]. simpl. eauto.
  - apply float_or_none_ok.
Qed.

Lemma clean_salary_value_blank value :
  forallb isspace (of_string value) = true ->
  clean_salary_value value = Ok None.
Proof.
  intros H. unfold clean_salary_value.
  rewrite (strip_all_space _ H). simpl. now rewrite orb_true_r.
Qed.

(** ** Currency texts *)

Lemma remove_char_app c s t :
  remove_char c (s ++ t) = remove_char c s ++ remove_char c t.
Proof. unfold remove_char. apply List.filter_app. Qed.

Lemma remove_char_absent c s :
  forallb (fun x => negb (Ascii.eqb x c)) s = true -> remove_char c s = s.
Proof.
  induction s as [|a s IH]; simpl; [reflexivity|].
  rewrite andb_true_iff. intros [-> Hs]. now rewrite IH.
Qed.

Lemma remove_char_plain c s :
  plain c = false -> forallb plain s = true -> remove_char c s = s.
Proof.
  intros Hc Hs. apply remove_char_absent.
  rewrite forallb_forall in *. intros x Hx.
  rewrite plain_not_letter; auto.
Qed.

Lemma well_grouped_cons g groups :
  forallb (fun g => negb (is_empty g) && all_digits g) (g :: groups) = true ->
  all_digits g = true
  /\ forallb (fun g => negb (is_empty g) && all_digits g) groups = true.
Proof. simpl. rewrite !andb_true_iff. tauto. Qed.

Lemma concat_all_digits groups :
  forallb (fun g => negb (is_empty g) && all_digits g) groups = true ->
  all_digits (concat groups) = true.
Proof.
  induction groups as [|g groups IH]; [reflexivity|].
  intros [Hg Hr]%well_grouped_cons. simpl. unfold all_digits in *.
  rewrite forallb_app, Hg. now apply IH.
Qed.

Lemma join_groups_dollar groups :
  forallb (fun g => negb (is_empty g) && all_digits g) groups = true ->
  remove_char "$" (join_groups groups) = join_groups groups.
Proof.
  induction groups as [|g groups IH]; [reflexivity|].
  intros [Hg Hr]%well_grouped_cons.
  pose proof (remove_char_plain "$" g eq_refl (all_digits_plain _ Hg)) as Eg.
  destruct groups as [|g' groups]; [exact Eg|].
  change (join_groups (g :: g' :: groups))
    with (g ++ ","%char :: join_groups (g' :: groups)).
  rewrite remove_char_app, Eg.
  change (remove_char "$" (","%char :: ?l))
    with (","%char :: remove_char "$" l).
  now rewrite (IH Hr).
Qed.

Lemma join_groups_comma groups :
  forallb (fun g => negb (is_empty g) && all_digits g) groups = true ->
  remove_char "," (join_groups groups) = concat groups.
Proof.
  induction groups as [|g groups IH]; [reflexivity|].
  intros [Hg Hr]%well_grouped_cons.
  pose proof (remove_char_plain "," g eq_refl (all_digits_plain _ Hg)) as Eg.
  destruct groups as [|g' groups];
    [simpl; now rewrite app_nil_r|].
  change (join_groups (g :: g' :: groups))
    with (g ++ ","%char :: join_groups (g' :: groups)).
  rewrite remove_char_app, Eg.
  change (remove_char "," (","%char :: ?l)) with (remove_char "," l).
  now rewrite (IH Hr).
Qed.

Lemma plain_no_space s :
  forallb plain s = true -> forallb (fun c => negb (isspace c)) s = true.
Proof.
  rewrite !forallb_forall. intros H c Hc.
  now rewrite plain_not_isspace by auto.
Qed.

Lemma join_groups_no_space groups :
  forallb (fun g => negb (is_empty g) && all_digits g) groups = true ->
  forallb (fun c => negb (isspace c)) (join_groups groups) = true.
Proof.
  induction groups as [|g groups IH]; [reflexivity|].
  intros [Hg Hr]%well_grouped_cons.
  pose proof (plain_no_space _ (all_digits_plain _ Hg)) as Eg.
  destruct groups as [|g' groups]; [exact Eg|].
  change (join_groups (g :: g' :: groups))
    with (g ++ ","%char :: join_groups (g' :: groups)).
  rewrite forallb_app, Eg.
  change (forallb ?f (","%char :: ?l)) with (forallb f l).
  now apply IH.
Qed.

Lemma join_groups_nonempty groups :
  negb (is_empty (concat groups)) = true -> join_groups groups <> [].
Proof.
  destruct groups as [|g groups]; [discriminate|].
  destruct g as [|c g]; [|destruct groups; discriminate].
  destruct groups as [|g' groups]; [discriminate|].
  simpl. discriminate.
Qed.

Lemma currency_text_bounded neg dollar groups frac :
  well_grouped groups = true -> all_digits (frac_digits frac) = true ->
  bounded_by isspace (currency_text neg dollar groups frac).
Proof.
  unfold well_grouped. intros [Hne Hg]%andb_true_iff Hf.
  apply (forallb_bounded_by (fun c => negb (isspace c))).
  - intros c. now rewrite negb_true_iff.
  - unfold currency_text. pose proof (join_groups_nonempty _ Hne).
    destruct neg, dollar, (join_groups groups); (discriminate || congruence).
  - unfold currency_text. rewrite !forallb_app.
    rewrite (join_groups_no_space _ Hg).
    assert (forallb (fun c => negb (isspace c))
              match frac with Some f => "."%char :: f | None => [] end
            = true) as ->.
    { destruct frac as [f|]; [|reflexivity]. simpl in Hf.
      change (forallb ?f ("."%char :: ?l)) with (forallb f l).
      now apply plain_no_space, all_digits_plain. }
    now destruct neg, dollar.
Qed.

Lemma currency_text_cleaned neg dollar groups frac :
  well_grouped groups = true -> all_digits (frac_digits frac) = true ->
  remove_char "," (remove_char "$" (currency_text neg dollar groups frac))
  = numeral_text neg (concat groups) frac.
Proof.
  unfold well_grouped. intros [Hne Hg]%andb_true_iff Hf.
  unfold currency_text, numeral_text.
  rewrite !remove_char_app, (join_groups_dollar _ Hg).
  rewrite (join_groups_comma _ Hg).
  set (tail := match frac with Some f => "."%char :: f | None => [] end).
  assert (forall c, plain c = false -> remove_char c tail = tail) as E.
  { intros c Hc. apply remove_char_plain; [exact Hc|]. subst tail.
    destruct frac as [f|]; [|reflexivity].
    change (forallb plain ("."%char :: f)) with (forallb plain f).
    now apply all_digits_plain. }
  rewrite !E by reflexivity.
  now destruct neg, dollar.
Qed.

Lemma contains_plain c p s :
  plain c = false -> forallb plain s = true -> contains (c :: p) s = false.
Proof.
  intros Hc. induction s as [|a s IH]; [reflexivity|].
  simpl. rewrite andb_true_iff. intros [Ha Hs].
  rewrite (IH Hs), orb_false_r.
  apply andb_false_iff. left. apply Ascii.eqb_neq. intros ->. congruence.
Qed.

Lemma numeral_no_per neg ip frac :
  all_digits ip = true -> all_digits (frac_digits frac) = true ->
  contains (of_string "per") (lower (numeral_text neg ip frac)) = false.
Proof.
  intros Hi Hf. pose proof (numeral_text_plain neg ip frac Hi Hf) as Hp.
  unfold lower. rewrite (map_plain _ _ plain_lower_char Hp).
  now apply contains_plain.
Qed.

Lemma of_to_string s : of_string (to_string s) = s.
Proof. apply list_ascii_of_string_of_list_ascii. Qed.


Lemma clean_salary_value_currency_text ws1 ws2 neg dollar groups frac :
  forallb isspace ws1 = true -> forallb isspace ws2 = true ->
  well_grouped groups = true -> all_digits (frac_digits frac) = true ->
  clean_salary_value
    (to_string (ws1 ++ currency_text neg dollar groups frac ++ ws2))
  = Ok (Some (currency_value neg groups frac)).
Proof.
  intros H1 H2 Hg Hf.
  pose proof (currency_text_bounded neg dollar groups frac Hg Hf) as Hb.
  unfold clean_salary_value. rewrite of_to_string.
  rewrite (strip_padded _ _ _ H1 H2 Hb).
  pose proof Hb as (c & t & Hc & _).
  assert (is_empty (ws1 ++ currency_text neg dollar groups frac ++ ws2)
          = false) as ->
    by (rewrite Hc; destruct ws1; reflexivity).
  assert (is_empty (currency_text neg dollar groups frac) = false) as ->
    by (now rewrite Hc).
  simpl orb. cbv iota.
  rewrite (currency_text_cleaned _ _ _ _ Hg Hf).
  apply andb_true_iff in Hg as [Hne Hg].
  pose proof (concat_all_digits _ Hg) as Hd.
  rewrite numeral_no_per by assumption.
  rewrite py_float_numeral; [reflexivity| |assumption..].
  intros E. now rewrite E in Hne.
Qed.

(** ** The sign of a rounded decimal *)

Lemma shr_1_nonneg mrs : (0 <= shr_m mrs)%Z -> (0 <= shr_m (shr_1 mrs))%Z.
Proof.
  destruct mrs as [m r s]. simpl.
  destruct m as [|[p|p|]|[p|p|]]; simpl; lia.
Qed.

Lemma iter_pos_shr_1_nonneg n mrs :
  (0 <= shr_m mrs)%Z -> (0 <= shr_m (SpecFloat.iter_pos shr_1 n mrs))%Z.
Proof.
  revert mrs. induction n as [n IH|n IH|]; simpl; intros mrs H.
  - apply IH, IH. now apply shr_1_nonneg.
  - now apply IH, IH.
  - now apply shr_1_nonneg.
Qed.

Lemma shr_fexp_nonneg m e l :
  (0 <= m)%Z -> (0 <= shr_m (fst (shr_fexp prec emax m e l)))%Z.
Proof.
  intros H. unfold shr_fexp, shr.
  assert (shr_m (shr_record_of_loc m l) = m) as E
    by (destruct l as [|[]]; reflexivity).
  destruct (_ - e)%Z; simpl; rewrite ?E; try exact H.
  apply iter_pos_shr_1_nonneg. now rewrite E.
Qed.

Lemma round_nearest_even_nonneg m l :
  (0 <= m)%Z -> (0 <= round_nearest_even m l)%Z.
Proof.
  intros H. destruct l as [|[]]; simpl; try lia.
  destruct (Z.even m); lia.
Qed.

Lemma binary_round_aux_sign sx mx ex lx :
  (0 <= mx)%Z -> has_sign sx (binary_round_aux prec emax sx mx ex lx).
Proof.
  intros H. unfold binary_round_aux.
  pose proof (shr_fexp_nonneg mx ex lx H) as H1.
  destruct (shr_fexp prec emax mx ex lx) as [mrs' e'].
  simpl in H1.
  pose proof (shr_fexp_nonneg _ e' loc_Exact
                (round_nearest_even_nonneg _ (loc_of_shr_record mrs') H1))
    as H2.
  destruct (shr_fexp prec emax _ e' loc_Exact) as [mrs'' e''].
  simpl in H2.
  destruct (shr_m mrs''); [reflexivity| |lia].
  now destruct (_ <=? _)%Z.
Qed.

Lemma of_decimal_sign neg d e10 : has_sign neg (of_decimal neg d e10).
Proof.
  unfold of_decimal. destruct d as [|p]; [reflexivity|].
  destruct (Z.leb_spec 0 e10) as [He|He].
  - unfold binary_round. destruct (shl_align _ _ _) as [mz ez].
    now apply binary_round_aux_sign.
  - unfold SFdiv_core_binary.
    set (m' := match (_ - _ - _)%Z with
               | Z0 => Z.pos p
               | Z.pos _ => Z.shiftl (Z.pos p) _
               | Z.neg _ => 0%Z
               end).
    assert (0 <= m')%Z as Hm.
    { subst m'. destruct (_ - _ - _)%Z; try lia.
      apply Z.shiftl_nonneg. lia. }
    destruct (Z.div_eucl m' (10 ^ (- e10))) as [q r] eqn:E.
    apply binary_round_aux_sign.
    assert (q = (m' / 10 ^ (- e10))%Z) as -> by (unfold Z.div; now rewrite E).
    apply Z.div_pos; [exact Hm|]. apply Z.pow_pos_nonneg; lia.
Qed.

Lemma has_sign_nonneg x : has_sign false x -> is_nonneg x = true.
Proof. destruct x as [[]|[]| |[] m e]; simpl; intros H; congruence || easy. Qed.

(** ** Ordered dictionaries *)

Lemma odict_get_set_eq {V} k (v : V) d : ODict.get k (ODict.set k v d) = Some v.
Proof.
  induction d as [|[k' v'] d IH]; simpl.
  - now rewrite String.eqb_refl.
  - destruct (String.eqb_spec k' k) as [->|Hne]; simpl.
    + now rewrite String.eqb_refl.
    + destruct (String.eqb_spec k' k); [congruence | exact IH].
Qed.

Lemma odict_get_set_ne {V} k k' (v : V) d :
  k <> k' -> ODict.get k' (ODict.set k v d) = ODict.get k' d.
Proof.
  intros Hne. induction d as [|[k0 v0] d IH]; simpl.
  - destruct (String.eqb_spec k k'); [congruence | reflexivity].
  - destruct (String.eqb_spec k0 k) as [->|H0]; simpl.
    + destruct (String.eqb_spec k k'); [congruence | reflexivity].
    + destruct (String.eqb_spec k0 k'); [reflexivity | exact IH].
Qed.

Lemma odict_keys_set {V} k (v : V) d x :
  In x (ODict.keys (ODict.set k v d)) <-> x = k \/ In x (ODict.keys d).
Proof.
  unfold ODict.keys. induction d as [|[k' v'] d IH]; simpl.
  - intuition.
  - destruct (String.eqb_spec k' k) as [->|Hne]; simpl; intuition.
Qed.

Lemma odict_set_nodup {V} k (v : V) d :
  List.NoDup (ODict.keys d) -> List.NoDup (ODict.keys (ODict.set k v d)).
Proof.
  induction d as [|[k' v'] d IH]; simpl; intros Hd.
  - repeat constructor. intros [].
  - inversion Hd as [|? ? Hnot Hd']; subst.
    destruct (String.eqb_spec k' k) as [->|Hne]; simpl.
    + now constructor.
    + constructor; [|now apply IH].
      fold (ODict.keys (ODict.set k v d)).
      rewrite odict_keys_set. intros [->|H]; [congruence | now apply Hnot].
Qed.

Lemma odict_get_not_in {V} k (d : list (string * V)) :
  ~ In k (ODict.keys d) -> ODict.get k d = None.
Proof.
  induction d as [|[k' v'] d IH]; simpl; [reflexivity|].
  intros H. destruct (String.eqb_spec k' k); [tauto|].
  apply IH. tauto.
Qed.


Lemma town_indices_from_nodup i hs d :
  List.NoDup (ODict.keys d) ->
  List.NoDup (ODict.keys (town_indices_from i hs d)).
Proof.
  revert i d. induction hs as [|h hs IH]; simpl; intros i d Hd; [exact Hd|].
  apply IH. now apply odict_set_nodup.
Qed.

Lemma town_indices_of_nodup headers :
  List.NoDup (ODict.keys (town_indices_of headers)).
Proof. apply town_indices_from_nodup. constructor. Qed.

(** ** One row *)

Lemma py_index_lookup {A} (l : list A) i x :
  l !! i = Some x -> py_index l i = Ok x.
Proof. unfold py_index. now intros ->. Qed.

Lemma py_index_out {A} (l : list A) i :
  length l <= i -> py_index l i = Raise IndexError.
Proof. intros H. unfold py_index. now rewrite lookup_ge_None_2. Qed.

Lemma set_salary_ok position employer v (pd : dataset) by_employer :
  pd !! position = Some by_employer ->
  set_salary position employer v pd
  = Ok (<[position := <[employer := v]> by_employer]> pd).
Proof. unfold set_salary. now intros ->. Qed.

Lemma row_entry_cons employer idx rest row emp :
  row_entry ((employer, idx) :: rest) row emp
  = if String.eqb employer emp then parsed_cell row idx
    else row_entry rest row emp.
Proof. unfold row_entry. simpl. now destruct (String.eqb employer emp). Qed.

Lemma extract_row_ok row position items (pd : dataset) inner0 :
  List.NoDup (ODict.keys items) ->
  row_in_range items row = true ->
  pd !! position = Some inner0 ->
  exists pd' inner',
    extract_row row position items pd = Ok pd'
    /\ pd' !! position = Some inner'
    /\ (forall p, p <> position -> pd' !! p = pd !! p)
    /\ (forall emp,
          inner' !! emp = match row_entry items row emp with
                          | Some v => Some v
                          | None => inner0 !! emp
                          end).
Proof.
  revert pd inner0.
  induction items as [|[employer idx] rest IH]; intros pd inner0 Hnd Hin Hpd.
  - exists pd, inner0. split; [reflexivity|]. split; [exact Hpd|].
    split; [reflexivity|]. intros emp. reflexivity.
  - simpl in Hnd, Hin. inversion Hnd as [|? ? Hnot Hnd']; subst.
    apply andb_true_iff in Hin as [Hidx Hin]. apply Nat.ltb_lt in Hidx.
    destruct (lookup_lt_is_Some_2 row idx Hidx) as [cell Hcell].
    destruct (clean_salary_value_ok cell) as [r Hr].
    assert (exists pd1 inner1,
               extract_row row position ((employer, idx) :: rest) pd
               = extract_row row position rest pd1
               /\ pd1 !! position = Some inner1
               /\ (forall p, p <> position -> pd1 !! p = pd !! p)
               /\ inner1 = match r with
                           | Some v => <[employer := v]> inner0
                           | None => inner0
                           end)
      as (pd1 & inner1 & E & Hpd1 & Hother & Hinner).
    { cbn [extract_row]. rewrite (py_index_lookup _ _ _ Hcell).
      cbn [mbind result_bind]. rewrite Hr. cbn [mbind result_bind].
      destruct r as [v|].
      - rewrite (set_salary_ok _ _ _ _ _ Hpd). cbn [mbind result_bind].
        eexists _, _. split; [reflexivity|].
        split; [apply lookup_insert_eq|].
        split; [|reflexivity].
        intros p Hp. now apply lookup_insert_ne.
      - exists pd, inner0. auto. }
    destruct (IH pd1 inner1 Hnd' Hin Hpd1)
      as (pd' & inner' & E' & Hpd' & Ho' & Hi').
    exists pd', inner'. split; [now rewrite E|].
    split; [exact Hpd'|]. split.
    { intros p Hp. now rewrite Ho', Hother. }
    intros emp. rewrite Hi', row_entry_cons.
    destruct (String.eqb_spec employer emp) as [<-|Hne].
    + unfold row_entry. rewrite (odict_get_not_in _ _ Hnot).
      unfold parsed_cell. rewrite Hcell, Hr, Hinner.
      destruct r as [v|]; [apply lookup_insert_eq | reflexivity].
    + destruct (row_entry rest row emp); [reflexivity|].
      rewrite Hinner. destruct r as [v|]; [|reflexivity].
      now apply lookup_insert_ne.
Qed.

Lemma extract_row_raise row position items (pd : dataset) inner0 :
  row_in_range items row = false ->
  pd !! position = Some inner0 ->
  extract_row row position items pd = Raise IndexError.
Proof.
  revert pd inner0.
  induction items as [|[employer idx] rest IH]; intros pd inner0 Hin Hpd;
    [discriminate|].
  simpl in Hin. cbn [extract_row].
  destruct (Nat.ltb_spec idx (length row)) as [Hidx|Hidx].
  - destruct (lookup_lt_is_Some_2 row idx Hidx) as [cell Hcell].
    destruct (clean_salary_value_ok cell) as [r Hr].
    rewrite (py_index_lookup _ _ _ Hcell). cbn [mbind result_bind].
    rewrite Hr. cbn [mbind result_bind].
    destruct r as [v|].
    + rewrite (set_salary_ok _ _ _ _ _ Hpd). cbn [mbind result_bind].
      eapply IH; [exact Hin | apply lookup_insert_eq].
    + cbn [mbind result_bind]. eapply IH; eassumption.
  - now rewrite py_index_out.
Qed.

Lemma process_row_eq ti (pd : dataset) row :
  process_row ti pd row
  = match kept_position row with
    | Some p => extract_row row p ti (<[p := ∅]> pd)
    | None => Ok pd
    end.
Proof.
  unfold process_row, kept_position.
  destruct (Nat.ltb_spec (length row) 2) as [Hl|Hl]; [reflexivity|].
  destruct row as [|title rest]; [simpl in Hl; lia|].
  cbn [py_index lookup list_lookup mbind result_bind].
  destruct (String.eqb _ ""); [reflexivity|].
  now destruct (bool_decide _).
Qed.

Lemma kept_position_not_inspector row p :
  kept_position row = Some p -> p ∉ inspector_positions.
Proof.
  unfold kept_position. destruct (_ <? _); [discriminate|].
  destruct (row !! 0) as [title|]; [|discriminate].
  destruct (String.eqb _ ""); [discriminate|].
  destruct (bool_decide _) eqn:E; [discriminate|].
  intros [= <-]. now apply bool_decide_eq_false in E.
Qed.


Lemma process_row_kept ti (pd : dataset) row p :
  List.NoDup (ODict.keys ti) ->
  kept_position row = Some p ->
  row_in_range ti row = true ->
  exists pd' inner,
    process_row ti pd row = Ok pd'
    /\ pd' !! p = Some inner
    /\ (forall emp, inner !! emp = row_entry ti row emp)
    /\ (forall q, q <> p -> pd' !! q = pd !! q).
Proof.
  intros Hnd Hk Hin. rewrite process_row_eq, Hk.
  destruct (extract_row_ok row p ti (<[p := ∅]> pd) ∅ Hnd Hin)
    as (pd' & inner & E & Hp & Ho & Hi); [apply lookup_insert_eq|].
  exists pd', inner. split; [exact E|]. split; [exact Hp|]. split.
  - intros emp. rewrite Hi. now destruct (row_entry ti row emp).
  - intros q Hq. rewrite (Ho q Hq). now apply lookup_insert_ne.
Qed.

Lemma process_row_short ti (pd : dataset) row p :
  kept_position row = Some p ->
  row_in_range ti row = false ->
  process_row ti pd row = Raise IndexError.
Proof.
  intros Hk Hin. rewrite process_row_eq, Hk.
  eapply extract_row_raise; [exact Hin | apply lookup_insert_eq].
Qed.

Lemma process_row_skipped ti (pd : dataset) row :
  kept_position row = None -> process_row ti pd row = Ok pd.
Proof. intros Hk. now rewrite process_row_eq, Hk. Qed.

(** A row either leaves the data alone, or files its entries under its
    position, or stops the run with [IndexError]. *)
Lemma process_row_cases ti (pd : dataset) row :
  List.NoDup (ODict.keys ti) ->
  process_row ti pd row = Raise IndexError
  \/ exists pd', process_row ti pd row = Ok pd'
       /\ forall q, kept_position row <> Some q -> pd' !! q = pd !! q.
Proof.
  intros Hnd. destruct (kept_position row) as [p|] eqn:Hk.
  - destruct (row_in_range ti row) eqn:Hin.
    + destruct (process_row_kept ti pd row p Hnd Hk Hin)
        as (pd' & inner & E & _ & _ & Ho).
      right. exists pd'. split; [exact E|].
      intros q Hq. apply Ho. congruence.
    + left. now apply process_row_short with p.
  - right. exists pd. split; [now apply process_row_skipped | reflexivity].
Qed.

(** ** All rows *)

Lemma process_rows_app ti a b (pd : dataset) :
  process_rows ti (a ++ b) pd
  = (pd1 ← process_rows ti a pd; process_rows ti b pd1).
Proof.
  revert pd. induction a as [|row a IH]; intros pd; [reflexivity|].
  cbn [app process_rows].
  destruct (process_row ti pd row) as [pd1|e]; [|reflexivity].
  cbn [mbind result_bind]. apply IH.
Qed.


Lemma process_rows_other ti rows (pd d : dataset) p :
  List.NoDup (ODict.keys ti) ->
  process_rows ti rows pd = Ok d ->
  (forall r, In r rows -> kept_position r <> Some p) ->
  d !! p = pd !! p.
Proof.
  intros Hnd. revert pd. induction rows as [|row rows IH]; intros pd.
  - now intros [= <-].
  - cbn [process_rows]. intros H Hrows.
    destruct (process_row_cases ti pd row Hnd) as [E | (pd' & E & Ho)];
      rewrite E in H; cbn [mbind result_bind] in H; [discriminate|].
    rewrite (IH pd' H) by (intros r Hr; apply Hrows; now right).
    apply Ho, Hrows. now left.
Qed.

Lemma process_rows_last ti pre row post (pd d : dataset) p :
  List.NoDup (ODict.keys ti) ->
  process_rows ti (pre ++ row :: post) pd = Ok d ->
  kept_position row = Some p ->
  (forall r, In r post -> kept_position r <> Some p) ->
  row_in_range ti row = true
  /\ exists inner,
       d !! p = Some inner /\ forall emp, inner !! emp = row_entry ti row emp.
Proof.
  intros Hnd H Hk Hpost. rewrite process_rows_app in H.
  destruct (process_rows ti pre pd) as [pd1|]; [|discriminate].
  cbn [mbind result_bind process_rows] in H.
  destruct (row_in_range ti row) eqn:Hin.
  - split; [reflexivity|].
    destruct (process_row_kept ti pd1 row p Hnd Hk Hin)
      as (pd2 & inner & E & Hp & Hi & _).
    rewrite E in H. cbn [mbind result_bind] in H.
    exists inner. split; [|exact Hi].
    now rewrite (process_rows_other ti post pd2 d p Hnd H Hpost).
  - now rewrite (process_row_short ti pd1 row p Hk Hin) in H.
Qed.

(** Every position of the result is the position of a kept row, or was
    there before. *)
Lemma process_rows_keys ti rows (pd d : dataset) p :
  List.NoDup (ODict.keys ti) ->
  process_rows ti rows pd = Ok d ->
  is_Some (d !! p) ->
  is_Some (pd !! p) \/ exists r, In r rows /\ kept_position r = Some p.
Proof.
  intros Hnd. revert pd. induction rows as [|row rows IH]; intros pd.
  - intros [= <-]. now left.
  - cbn [process_rows]. intros H Hd.
    destruct (process_row_cases ti pd row Hnd) as [E | (pd' & E & Ho)];
      rewrite E in H; cbn [mbind result_bind] in H; [discriminate|].
    destruct (IH pd' H Hd) as [Hp | (r & Hr & Hk)].
    + destruct (decide (kept_position row = Some p)) as [Hk|Hk].
      * right. exists row. split; [now left | exact Hk].
      * left. now rewrite <- (Ho p Hk).
    + right. exists r. split; [now right | exact Hk].
Qed.

(** ** Rounding to nearest *)

Section Rounding.
Local Open Scope Z_scope.

Lemma Zdigits2_bounds p :
  2 ^ (Z.pos (digits2_pos p) - 1) <= Z.pos p < 2 ^ Z.pos (digits2_pos p).
Proof.
  induction p as [p IH|p IH|]; cbn [digits2_pos].
  - rewrite Pos2Z.inj_succ. change (Z.pos p~1) with (2 * Z.pos p + 1).
    replace (Z.succ (Z.pos (digits2_pos p)) - 1)
      with (Z.succ (Z.pos (digits2_pos p) - 1)) by lia.
    rewrite !Z.pow_succ_r by lia.
    set (a := 2 ^ _) in *. set (b := 2 ^ _) in *.
    destruct IH. split; lia.
  - rewrite Pos2Z.inj_succ. change (Z.pos p~0) with (2 * Z.pos p).
    replace (Z.succ (Z.pos (digits2_pos p)) - 1)
      with (Z.succ (Z.pos (digits2_pos p) - 1)) by lia.
    rewrite !Z.pow_succ_r by lia.
    set (a := 2 ^ _) in *. set (b := 2 ^ _) in *.
    destruct IH. split; lia.
  - change (2 ^ 0 <= 1 < 2 ^ 1). lia.
Qed.

Lemma fexp_eq x : fexp prec emax x = Z.max (x - 53) (-1074).
Proof. reflexivity. Qed.

Lemma shr_record_of_loc_m m l : shr_m (shr_record_of_loc m l) = m.
Proof. now destruct l as [|[]]. Qed.

Lemma loc_of_shr_record_of_loc m l :
  loc_of_shr_record (shr_record_of_loc m l) = l.
Proof. now destruct l as [|[]]. Qed.

Ltac loc_cases :=
  unfold location_of in *;
  repeat match goal with
    | |- context [ (?a =? ?b) ] => destruct (Z.eqb_spec a b)
    | H : context [ (?a =? ?b) ] |- _ => destruct (Z.eqb_spec a b)
    | |- context [ (?a ?= ?b) ] => destruct (Z.compare_spec a b)
    | H : context [ (?a ?= ?b) ] |- _ => destruct (Z.compare_spec a b)
    end;
  try discriminate; try (f_equal; lia); try lia.

Lemma shr_1_located T U r :
  located T U (shr_m r) (loc_of_shr_record r) ->
  located T (2 * U) (shr_m (shr_1 r)) (loc_of_shr_record (shr_1 r)).
Proof.
  destruct r as [m b s]. unfold located.
  intros [(Hm & HU & H1 & H2) Hl]. cbn [shr_m] in *.
  destruct m as [|[p|p|]|p]; [| | | |lia].
  - (* zero *)
    cbn [shr_1 shr_m]. split; [lia|].
    destruct b, s; cbn [loc_of_shr_record orb] in *; loc_cases.
  - cbn [shr_1 shr_m]. change (Z.pos p~1) with (2 * Z.pos p + 1) in *.
    set (P := Z.pos p) in *. assert (0 < P) by (unfold P; lia).
    assert ((2 * P + 1) * U = 2 * (P * U) + U) as E1 by ring.
    assert ((2 * P + 1 + 1) * U = 2 * (P * U) + 2 * U) as E2 by ring.
    assert (P * (2 * U) = 2 * (P * U)) as E3 by ring.
    assert ((P + 1) * (2 * U) = 2 * (P * U) + 2 * U) as E4 by ring.
    rewrite E1, E2 in *. rewrite E3, E4.
    split; [lia|].
    destruct b, s; cbn [loc_of_shr_record orb] in *; loc_cases.
  - cbn [shr_1 shr_m]. change (Z.pos p~0) with (2 * Z.pos p) in *.
    set (P := Z.pos p) in *. assert (0 < P) by (unfold P; lia).
    assert (2 * P * U = 2 * (P * U)) as E1 by ring.
    assert ((2 * P + 1) * U = 2 * (P * U) + U) as E2 by ring.
    assert (P * (2 * U) = 2 * (P * U)) as E3 by ring.
    assert ((P + 1) * (2 * U) = 2 * (P * U) + 2 * U) as E4 by ring.
    rewrite E1, E2 in *. rewrite E3, E4.
    split; [lia|].
    destruct b, s; cbn [loc_of_shr_record orb] in *; loc_cases.
  - cbn [shr_1 shr_m]. split; [lia|].
    destruct b, s; cbn [loc_of_shr_record orb] in *; loc_cases.
Qed.

Lemma iter_pos_located T p :
  forall U r,
    located T U (shr_m r) (loc_of_shr_record r) ->
    located T (2 ^ Z.pos p * U)
      (shr_m (SpecFloat.iter_pos shr_1 p r))
      (loc_of_shr_record (SpecFloat.iter_pos shr_1 p r)).
Proof.
  induction p as [p IH|p IH|]; intros U r H; cbn [SpecFloat.iter_pos].
  - apply shr_1_located, IH, IH in H.
    replace (2 ^ Z.pos p~1 * U) with (2 ^ Z.pos p * (2 ^ Z.pos p * (2 * U)));
      [exact H|].
    replace (Z.pos p~1) with (Z.pos p + Z.pos p + 1) by lia.
    rewrite !Z.pow_add_r, Z.pow_1_r by lia. ring.
  - apply IH, IH in H.
    replace (2 ^ Z.pos p~0 * U) with (2 ^ Z.pos p * (2 ^ Z.pos p * U));
      [exact H|].
    replace (Z.pos p~0) with (Z.pos p + Z.pos p) by lia.
    rewrite !Z.pow_add_r by lia. ring.
  - apply shr_1_located in H. now rewrite Z.pow_1_r.
Qed.

Lemma weight_pos d e : 0 < d -> -1074 <= e -> 0 < weight d e.
Proof.
  intros Hd He. unfold weight.
  pose proof (Z.pow_pos_nonneg 2 (e + 1074) ltac:(lia) ltac:(lia)). nia.
Qed.

Lemma weight_shift d e n :
  -1074 <= e -> 0 <= n -> weight d (e + n) = 2 ^ n * weight d e.
Proof.
  intros He Hn. unfold weight.
  replace (e + n + 1074) with (n + (e + 1074)) by lia.
  rewrite Z.pow_add_r by lia. ring.
Qed.

(** The quotients of [T] by [U] and by [2 ^ n * U]. *)
Lemma located_shift T U n m l m' l' :
  0 <= n ->
  located T U m l -> located T (2 ^ n * U) m' l' ->
  m' * 2 ^ n <= m < (m' + 1) * 2 ^ n.
Proof.
  intros Hn [(Hm & HU & H1 & H2) _] [(Hm' & HU' & H1' & H2') _].
  pose proof (Z.pow_pos_nonneg 2 n ltac:(lia) Hn) as Hp.
  split.
  - assert (m' * 2 ^ n < m + 1); [|lia].
    apply (Z.mul_lt_mono_pos_r U); [exact HU|].
    replace (m' * 2 ^ n * U) with (m' * (2 ^ n * U)) by ring. lia.
  - apply (Z.mul_lt_mono_pos_r U); [exact HU|].
    replace ((m' + 1) * 2 ^ n * U) with ((m' + 1) * (2 ^ n * U)) by ring.
    lia.
Qed.

(** The first shift of [binary_round_aux]: when the significand has at
    least the digits the format asks for, the shift leaves a significand
    of 53 bits, or fewer at the least exponent. *)
Lemma shr_fexp_located T d m e l :
  0 < d -> -1074 <= e ->
  located T (weight d e) m l ->
  e <= fexp prec emax (Zdigits2 m + e) ->
  exists r e1,
    shr_fexp prec emax m e l = (r, e1)
    /\ -1074 <= e1
    /\ located T (weight d e1) (shr_m r) (loc_of_shr_record r)
    /\ shr_m r < 2 ^ 53
    /\ (2 ^ 52 <= shr_m r \/ e1 = -1074).
Proof.
  intros Hd He Hloc Hpre. unfold shr_fexp, shr.
  rewrite fexp_eq in *.
  assert (0 <= m) as Hm by (destruct Hloc as [(H & _) _]; exact H).
  assert (m = 0 \/
          (0 < m /\ 2 ^ (Zdigits2 m - 1) <= m < 2 ^ Zdigits2 m
           /\ 0 < Zdigits2 m)) as Hdig.
  { destruct m as [|p|p]; [now left | right | lia].
    split; [lia|]. split; [apply Zdigits2_bounds | simpl; lia]. }
  destruct (Z.max (Zdigits2 m + e - 53) (-1074) - e) as [|n|n] eqn:En;
    [| |lia].
  - exists (shr_record_of_loc m l), e.
    rewrite shr_record_of_loc_m, loc_of_shr_record_of_loc.
    split; [reflexivity|]. split; [exact He|]. split; [exact Hloc|].
    destruct Hdig as [-> | (Hpos & [Hlo Hhi] & Hd0)].
    + simpl in En. split; [lia|]. right. lia.
    + assert (Zdigits2 m <= 53) as Hle by lia.
      split.
      * apply (Z.lt_le_trans _ _ _ Hhi).
        apply Z.pow_le_mono_r; lia.
      * destruct (Z.eq_dec (Zdigits2 m) 53) as [E|E]; [|right; lia].
        left. rewrite E in Hlo. exact Hlo.
  - exists (SpecFloat.iter_pos shr_1 n (shr_record_of_loc m l)), (e + Z.pos n).
    split; [reflexivity|]. split; [lia|].
    assert (located T (weight d (e + Z.pos n))
              (shr_m (SpecFloat.iter_pos shr_1 n (shr_record_of_loc m l)))
              (loc_of_shr_record
                 (SpecFloat.iter_pos shr_1 n (shr_record_of_loc m l))))
      as Hloc'.
    { rewrite weight_shift by lia. apply iter_pos_located.
      now rewrite shr_record_of_loc_m, loc_of_shr_record_of_loc. }
    split; [exact Hloc'|].
    rewrite weight_shift in Hloc' by lia.
    pose proof (located_shift T (weight d e) (Z.pos n) _ _ _ _
                  (Pos2Z.is_nonneg n) Hloc Hloc') as [Hlo' Hhi'].
    set (m' := shr_m _) in *.
    pose proof (Z.pow_pos_nonneg 2 (Z.pos n) ltac:(lia) ltac:(lia)) as Hp.
    destruct Hdig as [-> | (Hpos & [Hlo Hhi] & Hd0)].
    { simpl in En. lia. }
    assert (Zdigits2 m - 53 <= Z.pos n) as Hn by lia.
    split.
    + assert (m < 2 ^ 53 * 2 ^ Z.pos n) as Hm53.
      { apply (Z.lt_le_trans _ _ _ Hhi).
        rewrite <- Z.pow_add_r by lia. apply Z.pow_le_mono_r; lia. }
      apply (Z.mul_lt_mono_pos_r (2 ^ Z.pos n)); [exact Hp | lia].
    + destruct (Z.eq_dec (e + Z.pos n) (-1074)) as [E|E]; [now right|].
      left. assert (Zdigits2 m - 53 = Z.pos n) as En' by lia.
      assert (2 ^ 52 * 2 ^ Z.pos n <= m) as Hm52.
      { rewrite <- Z.pow_add_r by lia.
        replace (52 + Z.pos n) with (Zdigits2 m - 1) by lia. exact Hlo. }
      assert (2 ^ 52 * 2 ^ Z.pos n < (m' + 1) * 2 ^ Z.pos n) as H by lia.
      apply Z.mul_lt_mono_pos_r in H; [lia | exact Hp].
Qed.

(** The second shift of [binary_round_aux]: after rounding, the
    significand has 53 bits or fewer, or is [2 ^ 53]. *)
Lemma shr_fexp_rounded m e :
  0 <= m <= 2 ^ 53 -> -1074 <= e -> 2 ^ 52 <= m \/ e = -1074 ->
  shr_fexp prec emax m e loc_Exact
  = if m =? 2 ^ 53
    then (Build_shr_record (2 ^ 52) false false, e + 1)
    else (Build_shr_record m false false, e).
Proof.
  intros [Hm0 Hm] He Hc. unfold shr_fexp, shr. rewrite fexp_eq.
  destruct (Z.eqb_spec m (2 ^ 53)) as [->|Hne].
  - change (Zdigits2 (2 ^ 53)) with 54.
    replace (Z.max (54 + e - 53) (-1074) - e) with 1 by lia.
    reflexivity.
  - assert (Zdigits2 m <= 53) as Hd.
    { destruct m as [|p|p]; [simpl; lia | | lia].
      pose proof (Zdigits2_bounds p) as [Hlo _]. cbn [Zdigits2].
      destruct (Z.le_gt_cases (Z.pos (digits2_pos p)) 53) as [H|H];
        [exact H|].
      assert (2 ^ 53 <= 2 ^ (Z.pos (digits2_pos p) - 1))
        by (apply Z.pow_le_mono_r; lia).
      lia. }
    destruct (Z.max (Zdigits2 m + e - 53) (-1074) - e) as [|n|n] eqn:En;
      [reflexivity | lia | reflexivity].
Qed.

Lemma round_nearest_even_cases T U m l :
  located T U m l ->
  (round_nearest_even m l = m
   /\ 2 * (T - m * U) <= U
   /\ (2 * (T - m * U) = U -> Z.even m = true))
  \/ (round_nearest_even m l = m + 1
      /\ U <= 2 * (T - m * U)
      /\ (2 * (T - m * U) = U -> Z.even (m + 1) = true)).
Proof.
  intros [(Hm & HU & H1 & H2) ->]. unfold location_of.
  destruct (Z.eqb_spec (T - m * U) 0) as [E|E]; cbn [round_nearest_even].
  - left. split; [reflexivity|]. split; lia.
  - destruct (Z.compare_spec (2 * (T - m * U)) U) as [E2|E2|E2].
    + destruct (Z.even m) eqn:Ev.
      * left. split; [reflexivity|]. split; [lia | auto].
      * right. split; [reflexivity|]. split; [lia|]. intros _.
        rewrite Z.even_add, Ev. reflexivity.
    + left. split; [reflexivity|]. split; lia.
    + right. split; [reflexivity|]. split; lia.
Qed.

(** No binary64 number lies strictly between two consecutive multiples
    of the weight of a normalised significand. *)
Lemma binary64_grid m1 e1 y v :
  binary64_units y = Some v ->
  -1074 <= e1 -> 0 <= m1 < 2 ^ 53 -> 2 ^ 52 <= m1 \/ e1 = -1074 ->
  0 <= v
  /\ (v <= m1 * 2 ^ (e1 + 1074) \/ (m1 + 1) * 2 ^ (e1 + 1074) <= v).
Proof.
  intros Hy He1 [Hm0 Hm] Hc.
  pose proof (Z.pow_pos_nonneg 2 (e1 + 1074) ltac:(lia) ltac:(lia)) as HP.
  destruct y as [s|s| |s m' e']; try discriminate Hy.
  { injection Hy as <-. split; [lia|]. left. nia. }
  cbn [binary64_units] in Hy.
  destruct (Z.ltb_spec (Z.pos m') (2 ^ 53)) as [Hm'|]; [|discriminate Hy].
  destruct (Z.leb_spec (-1074) e') as [He'|]; [|discriminate Hy].
  destruct (Z.leb_spec e' 971) as [He'2|]; [|discriminate Hy].
  cbn [andb] in Hy. injection Hy as <-.
  pose proof (Z.pow_pos_nonneg 2 (e' + 1074) ltac:(lia) ltac:(lia)) as HQ.
  split; [nia|].
  set (P := 2 ^ (e1 + 1074)) in *. set (Q := 2 ^ (e' + 1074)) in *.
  destruct (Z.le_gt_cases e1 e') as [Hle|Hgt].
  - assert (Q = 2 ^ (e' - e1) * P) as EQ.
    { unfold P, Q. rewrite <- Z.pow_add_r by lia. f_equal. lia. }
    pose proof (Z.pow_pos_nonneg 2 (e' - e1) ltac:(lia) ltac:(lia)) as Hk.
    set (k := Z.pos m' * 2 ^ (e' - e1)).
    assert (Z.pos m' * Q = k * P) as -> by (unfold k; rewrite EQ; ring).
    destruct (Z.le_gt_cases k m1) as [H|H].
    + left. now apply Z.mul_le_mono_nonneg_r; [lia|].
    + right. apply Z.mul_le_mono_nonneg_r; lia.
  - left. assert (P = 2 ^ (e1 - e') * Q) as EP.
    { unfold P, Q. rewrite <- Z.pow_add_r by lia. f_equal. lia. }
    assert (2 <= 2 ^ (e1 - e')) as H2.
    { change 2 with (2 ^ 1) at 1. apply Z.pow_le_mono_r; lia. }
    assert (2 ^ 52 <= m1) as Hm1 by lia.
    rewrite EP. nia.
Qed.

Lemma threshold_units n d :
  0 < d ->
  ((2 ^ 1024 - 2 ^ 970) * d <=? n)
  = ((2 ^ 54 - 1) * weight d 970 <=? n * 2 ^ 1074).
Proof.
  intros Hd. unfold weight. change (970 + 1074) with 2044.
  assert ((2 ^ 54 - 1) * (2 ^ 2044 * d)
          = (2 ^ 1024 - 2 ^ 970) * d * 2 ^ 1074) as ->.
  { transitivity ((2 ^ 54 - 1) * 2 ^ 2044 * d); [ring|].
    transitivity ((2 ^ 1024 - 2 ^ 970) * 2 ^ 1074 * d); [|ring].
    f_equal. }
  set (A := (2 ^ 1024 - 2 ^ 970) * d). set (c := 2 ^ 1074).
  assert (0 < c) as Hc by reflexivity.
  destruct (Z.leb_spec A n) as [H|H], (Z.leb_spec (A * c) (n * c)) as [H'|H'];
    try reflexivity; exfalso.
  - apply (Z.mul_le_mono_pos_r _ _ c Hc) in H. lia.
  - apply (Z.mul_lt_mono_pos_r c _ _ Hc) in H. lia.
Qed.

End Rounding.

Section RoundingResult.
Local Open Scope Z_scope.

Lemma weight_le d e e' :
  0 < d -> -1074 <= e -> e <= e' ->
  weight d e' = 2 ^ (e' - e) * weight d e /\ 0 < 2 ^ (e' - e).
Proof.
  intros Hd He Hle. split.
  - replace e' with (e + (e' - e)) at 1 by lia.
    apply weight_shift; lia.
  - apply Z.pow_pos_nonneg; lia.
Qed.

Lemma rounded_result_nearest neg n d m1 e1 l1 :
  0 < d -> 0 <= n -> -1074 <= e1 ->
  located (n * 2 ^ 1074) (weight d e1) m1 l1 ->
  m1 < 2 ^ 53 -> 2 ^ 52 <= m1 \/ e1 = -1074 ->
  rounded_to_binary64 neg n d (rounded_result neg m1 e1 l1).
Proof.
  intros Hd Hn He1 Hloc Hm1 Hc.
  set (T := n * 2 ^ 1074) in *. set (U := weight d e1) in *.
  set (H970 := weight d 970).
  assert (0 < H970) as HH by (apply weight_pos; lia).
  pose proof Hloc as [(Hm0 & HU & HT1 & HT2) _].
  (* the rounded significand *)
  assert (exists m2,
             round_nearest_even m1 l1 = m2
             /\ m1 <= m2 <= m1 + 1
             /\ 2 * Z.abs (T - m2 * U) <= U
             /\ (2 * Z.abs (T - m2 * U) = U -> Z.even m2 = true)
             /\ (m2 = m1 -> 0 <= T - m2 * U)
             /\ (m2 = m1 + 1 -> T - m2 * U < 0))
    as (m2 & Em2 & Hm2 & Hhalf & Htie & Hdown & Hup).
  { destruct (round_nearest_even_cases T U m1 l1 Hloc)
      as [(E & Hle & Hev) | (E & Hge & Hev)]; rewrite E.
    - exists m1. split; [reflexivity|]. split; [lia|].
      split; [lia|]. split; [|split; lia]. intros Ht. apply Hev. lia.
    - exists (m1 + 1). split; [reflexivity|]. split; [lia|].
      replace (T - (m1 + 1) * U) with (T - m1 * U - U) by ring.
      split; [lia|]. split; [|split; lia]. intros Ht. apply Hev. lia. }
  unfold rounded_result. rewrite Em2.
  rewrite shr_fexp_rounded by lia.
  unfold rounded_to_binary64. rewrite (threshold_units n d Hd).
  fold T. fold H970.
  (* the weights around the largest exponent *)
  assert (e1 <= 970 -> U <= H970) as Hlow.
  { intros Hle. destruct (weight_le d e1 970 Hd He1 Hle) as [E Hp].
    fold U H970 in E. nia. }
  assert (971 <= e1 -> 2 * H970 <= U) as Hhigh.
  { intros Hge.
    destruct (weight_le d 970 e1 Hd ltac:(lia) ltac:(lia)) as [E Hp].
    fold U H970 in E.
    assert (2 <= 2 ^ (e1 - 970)).
    { change 2 with (2 ^ 1) at 1. apply Z.pow_le_mono_r; lia. }
    nia. }
  assert (e1 = 971 -> U = 2 * H970) as H971.
  { intros ->. unfold U, H970, weight.
    change (971 + 1074) with (1 + 2044). change (970 + 1074) with 2044.
    rewrite Z.pow_add_r by lia. ring. }
  (* the units of the result and its exponent *)
  set (P := 2 ^ (e1 + 1074)).
  assert (0 < P) as HP by (apply Z.pow_pos_nonneg; lia).
  assert (U = P * d) as EU by reflexivity.
  assert (forall y v,
             binary64_units y = Some v ->
             Z.abs (T - m2 * P * d) <= Z.abs (T - v * d)
             /\ (Z.abs (T - m2 * P * d) = Z.abs (T - v * d) ->
                 v <> m2 * P -> Z.even m2 = true)) as Hnear.
  { intros y v Hy.
    destruct (binary64_grid m1 e1 y v Hy He1 ltac:(lia) Hc) as [Hv0 Hgrid].
    fold P in Hgrid.
    replace (m2 * P * d) with (m2 * U) by (rewrite EU; ring).
    assert (v * d <= m1 * U \/ (m1 + 1) * U <= v * d) as Hvd.
    { rewrite EU. destruct Hgrid as [Hg|Hg]; [left | right].
      - replace (m1 * (P * d)) with (m1 * P * d) by ring.
        apply Z.mul_le_mono_nonneg_r; lia.
      - replace ((m1 + 1) * (P * d)) with ((m1 + 1) * P * d) by ring.
        apply Z.mul_le_mono_nonneg_r; lia. }
    assert (v <> m2 * P -> v * d <> m2 * U) as Hneq.
    { intros Hne E. apply Hne. rewrite EU in E.
      replace (m2 * (P * d)) with (m2 * P * d) in E by ring.
      apply Z.mul_cancel_r in E; lia. }
    assert (m2 = m1 \/ m2 = m1 + 1) as [E|E] by lia.
    - specialize (Hdown E). subst m2. split; [lia|].
      intros Heq Hne. specialize (Hneq Hne). apply Htie. lia.
    - specialize (Hup E). subst m2.
      replace ((m1 + 1) * U) with (m1 * U + U) in * by ring.
      split; [lia|].
      intros Heq Hne. specialize (Hneq Hne). apply Htie. lia. }
  destruct (Z.eqb_spec m2 (2 ^ 53)) as [E53|E53].
  - (* the significand has 54 bits after rounding *)
    cbn [shr_m]. change (2 ^ 52) with (Z.pos (Z.to_pos (2 ^ 52))).
    cbv iota beta.
    assert (m1 = 2 ^ 53 - 1) as Em1 by lia.
    assert (T - m2 * U < 0) as Hneg by (apply Hup; lia).
    destruct (Z.leb_spec (e1 + 1) 971) as [Hfin|Hinf],
             (Z.leb_spec ((2 ^ 54 - 1) * H970) T) as [Hth|Hth].
    + exfalso. specialize (Hlow ltac:(lia)). nia.
    + exists (m2 * P). split; [reflexivity|]. split; [reflexivity|].
      split.
      * cbn [binary64_units].
        destruct (Z.leb_spec (-1074) (e1 + 1)); [|lia].
        destruct (Z.leb_spec (e1 + 1) 971); [|lia].
        cbn [andb Z.ltb]. f_equal. rewrite E53.
        replace (e1 + 1 + 1074) with (1 + (e1 + 1074)) by lia.
        rewrite Z.pow_add_r by lia. fold P.
        change (Z.pos (Z.to_pos (2 ^ 52))) with (2 ^ 52).
        change (2 ^ 53) with (2 ^ 52 * 2 ^ 1). ring.
      * intros y v Hy. destruct (Hnear y v Hy) as [H1 H2].
        split; [exact H1|]. intros. reflexivity.
    + reflexivity.
    + exfalso. specialize (Hhigh ltac:(lia)).
      assert (2 * (m2 * U - T) <= U) by lia. nia.
  - (* no carry *)
    cbn [shr_m].
    destruct m2 as [|p|p]; [| |lia].
    + (* zero *)
      destruct (Z.leb_spec ((2 ^ 54 - 1) * H970) T) as [Hth|Hth].
      * exfalso. assert (m1 = 0) as -> by lia.
        assert (e1 = -1074) as -> by lia.
        specialize (Hlow ltac:(lia)). nia.
      * exists 0. split; [reflexivity|]. split; [reflexivity|].
        split; [reflexivity|]. intros y v Hy.
        destruct (Hnear y v Hy) as [H1 H2].
        split; [exact H1|]. intros. reflexivity.
    + destruct (Z.leb_spec e1 971) as [Hfin|Hinf],
               (Z.leb_spec ((2 ^ 54 - 1) * H970) T) as [Hth|Hth].
      * exfalso.
        assert (Z.pos p <= 2 ^ 53 - 1) as Hp by lia.
        destruct (Z.le_gt_cases e1 970) as [Hle|Hgt].
        -- specialize (Hlow Hle). nia.
        -- specialize (H971 ltac:(lia)).
           destruct (Z.eq_dec (Z.pos p) (2 ^ 53 - 1)) as [Ep|Ep].
           ++ assert (2 * Z.abs (T - Z.pos p * U) = U -> False) as Hno.
              { intros Ht. apply Htie in Ht. rewrite Ep in Ht.
                discriminate Ht. }
              nia.
           ++ nia.
      * exists (Z.pos p * P). split; [reflexivity|].
        split.
        { cbn [normalised]. apply orb_true_iff.
          destruct Hc as [Hc|Hc]; [left | right].
          - apply Z.leb_le. lia.
          - apply Z.eqb_eq. exact Hc. }
        split.
        { cbn [binary64_units].
          destruct (Z.ltb_spec (Z.pos p) (2 ^ 53)); [|lia].
          destruct (Z.leb_spec (-1074) e1); [|lia].
          destruct (Z.leb_spec e1 971); [|lia].
          reflexivity. }
        intros y v Hy. destruct (Hnear y v Hy) as [H1 H2].
        split; [exact H1|]. exact H2.
      * reflexivity.
      * exfalso. specialize (Hhigh ltac:(lia)).
        assert (2 ^ 52 <= m1) as Hm52 by lia.
        assert (m1 * U <= T) by lia.
        assert (2 ^ 52 * (2 * H970) <= m1 * U) by nia.
        assert (e1 = 971 \/ 972 <= e1) as [E|E] by lia; [lia|].
        destruct (weight_le d 970 e1 Hd ltac:(lia) ltac:(lia)) as [EW Hp].
        fold U H970 in EW.
        assert (4 <= 2 ^ (e1 - 970)).
        { change 4 with (2 ^ 2) at 1. apply Z.pow_le_mono_r; lia. }
        nia.
Qed.

End RoundingResult.

Section RoundingDecimal.
Local Open Scope Z_scope.

Lemma binary_round_aux_rounded neg n d mx ex lx :
  0 < d -> 0 <= n -> -1074 <= ex ->
  located (n * 2 ^ 1074) (weight d ex) mx lx ->
  ex <= fexp prec emax (Zdigits2 mx + ex) ->
  rounded_to_binary64 neg n d (binary_round_aux prec emax neg mx ex lx).
Proof.
  intros Hd Hn Hex Hloc Hpre.
  destruct (shr_fexp_located _ d mx ex lx Hd Hex Hloc Hpre)
    as (r & e1 & E & He1 & Hloc' & Hm & Hc).
  unfold binary_round_aux. rewrite E.
  change (rounded_to_binary64 neg n d
            (rounded_result neg (shr_m r) e1 (loc_of_shr_record r))).
  now apply rounded_result_nearest.
Qed.

Lemma Zdigits2_unique m a :
  0 < m -> 2 ^ (a - 1) <= m < 2 ^ a -> Zdigits2 m = a.
Proof.
  intros Hm [Hlo Hhi]. destruct m as [|p|p]; try lia.
  pose proof (Zdigits2_bounds p) as [Hlo' Hhi']. cbn [Zdigits2].
  set (b := Z.pos (digits2_pos p)) in *.
  assert (0 < b) by (unfold b; lia).
  destruct (Z.lt_trichotomy a b) as [H1|[H1|H1]]; [|lia|].
  - assert (2 ^ a <= 2 ^ (b - 1)).
    { destruct (Z.le_gt_cases 0 a).
      - apply Z.pow_le_mono_r; lia.
      - rewrite (Z.pow_neg_r 2 a) by lia.
        apply Z.pow_nonneg. lia. }
    lia.
  - assert (2 ^ b <= 2 ^ (a - 1)) by (apply Z.pow_le_mono_r; lia).
    lia.
Qed.

Lemma pos_iter_xO p n : Z.pos (Pos.iter xO p n) = Z.pos p * 2 ^ Z.pos n.
Proof.
  induction n as [|n IH] using Pos.peano_ind.
  - cbn [Pos.iter]. rewrite Z.pow_1_r. lia.
  - rewrite Pos.iter_succ, Pos2Z.inj_succ, Z.pow_succ_r by lia.
    change (Z.pos (Pos.iter xO p n)~0) with (2 * Z.pos (Pos.iter xO p n)).
    rewrite IH. ring.
Qed.

Lemma located_exact T U m :
  0 <= m -> 0 < U -> T = m * U -> located T U m loc_Exact.
Proof.
  intros Hm HU ->. split; [lia|].
  unfold location_of. now rewrite Z.sub_diag.
Qed.

(** An integer, rounded. *)
Lemma binary_round_rounded neg p :
  rounded_to_binary64 neg (Z.pos p) 1 (binary_round prec emax neg p 0).
Proof.
  unfold binary_round, shl_align.
  rewrite fexp_eq, Z.add_0_r, Z.sub_0_r.
  pose proof (Zdigits2_bounds p) as [Hlo Hhi].
  set (dp := Z.pos (digits2_pos p)) in *.
  assert (0 < dp) as Hdp by (unfold dp; lia).
  destruct (Z.max (dp - 53) (-1074)) as [|f|f] eqn:Ef.
  - apply binary_round_aux_rounded; try lia.
    + apply located_exact; [lia | now apply weight_pos |].
      unfold weight. change (0 + 1074) with 1074. ring.
    + rewrite fexp_eq. cbn [Zdigits2]. fold dp. lia.
  - apply binary_round_aux_rounded; try lia.
    + apply located_exact; [lia | now apply weight_pos |].
      unfold weight. change (0 + 1074) with 1074. ring.
    + rewrite fexp_eq. cbn [Zdigits2]. fold dp. lia.
  - assert (-1074 <= Z.neg f) as Hf by lia.
    apply binary_round_aux_rounded; try lia.
    + apply located_exact; [lia | apply weight_pos; lia |].
      rewrite pos_iter_xO. unfold weight.
      replace 1074 with (Z.pos f + (Z.neg f + 1074)) at 1 by lia.
      rewrite Z.pow_add_r by lia. ring.
    + rewrite fexp_eq.
      rewrite (Zdigits2_unique _ (dp + Z.pos f)).
      * lia.
      * lia.
      * rewrite pos_iter_xO.
        replace (dp + Z.pos f - 1) with (dp - 1 + Z.pos f) by lia.
        rewrite !Z.pow_add_r by lia.
        pose proof (Z.pow_pos_nonneg 2 (Z.pos f) ltac:(lia) ltac:(lia)).
        split; [apply Z.mul_le_mono_nonneg_r | apply Z.mul_lt_mono_pos_r];
          lia.
Qed.

Lemma new_location_spec D r :
  0 <= r < D ->
  new_location D r = location_of r D.
Proof.
  intros [Hr0 Hr]. unfold new_location, location_of.
  destruct (Z.even D) eqn:Ev.
  - reflexivity.
  - unfold new_location_odd. destruct (Z.eqb_spec r 0); [reflexivity|].
    f_equal.
    assert (Z.odd D = true) as Hodd by (now rewrite <- Z.negb_even, Ev).
    apply Z.odd_spec in Hodd as [k Hk].
    destruct (Z.compare_spec (2 * r + 1) D),
             (Z.compare_spec (2 * r) D); try reflexivity; lia.
Qed.

Lemma location_of_scale W r D :
  0 < W -> location_of (W * r) (W * D) = location_of r D.
Proof.
  intros HW. unfold location_of.
  destruct (Z.eqb_spec (W * r) 0) as [E|E], (Z.eqb_spec r 0) as [E'|E'];
    try reflexivity; try nia.
  f_equal.
  destruct (Z.compare_spec (2 * (W * r)) (W * D)),
           (Z.compare_spec (2 * r) D); try reflexivity; nia.
Qed.

(** A quotient, rounded. *)
Lemma div_rounded neg p D :
  0 < D ->
  rounded_to_binary64 neg (Z.pos p) D
    (let '(q, e, l) := SFdiv_core_binary prec emax (Z.pos p) 0 D 0 in
     binary_round_aux prec emax neg q e l).
Proof.
  intros HD. unfold SFdiv_core_binary.
  rewrite fexp_eq, !Z.add_0_r, !Z.sub_0_r. cbn [Zdigits2].
  pose proof (Zdigits2_bounds p) as [Hlo Hhi].
  set (d1 := Z.pos (digits2_pos p)) in *.
  assert (0 < d1) as Hd1 by (unfold d1; lia).
  assert (0 < Zdigits2 D /\ 2 ^ (Zdigits2 D - 1) <= D < 2 ^ Zdigits2 D)
    as (Hd2 & Hlo2 & Hhi2).
  { destruct D as [|D|D]; try lia. cbn [Zdigits2].
    split; [lia | apply Zdigits2_bounds]. }
  set (d2 := Zdigits2 D) in *.
  set (e := Z.min (Z.max (d1 - d2 - 53) (-1074)) 0).
  assert (-1074 <= e <= 0) as [He He0] by (unfold e; lia).
  assert (match 0 - e with
          | 0 => Z.pos p
          | Z.pos _ => Z.shiftl (Z.pos p) (0 - e)
          | Z.neg _ => 0
          end = Z.pos p * 2 ^ (- e)) as ->.
  { replace (0 - e) with (- e) by lia.
    destruct (- e) as [|s|s] eqn:Es; [simpl; lia | | lia].
    rewrite Z.shiftl_mul_pow2 by lia. reflexivity. }
  set (m' := Z.pos p * 2 ^ (- e)).
  pose proof (Z.pow_pos_nonneg 2 (- e) ltac:(lia) ltac:(lia)) as Hs.
  pose proof (Z_div_mod m' D ltac:(lia)) as Hdiv.
  unfold Z.div_eucl in Hdiv |- *. fold (Z.div_eucl m' D) in Hdiv |- *.
  destruct (Z.div_eucl m' D) as [q r]. destruct Hdiv as [Em' Hr].
  assert (0 <= q) as Hq.
  { assert (0 <= m') by (unfold m'; lia).
    destruct (Z.le_gt_cases 0 q); [assumption|]. nia. }
  pose proof (Z.pow_pos_nonneg 2 (e + 1074) ltac:(lia) ltac:(lia)) as HW.
  assert (Z.pos p * 2 ^ 1074 = m' * 2 ^ (e + 1074)) as ET.
  { unfold m'. rewrite <- Z.mul_assoc, <- Z.pow_add_r by lia.
    do 2 f_equal. lia. }
  apply binary_round_aux_rounded; try lia.
  - rewrite (new_location_spec D r Hr). unfold located, weight.
    split.
    + split; [exact Hq|]. split; [nia|]. rewrite ET, Em'. nia.
    + rewrite ET, Em'.
      replace ((D * q + r) * 2 ^ (e + 1074) - q * (2 ^ (e + 1074) * D))
        with (2 ^ (e + 1074) * r) by ring.
      symmetry. now apply location_of_scale.
  - rewrite fexp_eq.
    destruct (Z.eq_dec e (-1074)) as [E|E]; [lia|].
    assert (e <= d1 - d2 - 53) as He1 by (unfold e in *; lia).
    assert (2 ^ 52 <= q) as Hq52.
    { assert (2 ^ 52 * D <= m') as Hm'.
      { unfold m'.
        assert (2 ^ (52 + d2) <= 2 ^ (d1 - 1) * 2 ^ (- e)).
        { rewrite <- Z.pow_add_r by lia. apply Z.pow_le_mono_r; lia. }
        assert (2 ^ (52 + d2) = 2 ^ 52 * 2 ^ d2) as E2
          by (apply Z.pow_add_r; lia).
        assert (2 ^ (d1 - 1) * 2 ^ (- e) <= Z.pos p * 2 ^ (- e))
          by (apply Z.mul_le_mono_nonneg_r; lia).
        assert (2 ^ 52 * D <= 2 ^ 52 * 2 ^ d2)
          by (apply Z.mul_le_mono_nonneg_l; lia).
        lia. }
      destruct (Z.le_gt_cases (2 ^ 52) q) as [H|H]; [exact H|].
      exfalso. assert (q + 1 <= 2 ^ 52) as Hq1 by lia.
      assert ((q + 1) * D <= 2 ^ 52 * D)
        by (apply Z.mul_le_mono_nonneg_r; lia).
      nia. }
    assert (53 <= Zdigits2 q) as Hdq.
    { destruct q as [|q|q]; try lia. cbn [Zdigits2].
      pose proof (Zdigits2_bounds q) as [_ Hhi3].
      destruct (Z.le_gt_cases 53 (Z.pos (digits2_pos q))) as [H|H];
        [exact H|].
      assert (2 ^ Z.pos (digits2_pos q) <= 2 ^ 52)
        by (apply Z.pow_le_mono_r; lia).
      lia. }
    lia.
Qed.

Lemma of_decimal_rounded neg (N : N) (k : nat) :
  rounded_to_binary64 neg (Z.of_N N) (10 ^ Z.of_nat k)
    (of_decimal neg N (- Z.of_nat k)).
Proof.
  assert (0 < 10 ^ Z.of_nat k) as HD by (apply Z.pow_pos_nonneg; lia).
  destruct N as [|p]; cbn [of_decimal Z.of_N].
  - unfold rounded_to_binary64.
    destruct (Z.leb_spec ((2 ^ 1024 - 2 ^ 970) * 10 ^ Z.of_nat k) 0)
      as [H|H]; [exfalso; nia|].
    exists 0. split; [reflexivity|]. split; [reflexivity|].
    split; [reflexivity|]. intros y v Hy.
    split; [|reflexivity]. rewrite Z.mul_0_l. cbn [Z.sub Z.opp Z.add Z.abs].
    apply Z.abs_nonneg.
  - destruct k as [|k].
    + change (- Z.of_nat 0) with 0. change (10 ^ Z.of_nat 0) with 1.
      cbn [Z.leb Z.compare]. change (Z.to_pos (10 ^ 0)) with 1%positive.
      rewrite Pos.mul_1_r. apply binary_round_rounded.
    + destruct (Z.leb_spec 0 (- Z.of_nat (S k))) as [H|H]; [lia|].
      rewrite Z.opp_involutive. now apply div_rounded.
Qed.

End RoundingDecimal.

(** ** The number a currency text denotes *)

Lemma digit_number_code c :
  isdigit c = true -> digit_number c = Z.of_N (code c - 48).
Proof.
  intros H.
  destruct c as [[] [] [] [] [] [] [] []];
    vm_compute in H; try discriminate H; reflexivity.
Qed.

Lemma digits_val_fold ds :
  forall acc,
    all_digits ds = true ->
    Z.of_N (fold_left (fun acc c => (10 * acc + (code c - 48))%N) ds acc)
    = (Z.of_N acc * 10 ^ Z.of_nat (length ds) + decimal_number ds)%Z.
Proof.
  induction ds as [|c t IH]; intros acc H.
  - simpl. lia.
  - cbn [all_digits forallb] in H. apply andb_true_iff in H as [Hc Ht].
    cbn [fold_left decimal_number length]. rewrite (IH _ Ht).
    rewrite N2Z.inj_add, N2Z.inj_mul, <- (digit_number_code c Hc).
    rewrite Nat2Z.inj_succ, Z.pow_succ_r by lia.
    change (Z.of_N 10) with 10%Z. ring.
Qed.

Lemma digits_val_decimal ds :
  all_digits ds = true -> Z.of_N (digits_val ds) = decimal_number ds.
Proof.
  intros H. unfold digits_val. rewrite (digits_val_fold ds 0%N H).
  simpl. lia.
Qed.

Lemma currency_value_rounded neg groups frac :
  well_grouped groups = true -> all_digits (frac_digits frac) = true ->
  rounded_to_binary64 neg
    (decimal_number (concat groups ++ frac_digits frac))
    (10 ^ Z.of_nat (length (frac_digits frac)))
    (currency_value neg groups frac).
Proof.
  intros Hg Hf. unfold currency_value.
  apply andb_true_iff in Hg as [_ Hg].
  pose proof (concat_all_digits _ Hg) as Hd.
  rewrite <- digits_val_decimal.
  - apply of_decimal_rounded.
  - unfold all_digits in *. rewrite forallb_app. now rewrite Hd, Hf.
Qed.

Section RoundingUnique.
Local Open Scope Z_scope.

Lemma binary64_units_finite s m e v :
  binary64_units (S754_finite s m e) = Some v ->
  Z.pos m < 2 ^ 53 /\ -1074 <= e <= 971 /\ v = Z.pos m * 2 ^ (e + 1074).
Proof.
  cbn [binary64_units].
  destruct (Z.ltb_spec (Z.pos m) (2 ^ 53)); [|discriminate].
  destruct (Z.leb_spec (-1074) e); [|discriminate].
  destruct (Z.leb_spec e 971); [|discriminate].
  cbn [andb]. intros [= <-]. auto.
Qed.

(** A normalised binary64 number is given by its sign and its units. *)
Lemma binary64_units_inj s x y u :
  has_sign s x -> has_sign s y ->
  normalised x = true -> normalised y = true ->
  binary64_units x = Some u -> binary64_units y = Some u ->
  x = y.
Proof.
  intros Hsx Hsy Hnx Hny Hx Hy.
  destruct x as [sx|sx| |sx m e]; try discriminate Hx;
    destruct y as [sy|sy| |sy m' e']; try discriminate Hy;
    cbn [has_sign] in Hsx, Hsy; subst sx sy.
  - reflexivity.
  - injection Hx as <-.
    apply binary64_units_finite in Hy as (_ & He & Hv).
    pose proof (Z.pow_pos_nonneg 2 (e' + 1074) ltac:(lia) ltac:(lia)). nia.
  - injection Hy as <-.
    apply binary64_units_finite in Hx as (_ & He & Hv).
    pose proof (Z.pow_pos_nonneg 2 (e + 1074) ltac:(lia) ltac:(lia)). nia.
  - apply binary64_units_finite in Hx as (Hm & He & ->).
    apply binary64_units_finite in Hy as (Hm' & He' & Hv).
    cbn [normalised] in Hnx, Hny.
    apply orb_true_iff in Hnx. apply orb_true_iff in Hny.
    rewrite Z.leb_le, Z.eqb_eq in Hnx, Hny.
    assert (forall m1 e1 m2 e2,
               0 < m1 < 2 ^ 53 -> 2 ^ 52 <= m2 -> -1074 <= e1 < e2 ->
               m1 * 2 ^ (e1 + 1074) = m2 * 2 ^ (e2 + 1074) -> False) as Hlt.
    { intros m1 e1 m2 e2 H1 H2 H12 E.
      replace (e2 + 1074) with (e2 - e1 + (e1 + 1074)) in E by lia.
      rewrite (Z.pow_add_r 2 (e2 - e1) (e1 + 1074)), Z.mul_assoc in E
        by lia.
      apply Z.mul_cancel_r in E;
        [|pose proof (Z.pow_pos_nonneg 2 (e1 + 1074) ltac:(lia) ltac:(lia));
          lia].
      assert (2 <= 2 ^ (e2 - e1)).
      { change 2 with (2 ^ 1) at 1. apply Z.pow_le_mono_r; lia. }
      nia. }
    destruct (Z.lt_trichotomy e e') as [H|[H|H]].
    + exfalso. apply (Hlt (Z.pos m) e (Z.pos m') e'); lia.
    + subst e'. apply Z.mul_cancel_r in Hv;
        [|pose proof (Z.pow_pos_nonneg 2 (e + 1074) ltac:(lia) ltac:(lia));
          lia].
      now injection Hv as ->.
    + exfalso. apply (Hlt (Z.pos m') e' (Z.pos m) e); lia.
Qed.

(** The significand and the exponent of a normalised number, zero
    included. *)
Lemma binary64_normal_form x u :
  normalised x = true -> binary64_units x = Some u ->
  exists m e,
    0 <= m < 2 ^ 53 /\ -1074 <= e <= 971
    /\ (2 ^ 52 <= m \/ e = -1074)
    /\ u = m * 2 ^ (e + 1074)
    /\ even_significand x = Z.even m.
Proof.
  intros Hn Hu. destruct x as [s|s| |s m e]; try discriminate Hu.
  - injection Hu as <-. exists 0, (-1074). repeat split; lia.
  - apply binary64_units_finite in Hu as (Hm & He & ->).
    cbn [normalised] in Hn. apply orb_true_iff in Hn.
    rewrite Z.leb_le, Z.eqb_eq in Hn.
    exists (Z.pos m), e. repeat split; lia.
Qed.

(** Of two binary64 numbers at the same distance from [T / d], one has an
    odd significand. *)
Lemma tie_parity T d x y u v :
  0 < d ->
  normalised x = true -> normalised y = true ->
  binary64_units x = Some u -> binary64_units y = Some v ->
  u < v ->
  T - u * d = v * d - T ->
  (forall z w, binary64_units z = Some w ->
               Z.abs (T - u * d) <= Z.abs (T - w * d)) ->
  even_significand x = true -> even_significand y = true -> False.
Proof.
  intros Hd Hnx Hny Hx Hy Huv Hmid Hnear Hex Hey.
  destruct (binary64_normal_form x u Hnx Hx)
    as (m & e & Hm & He & Hc & Eu & Evx).
  rewrite Evx in Hex.
  assert (m + 1 < 2 ^ 53) as Hm1.
  { destruct (Z.eq_dec (m + 1) (2 ^ 53)) as [E|E]; [|lia].
    replace m with (2 ^ 53 - 1) in Hex by lia. discriminate Hex. }
  set (P := 2 ^ (e + 1074)) in *.
  assert (0 < P) as HP by (apply Z.pow_pos_nonneg; lia).
  (* the next number after [x] *)
  set (z := S754_finite false (Z.to_pos (m + 1)) e).
  assert (binary64_units z = Some ((m + 1) * P)) as Hz.
  { unfold z. cbn [binary64_units]. rewrite Z2Pos.id by lia.
    destruct (Z.ltb_spec (m + 1) (2 ^ 53)); [|lia].
    destruct (Z.leb_spec (-1074) e); [|lia].
    destruct (Z.leb_spec e 971); [|lia]. reflexivity. }
  assert (normalised z = true) as Hnz.
  { unfold z. cbn [normalised]. rewrite Z2Pos.id by lia.
    apply orb_true_iff. rewrite Z.leb_le, Z.eqb_eq. lia. }
  destruct (binary64_grid m e y v Hy ltac:(lia) ltac:(lia) Hc)
    as [_ [Hle|Hge]]; [fold P in Hle; lia | fold P in Hge].
  assert (v = (m + 1) * P) as Ev.
  { destruct (Z.eq_dec v ((m + 1) * P)) as [E|E]; [exact E|].
    exfalso. specialize (Hnear z _ Hz).
    assert (u * d < (m + 1) * P * d < v * d) as [H1 H2].
    { split; apply Z.mul_lt_mono_pos_r; lia. }
    lia. }
  destruct (binary64_normal_form y v Hny Hy)
    as (m' & e' & Hm' & He' & Hc' & Ev' & Evy).
  rewrite Evy in Hey.
  assert (m' = m + 1) as ->.
  { assert (S754_finite false (Z.to_pos m') e' = z) as E.
    { assert (0 < m').
      { destruct (Z.eq_dec m' 0) as [->|]; [|lia].
        rewrite Ev' in Ev. nia. }
      apply (binary64_units_inj false _ _ v); try reflexivity.
      - cbn [normalised]. rewrite Z2Pos.id by lia.
        apply orb_true_iff. rewrite Z.leb_le, Z.eqb_eq. lia.
      - exact Hnz.
      - cbn [binary64_units]. rewrite Z2Pos.id by lia.
        destruct (Z.ltb_spec m' (2 ^ 53)); [|lia].
        destruct (Z.leb_spec (-1074) e'); [|lia].
        destruct (Z.leb_spec e' 971); [|lia]. cbn [andb].
        now rewrite Ev'.
      - now rewrite Hz, Ev. }
    unfold z in E. injection E as E _.
    apply (f_equal Z.pos) in E. rewrite !Z2Pos.id in E by lia. exact E. }
  rewrite Z.even_add, Hex in Hey. discriminate Hey.
Qed.

(** At most one number is [n / d] rounded to binary64. *)
Lemma rounded_to_binary64_unique neg n d x y :
  0 < d ->
  rounded_to_binary64 neg n d x -> rounded_to_binary64 neg n d y -> x = y.
Proof.
  intros Hd. unfold rounded_to_binary64.
  destruct (_ <=? n); [congruence|].
  intros (u & Hsx & Hnx & Hx & Hxn) (v & Hsy & Hny & Hy & Hyn).
  set (T := n * 2 ^ 1074) in *.
  destruct (Hxn y v Hy) as [H1 H1'], (Hyn x u Hx) as [H2 H2'].
  destruct (Z.lt_trichotomy u v) as [Huv|[Huv|Huv]].
  - exfalso. apply (tie_parity T d x y u v); try assumption.
    + assert (u * d < v * d) by (apply Z.mul_lt_mono_pos_r; lia). lia.
    + intros z w Hz. apply (Hxn z w Hz).
    + apply H1'; lia.
    + apply H2'; lia.
  - subst v. now apply (binary64_units_inj neg _ _ u).
  - exfalso. apply (tie_parity T d y x v u); try assumption.
    + assert (v * d < u * d) by (apply Z.mul_lt_mono_pos_r; lia). lia.
    + intros z w Hz. apply (Hyn z w Hz).
    + apply H2'; lia.
    + apply H1'; lia.
Qed.

Lemma decimal_number_nonneg ds : 0 <= decimal_number ds.
Proof.
  induction ds as [|c t IH]; [reflexivity|]. cbn [decimal_number].
  assert (0 <= digit_number c).
  { unfold digit_number. repeat destruct (Ascii.eqb c _); lia. }
  assert (0 <= 10 ^ Z.of_nat (length t)) by (apply Z.pow_nonneg; lia).
  nia.
Qed.

End RoundingUnique.

(** * The claims *)

(** ** Value parsing *)

(** C6. For every cell that is a currency-formatted number (an optional
    minus sign, an optional dollar sign, groups of digits separated by
    commas, an optional point and digits, with white space around it or
    not), [clean_salary_value] returns a number, and it is the number its
    digits denote, the dollar sign and the commas being dropped, rounded
    to binary64: with [n] the integer that all the digits spell and [k] the
    number of digits after the point, the binary64 number nearest to
    [n / 10 ^ k], with the sign of the text, and no other number is that.
    Parsing ["$1,234.50"] yields the [float] 1234.5, which is
    [5429388417957888 * 2 ^ (-42)]. *)
Theorem clean_salary_value_currency :
  (forall (ws1 ws2 : list ascii) (neg dollar : bool)
          (groups : list (list ascii)) (frac : option (list ascii)),
      forallb isspace ws1 = true -> forallb isspace ws2 = true ->
      well_grouped groups = true -> all_digits (frac_digits frac) = true ->
      exists x,
        clean_salary_value
          (to_string (ws1 ++ currency_text neg dollar groups frac ++ ws2))
        = Ok (Some x)
        /\ rounded_to_binary64 neg
             (decimal_number (concat groups ++ frac_digits frac))
             (10 ^ Z.of_nat (length (frac_digits frac))) x
        /\ forall y,
             rounded_to_binary64 neg
               (decimal_number (concat groups ++ frac_digits frac))
               (10 ^ Z.of_nat (length (frac_digits frac))) y ->
             y = x)
  /\ clean_salary_value "$1,234.50"
     = Ok (Some (S754_finite false 5429388417957888 (-42)))
  /\ (5429388417957888 * 100 = 123450 * 2 ^ 42)%Z.
Proof.
  split; [|split; reflexivity].
  intros ws1 ws2 neg dollar groups frac H1 H2 Hg Hf.
  exists (currency_value neg groups frac).
  split; [now apply clean_salary_value_currency_text|].
  pose proof (currency_value_rounded neg groups frac Hg Hf) as Hr.
  split; [exact Hr|]. intros y Hy.
  assert (0 < 10 ^ Z.of_nat (length (frac_digits frac)))%Z as Hd
    by (apply Z.pow_pos_nonneg; lia).
  exact (rounded_to_binary64_unique _ _ _ _ _ Hd Hy Hr).
Qed.

Lemma clean_salary_value_currency_witness :
  forallb isspace (of_string " ") = true
  /\ well_grouped [of_string "1"; of_string "234"] = true
  /\ clean_salary_value " $1,234.50 "
     = Ok (Some (S754_finite false 5429388417957888 (-42)))
  /\ rounded_to_binary64 false 123450 (10 ^ 2)
       (S754_finite false 5429388417957888 (-42)).
Proof.
  split; [reflexivity|]. split; [reflexivity|].
  destruct (proj1 clean_salary_value_currency
              (of_string " ") (of_string " ") false true
              [of_string "1"; of_string "234"] (Some (of_string "50"))
              eq_refl eq_refl eq_refl eq_refl) as (x & Hx & Hr & _).
  assert (x = S754_finite false 5429388417957888 (-42)) as ->
    by (vm_compute in Hx; now injection Hx as <-).
  split; [reflexivity | exact Hr].
Defined.

Lemma drop_while_nil_all p s : drop_while p s = [] -> forallb p s = true.
Proof.
  induction s as [|c s IH]; [reflexivity|]. simpl.
  destruct (p c); [exact IH | discriminate].
Qed.


Lemma search_number_none s :
  search_number s = None <-> no_digit s = true.
Proof.
  split.
  - unfold search_number, no_digit.
    destruct (drop_while _ s) as [|c r] eqn:E.
    + intros _. now apply drop_while_nil_all.
    + destruct (span_digits (c :: r)) as [d1 r1].
      now destruct (starts_with _ r1).
  - intros H. unfold search_number. now rewrite (drop_while_all _ s H).
Qed.

Lemma strip_empty_iff s :
  is_empty (strip s) = true <-> forallb isspace s = true.
Proof.
  split.
  - intros H. unfold strip, rstrip, lstrip in H.
    destruct (rev (drop_while isspace (rev (drop_while isspace s))))
      as [|c r] eqn:E; [|simpl in H; discriminate H].
    apply (f_equal (@rev ascii)) in E. rewrite rev_involutive in E.
    simpl in E. apply drop_while_nil_all in E.
    destruct (drop_while isspace s) as [|c r] eqn:E2;
      [now apply drop_while_nil_all|].
    apply drop_while_head in E2.
    rewrite forallb_forall in E.
    assert (isspace c = true) as Hc
      by (apply E, (proj1 (in_rev (c :: r) c)); now left).
    congruence.
  - intros H. now rewrite (strip_all_space _ H).
Qed.

(** C7. For every blank or white-space-only cell [clean_salary_value]
    returns [None] and does not raise; it raises on no string at all.
    Every failure to parse gives [None]: when the cleaned text contains
    [per] and the regular expression finds no number in it, which is when
    it has no digit, and when it does not contain [per] and [float]
    rejects it. These and the blank cells are the only cells for which
    [None] is returned. *)
Theorem clean_salary_value_never_raises :
  (forall value,
      forallb isspace (of_string value) = true ->
      clean_salary_value value = Ok None)
  /\ (forall value, exists r, clean_salary_value value = Ok r)
  /\ (forall value e,
        is_empty (strip (of_string value)) = false ->
        contains (of_string "per") (lower (cleaned value)) = false ->
        py_float (cleaned value) = Raise e ->
        clean_salary_value value = Ok None)
  /\ (forall value,
        is_empty (strip (of_string value)) = false ->
        contains (of_string "per") (lower (cleaned value)) = true ->
        (no_digit (cleaned value) = true ->
         clean_salary_value value = Ok None)
        /\ (no_digit (cleaned value) = false ->
            exists x, clean_salary_value value = Ok (Some x)))
  /\ (forall value,
        clean_salary_value value = Ok None
        <-> forallb isspace (of_string value) = true
            \/ (contains (of_string "per") (lower (cleaned value)) = true
                /\ no_digit (cleaned value) = true)
            \/ (contains (of_string "per") (lower (cleaned value)) = false
                /\ raises (py_float (cleaned value)))).
Proof.
  split; [exact clean_salary_value_blank|].
  split; [exact clean_salary_value_ok|].
  assert (forall value,
             is_empty (strip (of_string value)) = false ->
             clean_salary_value value
             = if contains (of_string "per") (lower (cleaned value))
               then match search_number (cleaned value) with
                    | Some group1 => x ← py_float group1; Ok (Some x)
                    | None => Ok None
                    end
               else float_or_none (py_float (cleaned value))) as Hdef.
  { intros value Hne. unfold clean_salary_value. fold (cleaned value).
    rewrite Hne. destruct (of_string value); [discriminate Hne|].
    reflexivity. }
  assert (forall value,
             is_empty (strip (of_string value)) = false ->
             contains (of_string "per") (lower (cleaned value)) = true ->
             (no_digit (cleaned value) = true ->
              clean_salary_value value = Ok None)
             /\ (no_digit (cleaned value) = false ->
                 exists x, clean_salary_value value = Ok (Some x)))
    as Hper.
  { intros value Hne Hp. rewrite (Hdef value Hne), Hp. split; intros Hd.
    - now rewrite (proj2 (search_number_none _) Hd).
    - destruct (search_number (cleaned value)) as [m|] eqn:E.
      + destruct (search_number_float _ _ E) as [x ->]. simpl. eauto.
      + apply search_number_none in E. congruence. }
  split; [|split; [exact Hper|]].
  - intros value e Hne Hp Hf. rewrite (Hdef value Hne), Hp, Hf.
    now rewrite (py_float_raises _ _ Hf).
  - intros value.
    destruct (forallb isspace (of_string value)) eqn:Hsp.
    { rewrite (clean_salary_value_blank _ Hsp). split; [now left | easy]. }
    assert (is_empty (strip (of_string value)) = false) as Hne.
    { destruct (is_empty (strip (of_string value))) eqn:E; [|reflexivity].
      apply strip_empty_iff in E. congruence. }
    destruct (contains (of_string "per") (lower (cleaned value))) eqn:Hp.
    + destruct (Hper value Hne Hp) as [H1 H2].
      destruct (no_digit (cleaned value)) eqn:Hd.
      * rewrite (H1 eq_refl). split; [intros _; right; left; easy | easy].
      * destruct (H2 eq_refl) as [x ->]. split; [discriminate|].
        intros [H | [[_ H] | [H _]]]; discriminate H.
    + rewrite (Hdef value Hne), Hp.
      destruct (py_float (cleaned value)) as [x|e] eqn:Hf; simpl.
      * split; [discriminate|].
        intros [H | [[H _] | [_ []]]]; discriminate H.
      * rewrite (py_float_raises _ _ Hf). split; [|easy].
        intros _. right. right. easy.
Qed.

Lemma clean_salary_value_never_raises_witness :
  forallb isspace (of_string "   ") = true
  /\ clean_salary_value "   " = Ok None
  /\ py_float (cleaned "n/a") = Raise ValueError
  /\ clean_salary_value "n/a" = Ok None
  /\ no_digit (cleaned "per diem") = true
  /\ clean_salary_value "per diem" = Ok None.
Proof.
  split; [reflexivity|].
  split;
    [exact (proj1 clean_salary_value_never_raises "   " eq_refl)|].
  split; [reflexivity|].
  split;
    [exact (proj1 (proj2 (proj2 clean_salary_value_never_raises)) "n/a"
              ValueError eq_refl eq_refl eq_refl)|].
  split; [reflexivity|].
  exact (proj1 (proj1 (proj2 (proj2 (proj2 clean_salary_value_never_raises)))
                  "per diem" eq_refl eq_refl) eq_refl).
Defined.

(** ** Loading *)

Lemma load_comparison_rows_ok headers data_rows d town_colors :
  load_comparison_rows (headers :: data_rows) = Ok (d, town_colors) ->
  process_rows (town_indices_of headers) data_rows ∅ = Ok d.
Proof.
  unfold load_comparison_rows. fold (town_indices_of headers).
  destruct (process_rows _ _ _) as [pd|e]; [|discriminate].
  cbn [mbind result_bind]. now intros [= <- _].
Qed.

Lemma load_comparison_data_rows fs csv_file d town_colors :
  load_comparison_data fs csv_file = Ok (d, town_colors) ->
  exists headers data_rows,
    fs csv_file = Some (headers :: data_rows)
    /\ process_rows (town_indices_of headers) data_rows ∅ = Ok d.
Proof.
  unfold load_comparison_data.
  destruct (fs csv_file) as [[|headers data_rows]|]; try discriminate.
  intros H. exists headers, data_rows.
  split; [reflexivity | now apply load_comparison_rows_ok in H].
Qed.

Lemma init_by_employer_empty employers employer l :
  init_by_employer employers !! employer = Some l -> l = [].
Proof.
  unfold init_by_employer.
  assert (forall (d : gmap string (list item)),
             (forall k l, d !! k = Some l -> l = []) ->
             forall k l,
               fold_left (fun d e => <[strip_string e := []]> d) employers d
               !! k = Some l -> l = []) as H.
  { induction employers as [|e es IH]; intros d Hd k l0; simpl.
    - apply Hd.
    - apply IH. intros k' l'.
      destruct (decide (strip_string e = k')) as [<-|Hne].
      + rewrite lookup_insert_eq. now intros [= <-].
      + rewrite lookup_insert_ne by exact Hne. apply Hd. }
  apply H. intros k l0. now rewrite lookup_empty.
Qed.

Lemma survey_loads :
  load_comparison_data survey_fs "survey.csv"
  = Ok (survey_dataset, survey_colors).
Proof. vm_compute. reflexivity. Qed.

(** C8. For every file that has a header row and no data row, loading
    returns and the data it returns is empty: [load_comparison_data]
    returns the empty dataset, [load_dartmouth_data] the empty list, and
    [load_all_employer_data] an empty list for each employer. *)
Theorem header_only_file_loads_empty fs csv_file headers :
  fs csv_file = Some [headers] ->
  load_comparison_data fs csv_file
  = Ok (∅, town_colors_from 0 (employer_headers headers) [])
  /\ load_dartmouth_data fs csv_file = Ok []
  /\ exists by_employer,
       load_all_employer_data fs csv_file = Ok by_employer
       /\ forall employer l, by_employer !! employer = Some l -> l = [].
Proof.
  intros Hfs.
  unfold load_comparison_data, load_dartmouth_data, load_all_employer_data.
  rewrite Hfs. split; [reflexivity|]. split; [reflexivity|].
  eexists. split; [reflexivity|]. apply init_by_employer_empty.
Qed.

Lemma header_only_file_loads_empty_witness :
  one_file "empty.csv" [["POSITION TITLE"; "Employer A"]%string] "empty.csv"
  = Some [["POSITION TITLE"; "Employer A"]%string]
  /\ load_comparison_data
       (one_file "empty.csv" [["POSITION TITLE"; "Employer A"]%string])
       "empty.csv"
     = Ok (∅, [("Employer A"%string, 0)]).
Proof.
  split; [reflexivity|].
  exact (proj1 (header_only_file_loads_empty
                  (one_file "empty.csv"
                     [["POSITION TITLE"; "Employer A"]%string])
                  "empty.csv" ["POSITION TITLE"; "Employer A"]%string
                  eq_refl)).
Defined.

(** C9. A data row whose title, stripped, is one of the three inspector
    titles is skipped without an error, whatever else it holds, and the
    dataset [load_comparison_data] returns has none of the three titles
    as a key. *)
Theorem inspector_positions_excluded :
  (forall town_indices (position_data : dataset) row title,
      row !! 0 = Some title ->
      strip_string title ∈ inspector_positions ->
      process_row town_indices position_data row = Ok position_data)
  /\ (forall fs csv_file d town_colors p,
        load_comparison_data fs csv_file = Ok (d, town_colors) ->
        p ∈ inspector_positions ->
        d !! p = None).
Proof.
  split.
  - intros ti pd row title Hrow Hin. apply process_row_skipped.
    unfold kept_position. rewrite Hrow.
    destruct (_ <? _); [reflexivity|].
    destruct (String.eqb _ ""); [reflexivity|].
    now rewrite bool_decide_eq_true_2.
  - intros fs csv_file d town_colors p Hload Hp.
    destruct (load_comparison_data_rows _ _ _ _ Hload)
      as (headers & data_rows & _ & Hrows).
    destruct (d !! p) as [inner|] eqn:E; [|reflexivity].
    destruct (process_rows_keys _ _ _ _ p (town_indices_of_nodup headers)
                Hrows) as [[x Hx] | (r & _ & Hk)].
    + now rewrite E.
    + now rewrite lookup_empty in Hx.
    + now apply kept_position_not_inspector in Hk.
Qed.

Lemma inspector_positions_excluded_witness :
  load_comparison_data survey_fs "survey.csv"
  = Ok (survey_dataset, survey_colors)
  /\ "Alternate Wire Inspector"%string ∈ inspector_positions
  /\ survey_dataset !! "Alternate Wire Inspector"%string = None.
Proof.
  assert ("Alternate Wire Inspector"%string ∈ inspector_positions) as Hin
    by (unfold inspector_positions; repeat constructor).
  split; [exact survey_loads|]. split; [exact Hin|].
  exact (proj2 inspector_positions_excluded survey_fs "survey.csv"
           survey_dataset survey_colors "Alternate Wire Inspector"%string
           survey_loads Hin).
Defined.

(** C10, as the code has it. When several data rows that the loop does
    not skip have the same position title, the entry of the dataset for
    that title is the one built from the last of them: for every employer
    it holds the value parsed from that row, and nothing from the earlier
    rows. Rows that the loop skips, later ones included, leave the entry as
    it is. *)
Theorem last_row_wins fs csv_file headers pre row post d town_colors p :
  fs csv_file = Some (headers :: pre ++ row :: post) ->
  load_comparison_data fs csv_file = Ok (d, town_colors) ->
  kept_position row = Some p ->
  (forall r, In r post -> kept_position r <> Some p) ->
  is_Some (d !! p)
  /\ forall employer,
       entry d p employer = row_entry (town_indices_of headers) row employer.
Proof.
  intros Hfs Hload Hk Hpost.
  unfold load_comparison_data in Hload. rewrite Hfs in Hload.
  apply load_comparison_rows_ok in Hload.
  destruct (process_rows_last _ _ _ _ _ _ _ (town_indices_of_nodup headers)
              Hload Hk Hpost) as (_ & inner & Hp & Hi).
  unfold entry. rewrite Hp. split; [eauto | exact Hi].
Qed.

Lemma last_row_wins_witness :
  load_comparison_data survey_fs "survey.csv"
  = Ok (survey_dataset, survey_colors)
  /\ kept_position second_clerk_row = Some "Clerk"%string
  /\ entry survey_dataset "Clerk" "Town A" = None
  /\ entry survey_dataset "Clerk" "Town B"
     = Some (S754_finite false 7881299347898368 (-50)).
Proof.
  split; [exact survey_loads|]. split; [reflexivity|].
  assert (forall r, In r [chief_row] ->
                    kept_position r <> Some "Clerk"%string) as Hpost
    by (intros r [<-|[]]; vm_compute; discriminate).
  destruct (last_row_wins survey_fs "survey.csv" survey_headers
              [clerk_row; inspector_row; untitled_row] second_clerk_row
              [chief_row] survey_dataset survey_colors "Clerk"
              eq_refl survey_loads eq_refl Hpost)
    as [_ H].
  rewrite !H. split; reflexivity.
Defined.

(** C10, as stated, fails: the last row with the title [Clerk] has one
    cell, the loop skips it, and the entry keeps the value of the row
    before it. *)
Lemma last_row_skipped_keeps_earlier :
  load_comparison_data (one_file "titles.csv" short_last_rows) "titles.csv"
  = Ok ({[ "Clerk"%string := {[ "Town A"%string := of_decimal false 5 0 ]} ]},
        [("Town A"%string, 0)])
  /\ row_entry (town_indices_of ["POSITION TITLE"; "Town A"]%string)
       ["Clerk"%string] "Town A" = None
  /\ ~ (forall fs csv_file headers pre row post d town_colors title,
          fs csv_file = Some (headers :: pre ++ row :: post) ->
          load_comparison_data fs csv_file = Ok (d, town_colors) ->
          row !! 0 = Some title ->
          (forall r t, In r post -> r !! 0 = Some t ->
                       strip_string t <> strip_string title) ->
          forall employer,
            entry d (strip_string title) employer
            = row_entry (town_indices_of headers) row employer).
Proof.
  assert (load_comparison_data (one_file "titles.csv" short_last_rows)
            "titles.csv"
          = Ok ({[ "Clerk"%string :=
                     {[ "Town A"%string := of_decimal false 5 0 ]} ]},
                [("Town A"%string, 0)])) as Hload
    by (vm_compute; reflexivity).
  split; [exact Hload|]. split; [reflexivity|].
  intros H.
  specialize (H (one_file "titles.csv" short_last_rows) "titles.csv"%string
                ["POSITION TITLE"; "Town A"]%string
                [["Clerk"; "5"]%string] ["Clerk"%string] [] _ _
                "Clerk"%string eq_refl Hload eq_refl
                (fun r t Hin => match Hin with end) "Town A"%string).
  vm_compute in H. discriminate H.
Qed.

(** ** What the dataset holds *)

Lemma last_such {A} (P : A -> Prop) `{forall x, Decision (P x)} (l : list A) :
  (exists x, In x l /\ P x) ->
  exists pre x post,
    l = pre ++ x :: post /\ P x /\ forall y, In y post -> ~ P y.
Proof.
  induction l as [|a l IH]; intros (x & Hx & HP); [destruct Hx|].
  destruct (decide (Exists P l)) as [Hex|Hno].
  - apply Exists_exists in Hex as (y & Hy & HPy).
    destruct IH as (pre & z & post & -> & Hz & Hpost).
    { exists y. split; [now apply list_elem_of_In | exact HPy]. }
    exists (a :: pre), z, post. auto.
  - assert (forall y, In y l -> ~ P y) as Hall.
    { intros y Hy HPy. apply Hno, Exists_exists.
      exists y. split; [now apply list_elem_of_In | exact HPy]. }
    destruct Hx as [<-|Hx]; [|now destruct (Hall x Hx)].
    exists [], a, l. auto.
Qed.

Lemma row_entry_cell ti row employer v :
  row_entry ti row employer = Some v <->
  exists idx cell,
    ODict.get employer ti = Some idx /\ row !! idx = Some cell
    /\ clean_salary_value cell = Ok (Some v).
Proof.
  unfold row_entry, parsed_cell. split.
  - destruct (ODict.get employer ti) as [idx|]; [|discriminate].
    destruct (row !! idx) as [cell|] eqn:Hcell; [|discriminate].
    destruct (clean_salary_value cell) as [[x|]|] eqn:Hclean;
      try discriminate.
    intros [= <-]. exists idx, cell. auto.
  - intros (idx & cell & -> & -> & ->). reflexivity.
Qed.

(** Every entry of the result was parsed from the last kept row with its
    position. *)
Lemma process_rows_entry ti rows (d : dataset) p employer v :
  List.NoDup (ODict.keys ti) ->
  process_rows ti rows ∅ = Ok d ->
  entry d p employer = Some v ->
  exists pre row post,
    rows = pre ++ row :: post /\ kept_position row = Some p
    /\ (forall r, In r post -> kept_position r <> Some p)
    /\ row_entry ti row employer = Some v.
Proof.
  intros Hnd Hrows He. unfold entry in He.
  destruct (d !! p) as [inner|] eqn:Hd; [|discriminate].
  destruct (process_rows_keys ti rows ∅ d p Hnd Hrows) as [[x Hx]|Hex].
  { now rewrite Hd. }
  { now rewrite lookup_empty in Hx. }
  destruct (last_such (fun r => kept_position r = Some p) rows Hex)
    as (pre & row & post & -> & Hk & Hpost).
  exists pre, row, post. split; [reflexivity|]. split; [exact Hk|].
  split; [exact Hpost|].
  destruct (process_rows_last ti pre row post ∅ d p Hnd Hrows Hk Hpost)
    as (_ & inner' & Hd' & Hi).
  rewrite Hd in Hd'. injection Hd' as <-. now rewrite <- Hi.
Qed.

(** On the path of the unit qualifier, the value is that of an unsigned
    numeral. *)
Lemma clean_salary_value_per cell v :
  clean_salary_value cell = Ok (Some v) ->
  contains (of_string "per") (lower (cleaned cell)) = true ->
  has_sign false v.
Proof.
  unfold clean_salary_value. fold (cleaned cell).
  destruct (is_empty _ || is_empty _); [discriminate|].
  intros H Hper. rewrite Hper in H.
  destruct (search_number (cleaned cell)) as [m|] eqn:E; [|discriminate].
  apply search_number_numeral in E as (d1 & frac & -> & Hne & Hd1 & Hd2).
  rewrite py_float_numeral in H by assumption.
  cbn [mbind result_bind] in H. injection H as <-.
  apply of_decimal_sign.
Qed.

(** C4, as the code has it. Every leaf of the dataset that
    [load_comparison_data] returns is a single [float], the one that
    [clean_salary_value] returned for the cell of a kept row with that
    position, in the column of that employer; nothing checks its sign or
    that it is finite. When the cleaned text of that cell contains [per],
    the leaf is not negative and is not a NaN. *)
Theorem leaf_values_as_parsed fs csv_file d town_colors p employer v :
  load_comparison_data fs csv_file = Ok (d, town_colors) ->
  entry d p employer = Some v ->
  exists headers data_rows row idx cell,
    fs csv_file = Some (headers :: data_rows)
    /\ In row data_rows /\ kept_position row = Some p
    /\ ODict.get employer (town_indices_of headers) = Some idx
    /\ row !! idx = Some cell
    /\ clean_salary_value cell = Ok (Some v)
    /\ (contains (of_string "per") (lower (cleaned cell)) = true ->
        has_sign false v /\ is_nonneg v = true).
Proof.
  intros Hload He.
  destruct (load_comparison_data_rows _ _ _ _ Hload)
    as (headers & data_rows & Hfs & Hrows).
  destruct (process_rows_entry _ _ _ _ _ _ (town_indices_of_nodup headers)
              Hrows He) as (pre & row & post & -> & Hk & _ & Hv).
  apply row_entry_cell in Hv as (idx & cell & Hidx & Hcell & Hclean).
  exists headers, (pre ++ row :: post), row, idx, cell.
  repeat (split; [first [assumption | apply in_elt]|]).
  intros Hper. pose proof (clean_salary_value_per _ _ Hclean Hper) as Hs.
  split; [exact Hs | now apply has_sign_nonneg].
Qed.

Lemma leaf_values_as_parsed_witness :
  load_comparison_data survey_fs "survey.csv"
  = Ok (survey_dataset, survey_colors)
  /\ entry survey_dataset "Clerk" "Town B"
     = Some (S754_finite false 7881299347898368 (-50))
  /\ exists headers data_rows row idx cell,
       survey_fs "survey.csv" = Some (headers :: data_rows)
       /\ In row data_rows /\ kept_position row = Some "Clerk"%string
       /\ ODict.get "Town B" (town_indices_of headers) = Some idx
       /\ row !! idx = Some cell
       /\ clean_salary_value cell
          = Ok (Some (S754_finite false 7881299347898368 (-50)))
       /\ (contains (of_string "per") (lower (cleaned cell)) = true ->
           has_sign false (S754_finite false 7881299347898368 (-50))
           /\ is_nonneg (S754_finite false 7881299347898368 (-50)) = true).
Proof.
  split; [exact survey_loads|]. split; [reflexivity|].
  exact (leaf_values_as_parsed survey_fs "survey.csv" survey_dataset
           survey_colors "Clerk" "Town B" _ survey_loads eq_refl).
Defined.

(** C4, as stated, fails: the row [Chief] of the sample survey has the
    cells [-5] and [inf], and the dataset holds a negative number and an
    infinity for it. *)
Lemma leaf_values_not_checked :
  load_comparison_data survey_fs "survey.csv"
  = Ok (survey_dataset, survey_colors)
  /\ entry survey_dataset "Chief" "Town A"
     = Some (S754_finite true 5629499534213120 (-50))
  /\ is_nonneg (S754_finite true 5629499534213120 (-50)) = false
  /\ entry survey_dataset "Chief" "Town B" = Some (S754_infinity false)
  /\ is_finite (S754_infinity false) = false.
Proof.
  split; [exact survey_loads|]. repeat split; reflexivity.
Qed.

Lemma entry_lookup (d : dataset) p inner employer :
  d !! p = Some inner -> entry d p employer = inner !! employer.
Proof. unfold entry. now intros ->. Qed.

Lemma row_entry_parsed ti row employer idx cell v :
  ODict.get employer ti = Some idx -> row !! idx = Some cell ->
  row_entry ti row employer = Some v <-> clean_salary_value cell = Ok (Some v).
Proof.
  intros Hidx Hcell. unfold row_entry, parsed_cell. rewrite Hidx, Hcell.
  destruct (clean_salary_value cell) as [[x|]|]; split;
    (discriminate || now intros [= <-]).
Qed.

(** C5, as the code has it. For every row that the loop does not skip (two
    cells or more, a title that is not blank and is not an inspector's) and
    that has a cell in every employer column, processing the row returns
    and leaves, under the row's position, an entry for an employer with the
    value [v] if and only if [clean_salary_value] returned [v] for the
    row's cell in that employer's column; a cell that is blank or does
    not parse leaves no entry, and no entry is made for a name that is not
    an employer. The dataset that is returned has these entries when no
    later kept row has the same position. *)
Theorem kept_row_entries headers row p :
  kept_position row = Some p ->
  row_in_range (town_indices_of headers) row = true ->
  (forall position_data : dataset,
      exists position_data',
        process_row (town_indices_of headers) position_data row
        = Ok position_data'
        /\ (forall employer idx cell v,
              ODict.get employer (town_indices_of headers) = Some idx ->
              row !! idx = Some cell ->
              entry position_data' p employer = Some v
              <-> clean_salary_value cell = Ok (Some v))
        /\ (forall employer,
              ODict.get employer (town_indices_of headers) = None ->
              entry position_data' p employer = None))
  /\ (forall fs csv_file pre post d town_colors,
        fs csv_file = Some (headers :: pre ++ row :: post) ->
        load_comparison_data fs csv_file = Ok (d, town_colors) ->
        (forall r, In r post -> kept_position r <> Some p) ->
        forall employer idx cell v,
          ODict.get employer (town_indices_of headers) = Some idx ->
          row !! idx = Some cell ->
          entry d p employer = Some v
          <-> clean_salary_value cell = Ok (Some v)).
Proof.
  intros Hk Hin. split.
  - intros pd.
    destruct (process_row_kept _ pd row p (town_indices_of_nodup headers)
                Hk Hin) as (pd' & inner & E & Hp & Hi & _).
    exists pd'. split; [exact E|]. split.
    + intros employer idx cell v Hidx Hcell.
      rewrite (entry_lookup _ _ _ _ Hp), Hi.
      now apply row_entry_parsed with idx.
    + intros employer Hnone.
      rewrite (entry_lookup _ _ _ _ Hp), Hi.
      unfold row_entry. now rewrite Hnone.
  - intros fs csv_file pre post d town_colors Hfs Hload Hpost
      employer idx cell v Hidx Hcell.
    unfold load_comparison_data in Hload. rewrite Hfs in Hload.
    apply load_comparison_rows_ok in Hload.
    destruct (process_rows_last _ _ _ _ _ _ _ (town_indices_of_nodup headers)
                Hload Hk Hpost) as (_ & inner & Hp & Hi).
    rewrite (entry_lookup _ _ _ _ Hp), Hi.
    now apply row_entry_parsed with idx.
Qed.

Lemma kept_row_entries_witness :
  kept_position second_clerk_row = Some "Clerk"%string
  /\ row_in_range (town_indices_of survey_headers) second_clerk_row = true
  /\ (entry survey_dataset "Clerk" "Town B"
      = Some (S754_finite false 7881299347898368 (-50))
      <-> clean_salary_value "7"
          = Ok (Some (S754_finite false 7881299347898368 (-50))))
  /\ (entry survey_dataset "Clerk" "Town A"
      = Some (S754_finite false 7881299347898368 (-50))
      <-> clean_salary_value "n/a"
          = Ok (Some (S754_finite false 7881299347898368 (-50)))).
Proof.
  split; [reflexivity|]. split; [reflexivity|].
  assert (forall r, In r [chief_row] ->
                    kept_position r <> Some "Clerk"%string) as Hpost
    by (intros r [<-|[]]; vm_compute; discriminate).
  pose proof (proj2 (kept_row_entries survey_headers second_clerk_row "Clerk"
                       eq_refl eq_refl)
                survey_fs "survey.csv"
                [clerk_row; inspector_row; untitled_row] [chief_row]
                survey_dataset survey_colors eq_refl survey_loads Hpost)
    as H.
  split.
  - exact (H "Town B"%string 2 "7"%string _ eq_refl eq_refl).
  - exact (H "Town A"%string 1 "n/a"%string _ eq_refl eq_refl).
Defined.

(** C5, as stated, fails: the cell [5] of an inspector's row parses, and
    the dataset has no entry for it. *)
Lemma inspector_cell_not_stored :
  clean_salary_value "5"
  = Ok (Some (S754_finite false 5629499534213120 (-50)))
  /\ load_comparison_data (one_file "inspectors.csv" inspector_rows)
       "inspectors.csv"
     = Ok (∅, [("Town A"%string, 0)])
  /\ entry ∅ "Alternate Wire Inspector" "Town A" = None.
Proof. repeat split; vm_compute; reflexivity. Qed.

(** ** The rows of [load_dartmouth_data] and [load_all_employer_data] *)

(** What one row adds to the list: nothing, or one item. *)
Lemma dartmouth_row_cases data row :
  dartmouth_row data row = Ok data
  /\ ~ (exists title cell v,
           row !! 0 = Some title /\ row !! 1 = Some cell
           /\ strip_string title <> ""%string
           /\ clean_salary_value cell = Ok (Some v))
  \/ exists title cell v,
       row !! 0 = Some title /\ row !! 1 = Some cell
       /\ strip_string title <> ""%string
       /\ clean_salary_value cell = Ok (Some v)
       /\ dartmouth_row data row = Ok (data ++ [Item (strip_string title) v]).
Proof.
  unfold dartmouth_row.
  destruct (Nat.ltb_spec (length row) 2) as [Hl|Hl].
  - left. split; [reflexivity|]. intros (title & cell & v & _ & H1 & _).
    apply lookup_lt_Some in H1. lia.
  - destruct row as [|title [|cell rest]]; simpl in Hl; try lia.
    cbn [py_index lookup list_lookup mbind result_bind].
    destruct (String.eqb_spec (strip_string title) "") as [He|He].
    + left. split; [reflexivity|].
      intros (t & c & v & [= <-] & _ & Hne & _). congruence.
    + destruct (clean_salary_value_ok cell) as [[v|] Hv]; rewrite Hv;
        cbn [mbind result_bind].
      * right. exists title, cell, v. auto 6.
      * left. split; [reflexivity|].
        intros (t & c & v & _ & [= <-] & _ & Hc). congruence.
Qed.

Lemma dartmouth_rows_spec rows data :
  exists new,
    dartmouth_rows rows data = Ok (data ++ new)
    /\ length new <= length rows
    /\ forall it,
         In it new <->
         exists row title cell,
           In row rows /\ row !! 0 = Some title /\ row !! 1 = Some cell
           /\ strip_string title <> ""%string
           /\ position it = strip_string title
           /\ clean_salary_value cell = Ok (Some (salary it)).
Proof.
  revert data. induction rows as [|row rows IH]; intros data.
  - exists []. rewrite app_nil_r. split; [reflexivity|].
    split; [reflexivity|]. intros it. split; [intros []|].
    now intros (row & _ & _ & [] & _).
  - cbn [dartmouth_rows].
    destruct (dartmouth_row_cases data row)
      as [[E Hnot] | (title & cell & v & H0 & H1 & Hne & Hv & E)];
      rewrite E; cbn [mbind result_bind].
    + destruct (IH data) as (new & -> & Hlen & Hin).
      exists new. split; [reflexivity|]. split; [simpl; lia|].
      intros it. rewrite Hin. split.
      * intros (r & t & c & Hr & H). exists r, t, c.
        split; [now right | exact H].
      * intros (r & t & c & [<-|Hr] & H0 & H1 & Hne & Hp & Hv).
        -- destruct Hnot. eauto 8.
        -- exists r, t, c. auto 8.
    + destruct (IH (data ++ [Item (strip_string title) v]))
        as (new & -> & Hlen & Hin).
      exists (Item (strip_string title) v :: new).
      split; [now rewrite <- app_assoc|]. split; [simpl; lia|].
      intros it. split.
      * intros [<-|Hit].
        -- exists row, title, cell. simpl. auto 8.
        -- apply Hin in Hit as (r & t & c & Hr & H).
           exists r, t, c. split; [now right | exact H].
      * intros (r & t & c & [<-|Hr] & H0' & H1' & Hne' & Hp & Hv').
        -- left. rewrite H0 in H0'. rewrite H1 in H1'.
           injection H0' as <-. injection H1' as <-.
           rewrite Hv in Hv'. injection Hv' as Hs.
           destruct it as [p s]. simpl in *. now subst.
        -- right. apply Hin. exists r, t, c. auto 8.
Qed.

Lemma init_by_employer_keys employers k :
  is_Some (init_by_employer employers !! k)
  <-> In k (map strip_string employers).
Proof.
  unfold init_by_employer.
  assert (forall d : gmap string (list item),
             is_Some (fold_left
                        (fun d e => <[strip_string e := []]> d) employers d
                      !! k)
             <-> is_Some (d !! k) \/ In k (map strip_string employers)) as H.
  { induction employers as [|e es IH]; intros d; simpl; [tauto|].
    rewrite IH. destruct (decide (strip_string e = k)) as [<-|Hne].
    - rewrite lookup_insert_eq. split; [auto | intros _; left; eauto].
    - rewrite lookup_insert_ne by exact Hne. tauto. }
  rewrite H, lookup_empty. split; [intros [[x Hx]|Hin] | auto];
    [discriminate | exact Hin].
Qed.

Lemma append_item_keys employer it (d : gmap string (list item)) :
  is_Some (d !! employer) ->
  exists d',
    append_item employer it d = Ok d'
    /\ forall k, is_Some (d' !! k) <-> is_Some (d !! k).
Proof.
  intros [l Hl]. unfold append_item. rewrite Hl.
  eexists. split; [reflexivity|]. intros k.
  destruct (decide (employer = k)) as [<-|Hne].
  - rewrite lookup_insert_eq, Hl. split; eauto.
  - now rewrite lookup_insert_ne.
Qed.

Lemma all_employers_cells_keys i employers row p
  (d : gmap string (list item)) :
  (forall e, In e employers -> is_Some (d !! strip_string e)) ->
  (all_employers_cells i employers row p d = Raise IndexError
   /\ length row < i + 2 + length employers)
  \/ exists d',
       all_employers_cells i employers row p d = Ok d'
       /\ forall k, is_Some (d' !! k) <-> is_Some (d !! k).
Proof.
  revert i d. induction employers as [|e es IH]; intros i d Hkeys.
  - right. exists d. split; [reflexivity | tauto].
  - cbn [all_employers_cells].
    destruct (Nat.ltb_spec (i + 2) (length row)) as [Hl|Hl].
    + destruct (lookup_lt_is_Some_2 row (i + 2) Hl) as [cell Hcell].
      rewrite (py_index_lookup _ _ _ Hcell). cbn [mbind result_bind].
      destruct (clean_salary_value_ok cell) as [sv ->].
      cbn [mbind result_bind].
      assert (exists d1,
                 match sv with
                 | Some v => append_item (strip_string e) (Item p v) d
                 | None => Ok d
                 end = Ok d1
                 /\ forall k, is_Some (d1 !! k) <-> is_Some (d !! k))
        as (d1 & -> & Hd1).
      { destruct sv as [v|]; [|exists d; split; [reflexivity | tauto]].
        apply append_item_keys, Hkeys. now left. }
      cbn [mbind result_bind].
      destruct (IH (S i) d1) as [[E Hlen] | (d' & E & Hd')].
      * intros e' He'. apply Hd1, Hkeys. now right.
      * left. split; [exact E | simpl; lia].
      * right. exists d'. split; [exact E|].
        intros k. now rewrite Hd', Hd1.
    + left. rewrite py_index_out by lia. split; [reflexivity | simpl; lia].
Qed.

Lemma all_employers_rows_keys employers rows (d : gmap string (list item)) :
  (forall e, In e employers -> is_Some (d !! strip_string e)) ->
  (all_employers_rows employers rows d = Raise IndexError
   /\ exists row, In row rows /\ length row < 2 + length employers)
  \/ exists d',
       all_employers_rows employers rows d = Ok d'
       /\ forall k, is_Some (d' !! k) <-> is_Some (d !! k).
Proof.
  revert d. induction rows as [|row rows IH]; intros d Hkeys.
  - right. exists d. split; [reflexivity | tauto].
  - cbn [all_employers_rows].
    assert ((all_employers_row employers d row = Raise IndexError
             /\ length row < 2 + length employers)
            \/ exists d1,
                 all_employers_row employers d row = Ok d1
                 /\ forall k, is_Some (d1 !! k) <-> is_Some (d !! k))
      as [[E Hlen] | (d1 & E & Hd1)].
    { unfold all_employers_row.
      destruct (length row <? 2);
        [right; exists d; split; [reflexivity | tauto]|].
      destruct (py_index row 0) as [title|e] eqn:Et.
      - cbn [mbind result_bind].
        destruct (String.eqb _ "");
          [right; exists d; split; [reflexivity | tauto]|].
        destruct (all_employers_cells_keys 0 employers row
                    (strip_string title) d Hkeys) as [[E Hlen]|H];
          [left; split; [exact E | lia] | now right].
      - unfold py_index in Et. destruct row; [|discriminate Et].
        left. injection Et as <-. split; [reflexivity | simpl; lia]. }
    + left. rewrite E. split; [reflexivity|]. exists row. split;
        [now left | exact Hlen].
    + rewrite E. cbn [mbind result_bind].
      destruct (IH d1) as [[E' (r & Hr & Hlen)] | (d' & E' & Hd')].
      * intros e He. apply Hd1, Hkeys, He.
      * left. split; [exact E'|]. exists r. split; [now right | exact Hlen].
      * right. exists d'. split; [exact E'|].
        intros k. now rewrite Hd', Hd1.
Qed.

Lemma append_item_holds employer it (d d' : gmap string (list item)) :
  append_item employer it d = Ok d' ->
  forall k it',
    holds d' k it' <-> holds d k it' \/ (k = employer /\ it' = it).
Proof.
  unfold append_item. destruct (d !! employer) as [l|] eqn:El;
    [|discriminate]. intros [= <-] k it'. unfold holds.
  destruct (decide (employer = k)) as [<-|Hne].
  - rewrite lookup_insert_eq. split.
    + intros (l' & [= <-] & Hin). apply in_app_or in Hin as [Hin|[<-|[]]];
        [left; eauto | right; auto].
    + intros [(l' & Hl' & Hin) | [_ ->]].
      * rewrite El in Hl'. injection Hl' as <-.
        exists (l ++ [it]). split; [reflexivity|]. apply in_or_app. auto.
      * exists (l ++ [it]). split; [reflexivity|].
        apply in_or_app. right. now left.
  - rewrite lookup_insert_ne by exact Hne. split; [auto|].
    intros [H | [-> _]]; [exact H | congruence].
Qed.

Lemma all_employers_cells_holds i employers row p
  (d d' : gmap string (list item)) :
  all_employers_cells i employers row p d = Ok d' ->
  forall k it,
    holds d' k it
    <-> holds d k it
        \/ exists j employer cell,
             employers !! j = Some employer /\ strip_string employer = k
             /\ row !! (i + j + 2) = Some cell
             /\ position it = p
             /\ clean_salary_value cell = Ok (Some (salary it)).
Proof.
  revert i d. induction employers as [|e es IH]; intros i d.
  - intros [= <-] k it. split; [auto|].
    intros [H | (j & e & c & Hj & _)]; [exact H | discriminate Hj].
  - cbn [all_employers_cells]. unfold py_index.
    destruct (row !! (i + 2)) as [cell|] eqn:Ecell; [|discriminate].
    cbn [mbind result_bind].
    destruct (clean_salary_value_ok cell) as [sv Hsv]. rewrite Hsv.
    cbn [mbind result_bind].
    destruct (match sv with
              | Some v => append_item (strip_string e) (Item p v) d
              | None => Ok d
              end) as [d1|err] eqn:Ed1; [|discriminate].
    cbn [mbind result_bind]. intros Hrest k it.
    rewrite (IH (S i) d1 Hrest k it).
    assert (holds d1 k it
            <-> holds d k it
                \/ (strip_string e = k /\ position it = p
                    /\ clean_salary_value cell = Ok (Some (salary it))))
      as ->.
    { destruct sv as [v|].
      - rewrite (append_item_holds _ _ _ _ Ed1). split.
        + intros [H | [-> ->]]; [now left | right]. simpl. auto.
        + intros [H | (<- & Hp & Hc)]; [now left | right].
          split; [reflexivity|]. rewrite Hsv in Hc. injection Hc as Hs.
          destruct it as [p' s']. simpl in *. now subst.
      - injection Ed1 as <-. split; [auto|].
        intros [H | (_ & _ & Hc)]; [exact H | congruence]. }
    split.
    + intros [[H | (He & Hp & Hc)] | (j & e' & c & Hj & He' & Hc & H)].
      * now left.
      * right. exists 0, e, cell. rewrite Nat.add_0_r. auto.
      * right. exists (S j), e', c. split; [exact Hj|]. split; [exact He'|].
        split; [|exact H]. rewrite <- Hc. f_equal. lia.
    + intros [H | (j & e' & c & Hj & He' & Hc & H)]; [auto|].
      destruct j as [|j].
      * injection Hj as <-. rewrite Nat.add_0_r, Ecell in Hc.
        injection Hc as <-. left. right. tauto.
      * right. exists j, e', c. split; [exact Hj|]. split; [exact He'|].
        split; [|exact H]. rewrite <- Hc. f_equal. lia.
Qed.

Lemma all_employers_row_holds employers row
  (d d' : gmap string (list item)) :
  all_employers_row employers d row = Ok d' ->
  forall k it,
    holds d' k it
    <-> holds d k it
        \/ exists title j employer cell,
             row !! 0 = Some title /\ strip_string title <> ""%string
             /\ employers !! j = Some employer /\ strip_string employer = k
             /\ row !! (j + 2) = Some cell
             /\ position it = strip_string title
             /\ clean_salary_value cell = Ok (Some (salary it)).
Proof.
  unfold all_employers_row.
  destruct (Nat.ltb_spec (length row) 2) as [Hl|Hl].
  - intros [= <-] k it. split; [auto|].
    intros [H | (t & j & e & c & _ & _ & _ & _ & Hc & _)]; [exact H|].
    apply lookup_lt_Some in Hc. lia.
  - destruct row as [|title rest]; [simpl in Hl; lia|].
    cbn [py_index lookup list_lookup mbind result_bind].
    destruct (String.eqb_spec (strip_string title) "") as [He|He].
    + intros [= <-] k it. split; [auto|].
      intros [H | (t & j & e & c & [= <-] & Hne & _)]; [exact H|].
      congruence.
    + intros Hcells k it.
      rewrite (all_employers_cells_holds _ _ _ _ _ _ Hcells k it).
      split; (intros [H|H]; [now left | right]).
      * destruct H as (j & e & c & H). exists title, j, e, c.
        split; [reflexivity|]. split; [exact He|]. exact H.
      * destruct H as (t & j & e & c & [= <-] & _ & H). exists j, e, c.
        exact H.
Qed.

Lemma all_employers_rows_holds employers rows
  (d d' : gmap string (list item)) :
  all_employers_rows employers rows d = Ok d' ->
  forall k it,
    holds d' k it
    <-> holds d k it
        \/ exists row title j employer cell,
             In row rows
             /\ row !! 0 = Some title /\ strip_string title <> ""%string
             /\ employers !! j = Some employer /\ strip_string employer = k
             /\ row !! (j + 2) = Some cell
             /\ position it = strip_string title
             /\ clean_salary_value cell = Ok (Some (salary it)).
Proof.
  revert d. induction rows as [|row rows IH]; intros d.
  - intros [= <-] k it. split; [auto|].
    intros [H | (r & t & j & e & c & [] & _)]. exact H.
  - cbn [all_employers_rows].
    destruct (all_employers_row employers d row) as [d1|err] eqn:Erow;
      [|discriminate].
    cbn [mbind result_bind]. intros Hrest k it.
    rewrite (IH d1 Hrest k it),
      (all_employers_row_holds _ _ _ _ Erow k it).
    split.
    + intros [[H | (t & j & e & c & H)] | (r & t & j & e & c & Hr & H)].
      * now left.
      * right. exists row, t, j, e, c. split; [now left | exact H].
      * right. exists r, t, j, e, c. split; [now right | exact H].
    + intros [H | (r & t & j & e & c & [<-|Hr] & H)].
      * left. now left.
      * left. right. exists t, j, e, c. exact H.
      * right. exists r, t, j, e, c. split; [exact Hr | exact H].
Qed.

Lemma init_by_employer_lookup employers k l :
  init_by_employer employers !! k = Some l -> l = [].
Proof.
  unfold init_by_employer.
  assert (forall d : gmap string (list item),
             (forall l, d !! k = Some l -> l = []) ->
             fold_left (fun d e => <[strip_string e := []]> d) employers d
             !! k = Some l -> l = []) as H.
  { induction employers as [|e es IH]; intros d Hd; simpl;
      [apply Hd|].
    apply IH. intros l'. destruct (decide (strip_string e = k)) as [<-|Hne].
    - rewrite lookup_insert_eq. now intros [= <-].
    - rewrite lookup_insert_ne by exact Hne. apply Hd. }
  apply H. intros l'. now rewrite lookup_empty.
Qed.


Lemma all_employers_cells_same i employers row row' p
  (d : gmap string (list item)) :
  (forall j, j < length employers ->
             row !! (i + j + 2) = row' !! (i + j + 2)) ->
  all_employers_cells i employers row p d
  = all_employers_cells i employers row' p d.
Proof.
  revert i d. induction employers as [|e es IH]; intros i d H;
    [reflexivity|].
  cbn [all_employers_cells]. unfold py_index.
  pose proof (H 0 ltac:(simpl; lia)) as H0.
  rewrite Nat.add_0_r in H0. rewrite <- H0.
  destruct (row !! (i + 2)) as [cell|]; [|reflexivity].
  cbn [mbind result_bind].
  destruct (clean_salary_value cell) as [sv|err]; [|reflexivity].
  cbn [mbind result_bind].
  destruct (match sv with
            | Some v => append_item (strip_string e) (Item p v) d
            | None => Ok d
            end) as [d1|err]; [|reflexivity].
  cbn [mbind result_bind]. apply IH. intros j Hj.
  replace (S i + j + 2) with (i + S j + 2) by lia.
  apply H. simpl. lia.
Qed.

Lemma all_employers_rows_same headers rows rows'
  (d : gmap string (list item)) :
  Forall2 (same_employer_cells headers) rows rows' ->
  all_employers_rows (all_employers headers) rows d
  = all_employers_rows (all_employers headers) rows' d.
Proof.
  intros H. revert d.
  induction H as [|row row' rows rows' (Hlen & Htitle & Hcells) _ IH];
    intros d; [reflexivity|].
  cbn [all_employers_rows].
  assert (all_employers_row (all_employers headers) d row
          = all_employers_row (all_employers headers) d row') as ->.
  { unfold all_employers_row, py_index. rewrite <- Hlen, <- Htitle.
    destruct (length row <? 2); [reflexivity|].
    destruct (row !! 0) as [title|]; [|reflexivity].
    cbn [mbind result_bind].
    destruct (String.eqb _ ""); [reflexivity|].
    apply all_employers_cells_same. intros j Hj.
    replace (0 + j + 2) with (2 + j) by lia. now apply Hcells. }
  destruct (all_employers_row _ d row') as [d1|err]; [|reflexivity].
  cbn [mbind result_bind]. apply IH.
Qed.

(** ** Which columns are read *)

Lemma employer_headers_lookup headers j h :
  employer_headers headers !! j = Some h <->
  headers !! S j = Some h
  /\ (3 < length headers -> S j < length headers - 3).
Proof.
  unfold employer_headers.
  destruct (Nat.ltb_spec 3 (length headers)) as [Hl|Hl];
    rewrite lookup_drop; change (1 + j) with (S j).
  - rewrite lookup_take. destruct (decide (S j < length headers - 3)).
    + tauto.
    + split; [discriminate | tauto].
  - split; [intros H; split; [exact H | lia] | tauto].
Qed.

Lemma all_employers_lookup headers j h :
  all_employers headers !! j = Some h <->
  headers !! (2 + j) = Some h /\ 2 + j < 18.
Proof.
  unfold all_employers. rewrite lookup_drop, lookup_take.
  destruct (decide (2 + j < 18)); [tauto|].
  split; [discriminate | tauto].
Qed.

Lemma town_indices_from_get i hs d k idx :
  ODict.get k (town_indices_from i hs d) = Some idx ->
  ODict.get k d = Some idx
  \/ exists j h, hs !! j = Some h /\ strip_string h = k /\ idx = i + j + 1.
Proof.
  revert i d. induction hs as [|h hs IH]; intros i d; simpl; [now left|].
  intros [H|(j & h' & Hj & Hs & ->)]%IH.
  - destruct (decide (strip_string h = k)) as [Hk|Hk].
    + rewrite Hk, odict_get_set_eq in H. injection H as <-.
      right. exists 0, h. split; [reflexivity|]. split; [exact Hk | lia].
    + rewrite odict_get_set_ne in H by exact Hk. now left.
  - right. exists (S j), h'. split; [exact Hj|]. split; [exact Hs | lia].
Qed.

Lemma town_indices_of_get headers k idx :
  ODict.get k (town_indices_of headers) = Some idx ->
  exists h,
    headers !! idx = Some h /\ strip_string h = k /\ 1 <= idx
    /\ (3 < length headers -> idx < length headers - 3).
Proof.
  intros [H|(j & h & Hj & Hs & ->)]%town_indices_from_get; [discriminate|].
  apply employer_headers_lookup in Hj as [Hj Hpos].
  exists h. replace (0 + j + 1) with (S j) by lia.
  split; [exact Hj|]. split; [exact Hs|]. split; [lia | exact Hpos].
Qed.

Lemma odict_in_get {V} k (v : V) d :
  List.NoDup (ODict.keys d) -> In (k, v) d -> ODict.get k d = Some v.
Proof.
  induction d as [|[k' v'] d IH]; simpl; intros Hnd Hin; [destruct Hin|].
  inversion Hnd as [|? ? Hnot Hnd']; subst.
  destruct Hin as [[= -> ->]|Hin].
  - now rewrite String.eqb_refl.
  - destruct (String.eqb_spec k' k) as [->|Hne]; [|now apply IH].
    destruct Hnot. change k with (fst (k, v)). now apply in_map.
Qed.

Lemma column_read_position headers i :
  column_read headers i = true ->
  exists h,
    headers !! i = Some h /\ 1 <= i
    /\ (3 < length headers -> i < length headers - 3).
Proof.
  unfold column_read, columns_read. intros H%bool_decide_eq_true.
  apply list_elem_of_In, in_map_iff in H as ([k idx] & <- & Hin).
  apply odict_in_get in Hin; [|apply town_indices_of_nodup].
  apply town_indices_of_get in Hin as (h & Hh & _ & H1 & H2).
  exists h. auto.
Qed.

(** C2, as the code has it. The employer columns are chosen by their place
    in the header row, whatever their text. [load_comparison_data] takes
    the headers after the first, without the last three when the row has
    more than three cells: every column it reads is at one of these
    places, and every employer name of its dataset is the stripped text of
    a header at one of them. [load_all_employer_data] takes the headers at
    the places 2 to 17: the keys of the dictionary it returns are exactly
    the stripped texts of these headers, the items of an employer's list
    are exactly those parsed from the cells at the place of a header with
    that stripped text, and the cells at other places than the title's and
    these change nothing in what it returns or raises. *)
Theorem columns_chosen_by_position headers :
  (forall j h,
      employer_headers headers !! j = Some h <->
      headers !! S j = Some h
      /\ (3 < length headers -> S j < length headers - 3))
  /\ (forall j h,
        all_employers headers !! j = Some h <->
        headers !! (2 + j) = Some h /\ 2 + j < 18)
  /\ (forall i,
        column_read headers i = true ->
        exists h,
          headers !! i = Some h /\ 1 <= i
          /\ (3 < length headers -> i < length headers - 3))
  /\ (forall fs csv_file data_rows d town_colors p employer v,
        fs csv_file = Some (headers :: data_rows) ->
        load_comparison_data fs csv_file = Ok (d, town_colors) ->
        entry d p employer = Some v ->
        exists i h,
          headers !! i = Some h /\ strip_string h = employer /\ 1 <= i
          /\ (3 < length headers -> i < length headers - 3))
  /\ (forall fs csv_file data_rows d,
        fs csv_file = Some (headers :: data_rows) ->
        load_all_employer_data fs csv_file = Ok d ->
        (forall k,
            is_Some (d !! k)
            <-> exists j h,
                  headers !! (2 + j) = Some h /\ 2 + j < 18
                  /\ strip_string h = k)
        /\ (forall k it,
              holds d k it
              <-> exists row title j h cell,
                    In row data_rows
                    /\ row !! 0 = Some title
                    /\ strip_string title <> ""%string
                    /\ headers !! (2 + j) = Some h /\ 2 + j < 18
                    /\ strip_string h = k
                    /\ row !! (2 + j) = Some cell
                    /\ position it = strip_string title
                    /\ clean_salary_value cell = Ok (Some (salary it))))
  /\ (forall fs csv_file fs' csv_file' rows rows',
        fs csv_file = Some (headers :: rows) ->
        fs' csv_file' = Some (headers :: rows') ->
        Forall2 (same_employer_cells headers) rows rows' ->
        load_all_employer_data fs csv_file
        = load_all_employer_data fs' csv_file').
Proof.
  split; [apply employer_headers_lookup|].
  split; [apply all_employers_lookup|].
  split; [apply column_read_position|].
  split; [|split].
  - intros fs csv_file data_rows d town_colors p employer v Hfs Hload He.
    unfold load_comparison_data in Hload. rewrite Hfs in Hload.
    apply load_comparison_rows_ok in Hload.
    destruct (process_rows_entry _ _ _ _ _ _ (town_indices_of_nodup headers)
                Hload He) as (pre & row & post & _ & _ & _ & Hv).
    apply row_entry_cell in Hv as (idx & cell & Hidx & _ & _).
    apply town_indices_of_get in Hidx as (h & Hh & Hs & H1 & H2).
    exists idx, h. auto.
  - intros fs csv_file data_rows d Hfs Hload.
    unfold load_all_employer_data in Hload. rewrite Hfs in Hload.
    split.
    + intros k.
      destruct (all_employers_rows_keys (all_employers headers) data_rows
                  (init_by_employer (all_employers headers)))
        as [[E _] | (d' & E & Hd')].
      * intros e He. apply init_by_employer_keys. now apply in_map.
      * congruence.
      * rewrite Hload in E. injection E as <-.
        rewrite Hd', init_by_employer_keys, in_map_iff. split.
        -- intros (h & <- & Hin).
           apply list_elem_of_In, list_elem_of_lookup in Hin as [j Hj].
           apply all_employers_lookup in Hj as [Hj Hlt]. eauto.
        -- intros (j & h & Hj & Hlt & <-). exists h. split; [reflexivity|].
           apply list_elem_of_In, list_elem_of_lookup. exists j.
           now apply all_employers_lookup.
    + intros k it.
      rewrite (all_employers_rows_holds _ _ _ _ Hload k it). split.
      * intros [(l & Hl & Hin) | (row & title & j & h & cell & Hr & Ht
                                  & Hne & Hj & Hk & Hc & H)].
        -- apply init_by_employer_lookup in Hl. subst l. destruct Hin.
        -- apply all_employers_lookup in Hj as [Hj Hlt].
           replace (j + 2) with (2 + j) in Hc by lia.
           exists row, title, j, h, cell. tauto.
      * intros (row & title & j & h & cell & Hr & Ht & Hne & Hj & Hlt & Hk
                & Hc & H).
        right. exists row, title, j, h, cell.
        replace (j + 2) with (2 + j) by lia.
        rewrite all_employers_lookup. tauto.
  - intros fs csv_file fs' csv_file' rows rows' Hfs Hfs' Hsame.
    unfold load_all_employer_data. rewrite Hfs, Hfs'.
    now apply all_employers_rows_same.
Qed.

Lemma columns_chosen_by_position_witness :
  column_read survey_headers 2 = true
  /\ (exists h,
        survey_headers !! 2 = Some h /\ 1 <= 2
        /\ (3 < length survey_headers -> 2 < length survey_headers - 3))
  /\ one_file "towns.csv" twin_rows "towns.csv" = Some twin_rows
  /\ load_all_employer_data (one_file "towns.csv" twin_rows) "towns.csv"
     = Ok twin_data
  /\ (is_Some (twin_data !! "Town A"%string)
      <-> exists j h,
            ["POSITION TITLE"; "Dartmouth"; "Town A"; " Town A"]%string
            !! (2 + j) = Some h
            /\ 2 + j < 18 /\ strip_string h = "Town A"%string).
Proof.
  split; [reflexivity|].
  split;
    [exact (proj1 (proj2 (proj2 (columns_chosen_by_position survey_headers)))
              2 eq_refl)|].
  assert (load_all_employer_data (one_file "towns.csv" twin_rows) "towns.csv"
          = Ok twin_data) as Hload by (vm_compute; reflexivity).
  split; [reflexivity|]. split; [exact Hload|].
  exact (proj1
           (proj1 (proj2 (proj2 (proj2 (proj2
              (columns_chosen_by_position
                 ["POSITION TITLE"; "Dartmouth"; "Town A";
                  " Town A"]%string)))))
              (one_file "towns.csv" twin_rows) "towns.csv"%string
              [ ["Clerk"; "1"; "2"; "3"];
                ["Alternate Wire Inspector"; "4"; "n/a"; "5"] ]%string
              twin_data eq_refl Hload)
           "Town A"%string).
Defined.

(** C2, as stated, fails: no rule on the text of a header decides which
    columns are left out. The header [Town D] is left out of a table of
    five columns, where it is among the last three, and kept in a table of
    three; [Town B] is left out without being a metadata label, and [ERI]
    is kept. *)
Lemma columns_not_chosen_by_header :
  ~ (exists matches : string -> bool,
        forall (headers : list string) i h,
          headers !! i = Some h -> 1 <= i ->
          column_read headers i = false <-> matches h = true)
  /\ column_read
       ["POSITION TITLE"; "Town A"; "Town B"; "Town C"; "Town D"]%string 2
     = false
  /\ column_read ["POSITION TITLE"; "Town A"; "ERI"]%string 2 = true.
Proof.
  split; [|split; reflexivity].
  intros (matches & H).
  pose proof (H ["POSITION TITLE"; "Town A"; "Town B"; "Town C";
                 "Town D"]%string
                4 "Town D"%string eq_refl ltac:(lia)) as H1.
  pose proof (H ["POSITION TITLE"; "Town D"; "ERI"]%string
                1 "Town D"%string eq_refl ltac:(lia)) as H2.
  assert (matches "Town D"%string = true) as Hm by (now apply H1).
  apply H2 in Hm. vm_compute in Hm. discriminate Hm.
Qed.

(** ** Errors of loading *)





(** ** The filter of the charts *)

Section FilterFacts.

Variable sort_by_salary : bool -> list item -> list item.
Hypothesis sort_by_salary_perm :
  forall reverse data, sort_by_salary reverse data ≡ₚ data.

(** What [filter_data_for_visualization] returns has no inspector's
    position, and is made of items of its argument. *)
Lemma filter_data_excludes_inspectors data it :
  In it (filter_data_for_visualization sort_by_salary data) ->
  In it data /\ position it ∉ inspector_positions.
Proof.
  unfold filter_data_for_visualization. intros H.
  apply (Permutation_in _ (sort_by_salary_perm false _)) in H.
  assert (In it (sort_by_salary true
                   (List.filter
                      (fun it => negb (bool_decide
                                         (position it ∈ inspector_positions)))
                      data))) as H'.
  { destruct (_ <? _); [|exact H].
    apply list_elem_of_In. apply list_elem_of_In in H.
    eapply elem_of_sublist; [exact H | apply sublist_drop]. }
  apply (Permutation_in _ (sort_by_salary_perm true _)) in H'.
  apply List.filter_In in H' as [Hin Hp]. split; [exact Hin|].
  apply negb_true_iff in Hp. now apply bool_decide_eq_false in Hp.
Qed.

End FilterFacts.

(** ** Validation *)

Module ValidateFacts.
Import Validate.

Lemma in_concat_map {A B} (f : A -> list B) l x y :
  In x l -> In y (f x) -> In y (concat (map f l)).
Proof.
  intros Hx Hy. apply in_concat. exists (f x).
  split; [now apply in_map | exact Hy].
Qed.

Lemma range_warnings_position position employers employer low high w :
  In (employer, (low, high)) employers ->
  In w (range_warnings position (employer, (low, high))) ->
  In w (position_warnings (position, employers)).
Proof.
  intros Hin Hw. unfold position_warnings. apply in_or_app. right.
  now apply in_concat_map with (employer, (low, high)).
Qed.

Lemma low_exceeds_msg_text position employer :
  in_string "Low value" (low_exceeds_msg position employer) = true
  /\ in_string "exceeds high value" (low_exceeds_msg position employer)
     = true.
Proof. split; reflexivity. Qed.

Lemma negative_msg_text position employer :
  in_string "Negative compensation" (negative_msg position employer) = true.
Proof. reflexivity. Qed.

Lemma no_data_msg_text position :
  in_string "no compensation data" (no_data_msg position) = true.
Proof. reflexivity. Qed.

(** C3. [validate_data] returns, for every dataset, a list of warnings, in
    the order of the dataset: for every entry with [low > high] a warning
    that contains [Low value] and [exceeds high value], for every entry
    with a negative value a warning that contains [Negative compensation],
    and for every position without employers a warning that contains
    [no compensation data]. It has no other outcome, and [process] returns
    the dataset as it is whatever the warnings are. *)
Theorem validate_data_warnings data :
  (forall position employers employer low high,
      In (position, employers) data ->
      In (employer, (low, high)) employers ->
      (SFltb high low = true ->
       In (low_exceeds_msg position employer) (validate_data data)
       /\ in_string "Low value" (low_exceeds_msg position employer) = true
       /\ in_string "exceeds high value"
            (low_exceeds_msg position employer) = true)
      /\ (is_negative low = true \/ is_negative high = true ->
          In (negative_msg position employer) (validate_data data)
          /\ in_string "Negative compensation"
               (negative_msg position employer) = true))
  /\ (forall position,
        In (position, []) data ->
        In (no_data_msg position) (validate_data data)
        /\ in_string "no compensation data" (no_data_msg position) = true)
  /\ (forall data',
        validate_data (data ++ data')
        = validate_data data ++ validate_data data')
  /\ (forall validate, fst (process_validation validate data) = data)
  /\ snd (process_validation false data) = [].
Proof.
  split; [|split; [|split; [|split; [reflexivity | reflexivity]]]].
  - intros position employers employer low high Hp He. split.
    + intros Hlt. split; [|apply low_exceeds_msg_text].
      apply in_concat_map with (position, employers); [exact Hp|].
      apply range_warnings_position with employer low high; [exact He|].
      unfold range_warnings. rewrite Hlt.
      apply in_or_app. right. apply in_or_app. right. now left.
    + intros Hneg. split; [|apply negative_msg_text].
      apply in_concat_map with (position, employers); [exact Hp|].
      apply range_warnings_position with employer low high; [exact He|].
      unfold range_warnings. apply in_or_app.
      destruct Hneg as [-> | ->]; [left; now left|].
      right. apply in_or_app. left. now left.
  - intros position Hp. split; [|apply no_data_msg_text].
    apply in_concat_map with (position, []); [exact Hp|]. now left.
  - intros data'. unfold validate_data. now rewrite map_app, concat_app.
Qed.

(** The data of [test_validate_valid_data] has no warning. *)
Example validate_valid_data : validate_data sample_compensation_data = [].
Proof. reflexivity. Qed.

Lemma validate_data_warnings_witness :
  SFltb eighty hundred = true
  /\ validate_data inverted_data
     = ["Low value exceeds high value: Position A / Employer A"%string]
  /\ In (low_exceeds_msg "Position A" "Employer A")
       (validate_data inverted_data)
  /\ is_negative minus_ten = true
  /\ In (negative_msg "Position A" "Employer A")
       (validate_data negative_data)
  /\ In (no_data_msg "Position A") (validate_data empty_position_data).
Proof.
  split; [reflexivity|]. split; [reflexivity|].
  split;
    [exact (proj1 (proj1 (proj1 (validate_data_warnings inverted_data)
                            "Position A"%string _ "Employer A"%string
                            hundred eighty
                            (or_introl eq_refl) (or_introl eq_refl))
                     eq_refl))|].
  split; [reflexivity|].
  split;
    [exact (proj1 (proj2 (proj1 (validate_data_warnings negative_data)
                            "Position A"%string _ "Employer A"%string
                            minus_ten eighty
                            (or_introl eq_refl) (or_introl eq_refl))
                     (or_introl eq_refl)))|].
  exact (proj1 (proj1 (proj2 (validate_data_warnings empty_position_data))
                  "Position A"%string (or_introl eq_refl))).
Defined.

End ValidateFacts.

(** * Further properties of the loaders *)

(** ** Which runs return *)

Lemma is_kept_position row :
  is_kept row = true <-> exists p, kept_position row = Some p.
Proof.
  unfold is_kept. destruct (kept_position row) as [p|].
  - split; [eauto | reflexivity].
  - split; [discriminate | now intros [p Hp]].
Qed.

Lemma process_rows_in_range ti rows (pd : dataset) :
  List.NoDup (ODict.keys ti) ->
  rows_in_range ti rows = true ->
  exists d, process_rows ti rows pd = Ok d.
Proof.
  intros Hnd. revert pd. induction rows as [|row rows IH]; intros pd Hin.
  - now exists pd.
  - simpl in Hin. apply andb_true_iff in Hin as [Hrow Hrows].
    cbn [process_rows]. unfold is_kept in Hrow.
    destruct (kept_position row) as [p|] eqn:Hk.
    + simpl in Hrow.
      destruct (process_row_kept ti pd row p Hnd Hk Hrow)
        as (pd' & _ & -> & _).
      cbn [mbind result_bind]. now apply IH.
    + rewrite (process_row_skipped ti pd row Hk).
      cbn [mbind result_bind]. now apply IH.
Qed.

Lemma process_rows_out_of_range ti rows (pd : dataset) :
  List.NoDup (ODict.keys ti) ->
  rows_in_range ti rows = false ->
  process_rows ti rows pd = Raise IndexError.
Proof.
  intros Hnd. revert pd. induction rows as [|row rows IH]; intros pd Hin;
    [discriminate|].
  simpl in Hin. cbn [process_rows]. unfold is_kept in Hin.
  destruct (kept_position row) as [p|] eqn:Hk.
  - simpl in Hin. destruct (row_in_range ti row) eqn:Hrow.
    + destruct (process_row_kept ti pd row p Hnd Hk Hrow)
        as (pd' & _ & -> & _).
      cbn [mbind result_bind]. now apply IH.
    + now rewrite (process_row_short ti pd row p Hk Hrow).
  - rewrite (process_row_skipped ti pd row Hk).
    cbn [mbind result_bind]. now apply IH.
Qed.

(** X1. For a file with a header row, [load_comparison_data] returns a
    dataset exactly when every row that the loop keeps has a cell at
    every employer column; when one such row is too short the run ends
    with [IndexError], and the rows before it do not change that. *)
Theorem load_comparison_rows_outcome headers data_rows :
  (rows_in_range (town_indices_of headers) data_rows = true ->
   exists d,
     load_comparison_rows (headers :: data_rows)
     = Ok (d, town_colors_from 0 (employer_headers headers) []))
  /\ (rows_in_range (town_indices_of headers) data_rows = false ->
      load_comparison_rows (headers :: data_rows) = Raise IndexError).
Proof.
  unfold load_comparison_rows. fold (town_indices_of headers). split.
  - intros Hin.
    destruct (process_rows_in_range _ data_rows ∅
                (town_indices_of_nodup headers) Hin) as [d ->].
    now exists d.
  - intros Hin.
    now rewrite (process_rows_out_of_range _ data_rows ∅
                   (town_indices_of_nodup headers) Hin).
Qed.

Lemma load_comparison_rows_outcome_witness :
  rows_in_range (town_indices_of survey_headers)
    [clerk_row; inspector_row; untitled_row; second_clerk_row; chief_row]
  = true
  /\ rows_in_range (town_indices_of survey_headers)
       [clerk_row; ["Chief"; "5"]%string] = false
  /\ load_comparison_rows
       (survey_headers :: [clerk_row; ["Chief"; "5"]%string])
     = Raise IndexError.
Proof.
  split; [reflexivity|]. split; [reflexivity|].
  exact (proj2 (load_comparison_rows_outcome survey_headers
                  [clerk_row; ["Chief"; "5"]%string]) eq_refl).
Defined.

Lemma town_indices_of_bound headers item :
  In item (town_indices_of headers) -> snd item < length headers.
Proof.
  destruct item as [k idx]. intros Hin.
  apply odict_in_get in Hin; [|apply town_indices_of_nodup].
  apply town_indices_of_get in Hin as (h & Hh & _).
  simpl. now apply lookup_lt_Some in Hh.
Qed.

Lemma row_in_range_long headers row :
  length headers <= length row ->
  row_in_range (town_indices_of headers) row = true.
Proof.
  intros Hlen. unfold row_in_range. apply forallb_forall.
  intros item Hin. apply Nat.ltb_lt.
  pose proof (town_indices_of_bound headers item Hin). lia.
Qed.

(** X2. A table whose rows are all at least as long as its header row
    loads without an error: [load_comparison_data] returns a dataset. *)
Theorem rectangular_table_loads fs csv_file headers data_rows :
  fs csv_file = Some (headers :: data_rows) ->
  (forall row, In row data_rows -> length headers <= length row) ->
  exists d town_colors,
    load_comparison_data fs csv_file = Ok (d, town_colors).
Proof.
  intros Hfs Hlen. unfold load_comparison_data. rewrite Hfs.
  destruct (proj1 (load_comparison_rows_outcome headers data_rows))
    as [d Hd]; [|eauto].
  apply forallb_forall. intros row Hrow.
  rewrite (row_in_range_long headers row (Hlen row Hrow)).
  apply orb_true_r.
Qed.

Lemma rectangular_table_loads_witness :
  survey_fs "survey.csv"
  = Some (survey_headers
          :: [clerk_row; inspector_row; untitled_row; second_clerk_row;
              chief_row])
  /\ exists d town_colors,
       load_comparison_data survey_fs "survey.csv" = Ok (d, town_colors).
Proof.
  split; [reflexivity|].
  apply (rectangular_table_loads survey_fs "survey.csv" survey_headers
           [clerk_row; inspector_row; untitled_row; second_clerk_row;
            chief_row] eq_refl).
  intros row Hrow. simpl in Hrow.
  repeat (destruct Hrow as [<-|Hrow]; [simpl; lia|]). destruct Hrow.
Defined.

(** ** The positions of the dataset *)

Lemma drop_while_decompose p s :
  exists ws, s = ws ++ drop_while p s /\ forallb p ws = true.
Proof.
  induction s as [|c s (ws & Hs & Hws)]; [now exists []|].
  simpl. destruct (p c) eqn:Hc.
  - exists (c :: ws). simpl. rewrite Hc, Hws. now rewrite <- Hs.
  - now exists [].
Qed.

(** What [strip] returns is empty or begins and ends with characters that
    are not white space. *)
Lemma strip_result s : strip s = [] \/ bounded_by isspace (strip s).
Proof.
  unfold strip, rstrip, lstrip.
  destruct (drop_while isspace (rev (drop_while isspace s)))
    as [|c t] eqn:E; [now left|]. right.
  pose proof (drop_while_head _ _ _ _ E) as Hc.
  destruct (drop_while_decompose isspace (rev (drop_while isspace s)))
    as (ws & Hs & Hws).
  rewrite E in Hs.
  assert (drop_while isspace s = rev t ++ c :: rev ws) as Hd.
  { rewrite <- (rev_involutive (drop_while isspace s)), Hs.
    rewrite rev_app_distr. simpl. now rewrite <- app_assoc. }
  change (rev (c :: t)) with (rev t ++ [c]).
  assert (forall d, isspace (List.last (rev t ++ [c]) d) = false) as Hlast
    by (intros d; now rewrite last_last).
  destruct (rev t) as [|a l] eqn:Ht.
  - exists c, []. auto.
  - exists a, (l ++ [c]). split; [reflexivity|]. split; [|apply Hlast].
    destruct (drop_while isspace s) as [|a' l'] eqn:Es; [discriminate|].
    apply drop_while_head in Es. simpl in Hd. now injection Hd as -> _.
Qed.

Lemma strip_idempotent s : strip (strip s) = strip s.
Proof.
  destruct (strip_result s) as [-> | H]; [reflexivity|].
  now apply strip_bounded.
Qed.

Lemma strip_string_idempotent s :
  strip_string (strip_string s) = strip_string s.
Proof.
  unfold strip_string. now rewrite of_to_string, strip_idempotent.
Qed.

Lemma kept_position_title row p :
  kept_position row = Some p ->
  exists title,
    row !! 0 = Some title /\ p = strip_string title /\ 2 <= length row
    /\ p <> ""%string /\ p ∉ inspector_positions.
Proof.
  intros Hk. pose proof (kept_position_not_inspector row p Hk) as Hi.
  unfold kept_position in Hk.
  destruct (Nat.ltb_spec (length row) 2); [discriminate|].
  destruct (row !! 0) as [title|]; [|discriminate].
  destruct (String.eqb_spec (strip_string title) ""); [discriminate|].
  destruct (bool_decide _); [discriminate|]. injection Hk as <-.
  exists title. auto.
Qed.

(** X3. The keys of the dataset that [load_comparison_data] returns are
    the positions of the rows the loop keeps, no more and no fewer: a kept
    row gives a key even when none of its cells parses. Every key is
    stripped of white space, not empty, and not an inspector title. *)
Theorem dataset_positions fs csv_file headers data_rows d town_colors p :
  fs csv_file = Some (headers :: data_rows) ->
  load_comparison_data fs csv_file = Ok (d, town_colors) ->
  (is_Some (d !! p) <->
   exists row, In row data_rows /\ kept_position row = Some p)
  /\ (is_Some (d !! p) ->
      strip_string p = p /\ p <> ""%string /\ p ∉ inspector_positions).
Proof.
  intros Hfs Hload. unfold load_comparison_data in Hload.
  rewrite Hfs in Hload. apply load_comparison_rows_ok in Hload.
  pose proof (town_indices_of_nodup headers) as Hnd.
  assert (is_Some (d !! p) ->
          exists row, In row data_rows /\ kept_position row = Some p) as H1.
  { intros Hp.
    destruct (process_rows_keys _ _ _ _ p Hnd Hload Hp) as [[x Hx]|H];
      [now rewrite lookup_empty in Hx | exact H]. }
  split; [split; [exact H1|]|].
  - intros Hex.
    destruct (last_such (fun r => kept_position r = Some p) data_rows Hex)
      as (pre & row & post & -> & Hk & Hpost).
    destruct (process_rows_last _ _ _ _ _ _ _ Hnd Hload Hk Hpost)
      as (_ & inner & -> & _).
    eauto.
  - intros (row & _ & Hk)%H1.
    apply kept_position_title in Hk as (title & _ & -> & _ & Hne & Hi).
    split; [apply strip_string_idempotent | auto].
Qed.

Lemma dataset_positions_witness :
  survey_fs "survey.csv" = Some survey_rows
  /\ load_comparison_data survey_fs "survey.csv"
     = Ok (survey_dataset, survey_colors)
  /\ (is_Some (survey_dataset !! "Clerk"%string) <->
      exists row,
        In row [clerk_row; inspector_row; untitled_row; second_clerk_row;
                chief_row]
        /\ kept_position row = Some "Clerk"%string).
Proof.
  split; [reflexivity|]. split; [exact survey_loads|].
  exact (proj1 (dataset_positions survey_fs "survey.csv" survey_headers
                  [clerk_row; inspector_row; untitled_row; second_clerk_row;
                   chief_row] survey_dataset survey_colors "Clerk"
                  eq_refl survey_loads)).
Defined.

(** ** Rows and cells that play no part *)

Lemma process_rows_kept ti rows (pd : dataset) :
  process_rows ti rows pd = process_rows ti (List.filter is_kept rows) pd.
Proof.
  revert pd. induction rows as [|row rows IH]; intros pd; [reflexivity|].
  cbn [List.filter]. unfold is_kept at 1.
  destruct (kept_position row) as [p|] eqn:Hk.
  - cbn [process_rows].
    destruct (process_row ti pd row) as [pd'|e]; [|reflexivity].
    cbn [mbind result_bind]. apply IH.
  - cbn [process_rows]. rewrite (process_row_skipped ti pd row Hk).
    cbn [mbind result_bind]. apply IH.
Qed.

(** X4. The rows that the loop skips (fewer than two cells, a blank title,
    an inspector title) play no part: taking them out of the file changes
    nothing in what [load_comparison_data] returns or raises. *)
Theorem skipped_rows_play_no_part headers data_rows :
  load_comparison_rows (headers :: data_rows)
  = load_comparison_rows (headers :: List.filter is_kept data_rows).
Proof.
  unfold load_comparison_rows. now rewrite process_rows_kept.
Qed.

Lemma extract_row_same_cells r r' position items (pd : dataset) :
  (forall item, In item items -> r !! snd item = r' !! snd item) ->
  extract_row r position items pd = extract_row r' position items pd.
Proof.
  revert pd. induction items as [|[employer idx] rest IH]; intros pd H;
    [reflexivity|].
  cbn [extract_row]. unfold py_index.
  pose proof (H (employer, idx) (or_introl eq_refl)) as Hc.
  cbn [snd] in Hc. rewrite <- Hc.
  destruct (r !! idx) as [cell|]; [|reflexivity].
  cbn [mbind result_bind].
  destruct (clean_salary_value cell) as [sv|e]; [|reflexivity].
  cbn [mbind result_bind].
  destruct (match sv with
            | Some v => set_salary position employer v pd
            | None => Ok pd
            end) as [pd'|e]; [|reflexivity].
  cbn [mbind result_bind]. apply IH.
  intros item Hin. apply H. now right.
Qed.

Lemma process_row_same_cells headers r r' (pd : dataset) :
  same_cells_read headers r r' ->
  process_row (town_indices_of headers) pd r
  = process_row (town_indices_of headers) pd r'.
Proof.
  intros (Hlen & H0 & Hcells). rewrite !process_row_eq.
  assert (kept_position r = kept_position r') as Hk
    by (unfold kept_position; now rewrite Hlen, H0).
  rewrite <- Hk. destruct (kept_position r) as [p|]; [|reflexivity].
  apply extract_row_same_cells. intros [k idx] Hin. apply Hcells.
  apply bool_decide_eq_true. apply list_elem_of_In.
  change idx with (snd (k, idx)). now apply in_map.
Qed.

(** X5. The columns that are not employer columns are never read: two
    files with the same header row whose rows agree, one by one, on being
    shorter than two cells, on the title cell and on the cells of the
    columns the loader reads, give the same result, whatever the trailing
    columns hold. *)
Theorem unread_columns_play_no_part headers rows rows' :
  Forall2 (same_cells_read headers) rows rows' ->
  load_comparison_rows (headers :: rows)
  = load_comparison_rows (headers :: rows').
Proof.
  intros H. unfold load_comparison_rows. fold (town_indices_of headers).
  assert (forall pd : dataset,
             process_rows (town_indices_of headers) rows pd
             = process_rows (town_indices_of headers) rows' pd) as ->;
    [|reflexivity].
  induction H as [|r r' rows rows' Hr _ IH]; intros pd; [reflexivity|].
  cbn [process_rows]. rewrite (process_row_same_cells headers r r' pd Hr).
  destruct (process_row _ pd r') as [pd'|e]; [|reflexivity].
  cbn [mbind result_bind]. apply IH.
Qed.

Lemma unread_columns_play_no_part_witness :
  Forall2 (same_cells_read survey_headers)
    [clerk_row]
    [["Clerk"; "$1,234.50"; "$25 per inspection"; "x"; "y"]%string]
  /\ load_comparison_rows [survey_headers; clerk_row]
     = load_comparison_rows
         [survey_headers;
          ["Clerk"; "$1,234.50"; "$25 per inspection"; "x"; "y"]%string].
Proof.
  assert (Forall2 (same_cells_read survey_headers)
            [clerk_row]
            [["Clerk"; "$1,234.50"; "$25 per inspection"; "x"; "y"]%string])
    as H.
  { constructor; [|constructor].
    split; [reflexivity|]. split; [reflexivity|].
    intros i Hi. apply column_read_position in Hi as (h & _ & H1 & H2).
    specialize (H2 ltac:(simpl; lia)). simpl in H2.
    destruct i as [|[|[|i]]]; [lia|reflexivity|reflexivity|lia]. }
  split; [exact H|].
  exact (unread_columns_play_no_part survey_headers _ _ H).
Defined.

(** ** Employer names, columns and colours *)

Lemma town_indices_from_absent i hs d k :
  ~ In k (map strip_string hs) ->
  ODict.get k (town_indices_from i hs d) = ODict.get k d.
Proof.
  revert i d. induction hs as [|h hs IH]; intros i d Hk; [reflexivity|].
  simpl in *. rewrite IH by tauto.
  apply odict_get_set_ne. tauto.
Qed.

Lemma town_indices_from_last i hs d j h :
  hs !! j = Some h ->
  (forall j' h', j < j' -> hs !! j' = Some h' ->
                 strip_string h' <> strip_string h) ->
  ODict.get (strip_string h) (town_indices_from i hs d) = Some (i + j + 1).
Proof.
  revert i d j. induction hs as [|h0 hs IH]; intros i d j Hj Hlast;
    [discriminate|].
  destruct j as [|j]; simpl in *.
  - injection Hj as ->. rewrite town_indices_from_absent.
    + rewrite odict_get_set_eq. f_equal. lia.
    + intros (h' & Hs & Hin)%in_map_iff.
      apply list_elem_of_In, list_elem_of_lookup in Hin as [j' Hj'].
      now apply (Hlast (S j') h' ltac:(lia)).
  - rewrite (IH (S i) _ j Hj).
    + f_equal. lia.
    + intros j' h' Hlt Hj'. apply (Hlast (S j') h'); [lia | exact Hj'].
Qed.

(** X6. When several employer headers have the same name once stripped, the
    name is one employer, and its values are read from the last of those
    columns: the employer of the header at place [j + 1] is read at column
    [j + 1] exactly when no later employer header has the same stripped
    name. *)
Theorem repeated_employer_last_column headers j h :
  employer_headers headers !! j = Some h ->
  (forall j' h', j < j' -> employer_headers headers !! j' = Some h' ->
                 strip_string h' <> strip_string h) ->
  ODict.get (strip_string h) (town_indices_of headers) = Some (j + 1)
  /\ forall row,
       row_entry (town_indices_of headers) row (strip_string h)
       = parsed_cell row (j + 1).
Proof.
  intros Hj Hlast.
  pose proof (town_indices_from_last 0 _ [] j h Hj Hlast) as H.
  fold (town_indices_of headers) in H. simpl in H.
  split; [exact H|]. intros row. unfold row_entry. now rewrite H.
Qed.

Lemma repeated_employer_last_column_witness :
  employer_headers repeated_headers !! 1 = Some " Town A"%string
  /\ ODict.get "Town A" (town_indices_of repeated_headers) = Some 2
  /\ row_entry (town_indices_of repeated_headers)
       ["Clerk"; "10"; ""; "7"; "1"; "2"; "3"]%string "Town A" = None.
Proof.
  split; [reflexivity|].
  assert (forall j' h', 1 < j' ->
            employer_headers repeated_headers !! j' = Some h' ->
            strip_string h' <> strip_string " Town A") as Hlast.
  { intros [|[|[|j']]] h' Hlt Hh; try lia; [|discriminate Hh].
    injection Hh as <-. vm_compute. discriminate. }
  destruct (repeated_employer_last_column repeated_headers 1 " Town A"
              eq_refl Hlast) as [H1 H2].
  split; [exact H1|].
  exact (H2 ["Clerk"; "10"; ""; "7"; "1"; "2"; "3"]%string).
Defined.

Lemma odict_keys_set_same {V W} k (v : V) (w : W) d d' :
  ODict.keys d = ODict.keys d' ->
  ODict.keys (ODict.set k v d) = ODict.keys (ODict.set k w d').
Proof.
  unfold ODict.keys. revert d'.
  induction d as [|[k1 v1] d IH]; intros [|[k2 v2] d']; simpl;
    try discriminate; [reflexivity|].
  intros [= <- Hd]. destruct (String.eqb k1 k); simpl.
  - now rewrite Hd.
  - f_equal. now apply IH.
Qed.

Lemma town_colors_from_keys i hs dc di :
  ODict.keys dc = ODict.keys di ->
  ODict.keys (town_colors_from i hs dc)
  = ODict.keys (town_indices_from i hs di).
Proof.
  revert i dc di. induction hs as [|h hs IH]; intros i dc di Hk;
    [exact Hk|].
  simpl. apply IH. now apply odict_keys_set_same.
Qed.

Lemma town_colors_from_get i hs dc di k :
  (forall k, ODict.get k dc
             = (fun idx => (idx - 1) mod tab20_len) <$> ODict.get k di) ->
  ODict.get k (town_colors_from i hs dc)
  = (fun idx => (idx - 1) mod tab20_len)
      <$> ODict.get k (town_indices_from i hs di).
Proof.
  revert i dc di. induction hs as [|h hs IH]; intros i dc di H;
    [apply H|].
  simpl. apply IH. intros k'.
  destruct (decide (strip_string h = k')) as [<-|Hne].
  - rewrite !odict_get_set_eq.
    change (Some (i mod tab20_len) = Some ((i + 1 - 1) mod tab20_len)).
    now replace (i + 1 - 1) with i by lia.
  - rewrite !odict_get_set_ne by exact Hne. apply H.
Qed.

(** X7. [town_colors] and [town_indices] list the same employers in the
    same order, so the baseline employer of the charts, the first key of
    [town_colors], is the first employer column; the colour of an employer
    is the colour number [(column - 1) mod 20] of the column its values are
    read from, so colours repeat from the twenty-first employer on. *)
Theorem town_colors_follow_columns headers data_rows d town_colors :
  load_comparison_rows (headers :: data_rows) = Ok (d, town_colors) ->
  ODict.keys town_colors = ODict.keys (town_indices_of headers)
  /\ forall employer,
       ODict.get employer town_colors
       = (fun idx => (idx - 1) mod tab20_len)
           <$> ODict.get employer (town_indices_of headers).
Proof.
  unfold load_comparison_rows.
  destruct (process_rows _ _ _) as [pd|e]; [|discriminate].
  cbn [mbind result_bind]. intros [= _ <-]. split.
  - now apply town_colors_from_keys.
  - intros employer. now apply town_colors_from_get.
Qed.

Lemma town_colors_follow_columns_witness :
  load_comparison_rows survey_rows = Ok (survey_dataset, survey_colors)
  /\ ODict.keys survey_colors = ODict.keys (town_indices_of survey_headers)
  /\ ODict.get "Town B" survey_colors = Some 1.
Proof.
  assert (load_comparison_rows survey_rows
          = Ok (survey_dataset, survey_colors)) as H by exact survey_loads.
  split; [exact H|].
  destruct (town_colors_follow_columns survey_headers _ _ _ H) as [H1 H2].
  split; [exact H1|]. rewrite H2. reflexivity.
Defined.

Lemma employer_headers_length headers :
  length (employer_headers headers)
  = if 3 <? length headers then length headers - 4 else length headers - 1.
Proof.
  unfold employer_headers. destruct (3 <? length headers) eqn:E.
  - apply Nat.ltb_lt in E. rewrite length_drop, length_take. lia.
  - now rewrite length_drop.
Qed.

(** X8. A header row of four cells has no employer column, one of three
    cells has two: with more than three cells the last three are left out,
    so [n] cells give [n - 4] employers, and with three or fewer they give
    [n - 1]. When there is no employer column the loaded dataset has no
    entry at all, only positions with empty mappings, and [town_colors] is
    empty. *)
Theorem employer_count headers :
  length (employer_headers headers)
  = (if 3 <? length headers then length headers - 4 else length headers - 1)
  /\ (length headers = 4 \/ length headers <= 1 ->
      forall data_rows d town_colors,
        load_comparison_rows (headers :: data_rows) = Ok (d, town_colors) ->
        town_colors = []
        /\ forall p employer, entry d p employer = None).
Proof.
  split; [apply employer_headers_length|].
  intros Hlen data_rows d town_colors Hload.
  assert (employer_headers headers = []) as Hnil.
  { apply length_zero_iff_nil. rewrite employer_headers_length.
    destruct (Nat.ltb_spec 3 (length headers)); lia. }
  split.
  - unfold load_comparison_rows in Hload. rewrite Hnil in Hload.
    destruct (process_rows _ _ _); [|discriminate].
    now injection Hload as _ <-.
  - intros p employer.
    destruct (entry d p employer) as [v|] eqn:E; [|reflexivity].
    apply load_comparison_rows_ok in Hload.
    destruct (process_rows_entry _ _ _ p employer v
                (town_indices_of_nodup headers) Hload E)
      as (_ & row & _ & _ & _ & _ & Hv).
    unfold row_entry, town_indices_of in Hv. now rewrite Hnil in Hv.
Qed.

Lemma employer_count_witness :
  length four_headers = 4
  /\ load_comparison_rows four_rows = Ok ({[ "Clerk"%string := ∅ ]}, [])
  /\ entry {[ "Clerk"%string := ∅ ]} "Clerk" "Town A" = None.
Proof.
  assert (load_comparison_rows four_rows
          = Ok ({[ "Clerk"%string := ∅ ]}, [])) as H
    by (vm_compute; reflexivity).
  split; [reflexivity|]. split; [exact H|].
  exact (proj2 (proj2 (employer_count four_headers) (or_introl eq_refl)
                  _ _ _ H) "Clerk"%string "Town A"%string).
Defined.

(** * Further properties of [clean_salary_value] *)

Lemma drop_while_app_stop p s r :
  drop_while p s <> [] -> drop_while p (s ++ r) = drop_while p s ++ r.
Proof.
  induction s as [|c s IH]; simpl; [congruence|].
  destruct (p c); [exact IH | reflexivity].
Qed.

Lemma strip_padding ws1 s ws2 :
  forallb isspace ws1 = true -> forallb isspace ws2 = true ->
  strip (ws1 ++ s ++ ws2) = strip s.
Proof.
  intros H1 H2. unfold strip, rstrip, lstrip.
  rewrite drop_while_app_all by exact H1.
  destruct (drop_while isspace s) as [|c t] eqn:E.
  - apply drop_while_nil_all in E.
    rewrite (drop_while_all isspace (s ++ ws2))
      by (now rewrite forallb_app, E, H2).
    reflexivity.
  - rewrite drop_while_app_stop by (rewrite E; discriminate). rewrite E.
    rewrite rev_app_distr, drop_while_app_all; [reflexivity|].
    rewrite forallb_forall in *. intros x Hx. apply H2. now apply in_rev.
Qed.

(** The function looks at its argument through [strip] only. *)
Lemma clean_salary_value_strip v v' :
  strip (of_string v) = strip (of_string v') ->
  clean_salary_value v = clean_salary_value v'.
Proof.
  intros H. unfold clean_salary_value.
  assert (forall s, is_empty s || is_empty (strip s) = is_empty (strip s))
    as E by (intros [|c s]; reflexivity).
  now rewrite !E, H.
Qed.

(** X9. White space around a cell changes nothing: for every text, with any
    white space before and after it, [clean_salary_value] returns what it
    returns for the text alone. *)
Theorem clean_salary_value_padding ws1 ws2 value :
  forallb isspace ws1 = true -> forallb isspace ws2 = true ->
  clean_salary_value (to_string (ws1 ++ of_string value ++ ws2))
  = clean_salary_value value.
Proof.
  intros H1 H2. apply clean_salary_value_strip.
  rewrite of_to_string. now apply strip_padding.
Qed.

Lemma clean_salary_value_padding_witness :
  forallb isspace (of_string "  ") = true
  /\ clean_salary_value "  -5  " = clean_salary_value "-5".
Proof.
  split; [reflexivity|].
  exact (clean_salary_value_padding (of_string "  ") (of_string "  ") "-5"
           eq_refl eq_refl).
Defined.

Lemma search_number_first pre d1 frac post :
  no_digit pre = true -> d1 <> [] -> all_digits d1 = true ->
  all_digits (frac_digits frac) = true ->
  (forall c t, post = c :: t -> isdigit c = false) ->
  (frac = None -> starts_with ["."%char] post = false) ->
  search_number (pre ++ numeral_text false d1 frac ++ post)
  = Some (numeral_text false d1 frac).
Proof.
  intros Hpre Hne Hd1 Hf Hpost Hpt. unfold search_number.
  rewrite drop_while_app_all by exact Hpre.
  unfold numeral_text. cbn [app]. rewrite <- app_assoc.
  destruct d1 as [|c d1]; [congruence|].
  pose proof Hd1 as Hc. unfold all_digits in Hc. simpl in Hc.
  apply andb_true_iff in Hc as [Hc _].
  cbn [app drop_while]. rewrite Hc. cbn [negb].
  change (c :: d1 ++ ?x) with ((c :: d1) ++ x).
  destruct frac as [f|]; cbn [frac_digits] in Hf.
  - rewrite span_digits_app;
      [|exact Hd1 | now intros c' t' [= <- _]].
    cbv beta iota.
    change (("."%char :: f) ++ post) with ("."%char :: f ++ post).
    change (starts_with ["."%char] ("."%char :: f ++ post)) with true.
    change (drop 1 ("."%char :: f ++ post)) with (f ++ post).
    cbv iota. rewrite span_digits_app by assumption. reflexivity.
  - change ([] ++ post) with post. rewrite span_digits_app by assumption.
    cbv beta iota. rewrite (Hpt eq_refl). now rewrite app_nil_r.
Qed.

(** X10. When the cleaned text contains [per], in any letter case, the
    result is the first unsigned numeral of the text: whatever stands
    before the first digit, a minus sign included, and whatever follows the
    numeral are left out. *)
Theorem clean_salary_value_first_numeral value pre d1 frac post :
  cleaned value = pre ++ numeral_text false d1 frac ++ post ->
  contains (of_string "per") (lower (cleaned value)) = true ->
  no_digit pre = true -> d1 <> [] -> all_digits d1 = true ->
  all_digits (frac_digits frac) = true ->
  (forall c t, post = c :: t -> isdigit c = false) ->
  (frac = None -> starts_with ["."%char] post = false) ->
  clean_salary_value value = Ok (Some (numeral_value d1 frac)).
Proof.
  intros Hc Hper Hpre Hne Hd1 Hf Hpost Hpt.
  unfold clean_salary_value. fold (cleaned value).
  assert (is_empty (strip (of_string value)) = false) as Hs.
  { destruct (strip (of_string value)) eqn:E; [|reflexivity].
    unfold cleaned in Hc. rewrite E in Hc. simpl in Hc.
    destruct pre; [|discriminate Hc].
    now destruct (numeral_text_nonempty false d1 frac Hne)
      as []; destruct (numeral_text false d1 frac). }
  rewrite Hs, orb_false_r.
  destruct (of_string value) as [|a l] eqn:Ev; [discriminate Hs|].
  cbn [is_empty]. rewrite Hper, Hc.
  rewrite search_number_first by assumption.
  rewrite py_float_numeral by assumption. reflexivity.
Qed.

Lemma clean_salary_value_first_numeral_witness :
  cleaned "-$5.50 Per hour, 3 days"
  = of_string "-" ++ numeral_text false (of_string "5") (Some (of_string "50"))
    ++ of_string " Per hour 3 days"
  /\ clean_salary_value "-$5.50 Per hour, 3 days"
     = Ok (Some (S754_finite false 6192449487634432 (-50))).
Proof.
  split; [reflexivity|].
  refine (clean_salary_value_first_numeral "-$5.50 Per hour, 3 days"
            (of_string "-") (of_string "5") (Some (of_string "50"))
            (of_string " Per hour 3 days")
            eq_refl eq_refl eq_refl _ eq_refl eq_refl _ _).
  - discriminate.
  - now intros c t [= <- _].
  - discriminate.
Defined.

(** ** No number without a digit *)

Lemma drop_while_In p s c : In c (drop_while p s) -> In c s.
Proof.
  induction s as [|a s IH]; [auto|]. simpl.
  destruct (p a); [right; now apply IH | auto].
Qed.

Lemma gen_strip_In p s c :
  In c (rev (drop_while p (rev (drop_while p s)))) -> In c s.
Proof.
  intros H. apply in_rev, drop_while_In, in_rev in H.
  now apply drop_while_In in H.
Qed.

Lemma remove_char_In a s c : In c (remove_char a s) -> In c s.
Proof. unfold remove_char. intros H. now apply List.filter_In in H. Qed.

Lemma cleaned_In value c : In c (cleaned value) -> In c (of_string value).
Proof.
  unfold cleaned. intros H.
  apply remove_char_In, remove_char_In in H. now apply gen_strip_In in H.
Qed.

Lemma no_digit_In s c : no_digit s = true -> In c s -> isdigit c = false.
Proof.
  unfold no_digit. rewrite forallb_forall. intros H Hc.
  now apply negb_true_iff, H.
Qed.

Lemma to_ascii_float_digit c :
  isdigit (to_ascii_float c) = true -> to_ascii_float c = c.
Proof.
  unfold to_ascii_float. destruct (code c <? 127)%N; [reflexivity|].
  destruct (isspace c); discriminate.
Qed.

Lemma strip_underscores_In prev s s2 c :
  strip_underscores prev s = Some s2 -> In c s2 -> In c s.
Proof.
  revert prev s2. induction s as [|a s IH]; intros prev s2; simpl.
  - destruct (Ascii.eqb prev "_"); [discriminate|]. now intros [= <-].
  - destruct (Ascii.eqb a "_").
    + destruct (isdigit prev); [|discriminate].
      intros H Hc. right. now apply (IH a s2).
    + destruct (Ascii.eqb prev "_" && negb (isdigit a)); [discriminate|].
      destruct (strip_underscores a s) as [s'|] eqn:E; [|discriminate].
      simpl. intros [= <-] [<-|Hc]; [now left|].
      right. now apply (IH a s').
Qed.

Lemma parse_sign_In s neg t c : parse_sign s = (neg, t) -> In c t -> In c s.
Proof.
  unfold parse_sign. destruct s as [|a s]; [now intros [= _ <-]|].
  destruct (Ascii.eqb a "-"); [intros [= _ <-]; now right|].
  destruct (Ascii.eqb a "+"); intros [= _ <-]; [now right | auto].
Qed.

Lemma parse_number_digit s ip fp r :
  parse_number s = Some (ip, fp, r) ->
  exists c, In c s /\ isdigit c = true.
Proof.
  unfold parse_number.
  destruct (span_digits s) as [ip' r'] eqn:E.
  apply span_digits_spec in E as (-> & Hip & _).
  assert (forall d rest, d <> [] -> all_digits d = true ->
            exists c, In c (d ++ rest) /\ isdigit c = true) as Hd.
  { intros [|c d] rest Hne Hall; [congruence|]. exists c.
    unfold all_digits in Hall. simpl in Hall.
    apply andb_true_iff in Hall as [Hc _]. split; [now left | exact Hc]. }
  destruct (starts_with ["."%char] r') eqn:Hpt.
  - destruct (span_digits (drop 1 r')) as [fp' r2] eqn:E2.
    apply span_digits_spec in E2 as (Hr & Hfp & _).
    destruct ip' as [|a ip'].
    + destruct fp' as [|b fp']; [discriminate|]. intros _.
      apply starts_with_point in Hpt. rewrite Hpt, Hr. exists b.
      unfold all_digits in Hfp. simpl in Hfp.
      apply andb_true_iff in Hfp as [Hb _].
      split; [right; now left | exact Hb].
    + intros _. now apply Hd.
  - destruct ip' as [|a ip']; [discriminate|]. intros _. now apply Hd.
Qed.

Lemma parse_literal_no_digit s l :
  parse_literal s = Some l -> no_digit s = true ->
  (exists neg, l = LitInf neg) \/ l = LitNan.
Proof.
  unfold parse_literal. destruct (parse_sign s) as [neg t] eqn:Es.
  intros H Hno. destruct (parse_number t) as [[[ip fp] r]|] eqn:En.
  - apply parse_number_digit in En as (c & Hc & Hd).
    apply (parse_sign_In _ _ _ c Es) in Hc.
    rewrite (no_digit_In _ _ Hno Hc) in Hd. discriminate.
  - unfold parse_inf_or_nan in H.
    destruct (_ || _); [injection H as <-; eauto|].
    destruct (String.eqb _ "nan"); [injection H as <-; auto | discriminate].
Qed.

Lemma py_float_no_digit s x :
  py_float s = Ok x -> no_digit s = true ->
  (exists neg, x = S754_infinity neg) \/ x = S754_nan.
Proof.
  unfold py_float. intros H Hno.
  destruct (c_strip (map to_ascii_float s)) as [|a s1] eqn:E1;
    [discriminate|].
  destruct (strip_underscores Ascii.zero (a :: s1)) as [s2|] eqn:E2;
    [|discriminate].
  destruct (parse_literal s2) as [l|] eqn:E3; [|discriminate].
  injection H as <-.
  assert (no_digit s2 = true) as Hno2.
  { apply forallb_forall. intros c Hc. apply negb_true_iff.
    destruct (isdigit c) eqn:Hd; [|reflexivity].
    apply (strip_underscores_In _ _ _ c E2) in Hc. rewrite <- E1 in Hc.
    apply gen_strip_In, in_map_iff in Hc as (c0 & Hc0 & Hin).
    rewrite <- Hc0 in Hd. pose proof (to_ascii_float_digit c0 Hd) as E.
    rewrite E in Hd. now rewrite (no_digit_In _ _ Hno Hin) in Hd. }
  destruct (parse_literal_no_digit s2 l E3 Hno2) as [[neg ->] | ->];
    simpl; eauto.
Qed.

Lemma search_number_no_digit s : no_digit s = true -> search_number s = None.
Proof.
  intros Hno. unfold search_number.
  now rewrite (drop_while_all _ s Hno).
Qed.

(** X11. [clean_salary_value] finds no number in a text without a digit:
    for such a text it returns [None], or the infinity or the NaN that
    [float] reads in the words [inf], [infinity] and [nan]. *)
Theorem clean_salary_value_no_digit value :
  no_digit (of_string value) = true ->
  clean_salary_value value = Ok None
  \/ (exists neg, clean_salary_value value = Ok (Some (S754_infinity neg)))
  \/ clean_salary_value value = Ok (Some S754_nan).
Proof.
  intros Hno.
  assert (no_digit (cleaned value) = true) as Hc.
  { apply forallb_forall. intros c Hin. apply negb_true_iff.
    apply (no_digit_In _ _ Hno). now apply cleaned_In. }
  unfold clean_salary_value. fold (cleaned value).
  destruct (_ || _); [now left|].
  destruct (contains _ _).
  - rewrite (search_number_no_digit _ Hc). now left.
  - destruct (py_float (cleaned value)) as [x|e] eqn:E.
    + destruct (py_float_no_digit _ _ E Hc) as [[neg ->] | ->];
        simpl; eauto.
    + apply py_float_raises in E as ->. now left.
Qed.

Lemma clean_salary_value_no_digit_witness :
  no_digit (of_string "$ -Infinity") = true
  /\ (clean_salary_value "$ -Infinity" = Ok None
      \/ (exists neg,
             clean_salary_value "$ -Infinity"
             = Ok (Some (S754_infinity neg)))
      \/ clean_salary_value "$ -Infinity" = Ok (Some S754_nan)).
Proof.
  split; [reflexivity|].
  exact (clean_salary_value_no_digit "$ -Infinity" eq_refl).
Defined.

(** * [load_dartmouth_data] *)

(** X12. [load_dartmouth_data] returns for every file that has a header
    row: it never raises on the rows. Its list has one item for each row
    of at least two cells whose title is not blank and whose second cell
    parses, with the stripped title and the parsed value, and nothing
    else; rows with an inspector title are kept at this stage. *)
Theorem load_dartmouth_data_items fs csv_file headers data_rows :
  fs csv_file = Some (headers :: data_rows) ->
  exists data,
    load_dartmouth_data fs csv_file = Ok data
    /\ length data <= length data_rows
    /\ forall it,
         In it data <->
         exists row title cell,
           In row data_rows
           /\ row !! 0 = Some title /\ row !! 1 = Some cell
           /\ strip_string title <> ""%string
           /\ position it = strip_string title
           /\ clean_salary_value cell = Ok (Some (salary it)).
Proof.
  intros Hfs. unfold load_dartmouth_data. rewrite Hfs.
  destruct (dartmouth_rows_spec data_rows []) as (new & E & H).
  exists new. split; [exact E | exact H].
Qed.

Lemma load_dartmouth_data_items_witness :
  survey_fs "survey.csv" = Some survey_rows
  /\ load_dartmouth_data survey_fs "survey.csv"
     = Ok [ Item "Clerk" (S754_finite false 5429388417957888 (-42));
            Item "Alternate Wire Inspector"
              (S754_finite false 5629499534213120 (-50));
            Item "Chief" (S754_finite true 5629499534213120 (-50)) ]
  /\ exists data,
       load_dartmouth_data survey_fs "survey.csv" = Ok data
       /\ length data <= 5.
Proof.
  split; [reflexivity|]. split; [vm_compute; reflexivity|].
  destruct (load_dartmouth_data_items survey_fs "survey.csv" survey_headers
              [clerk_row; inspector_row; untitled_row; second_clerk_row;
               chief_row] eq_refl) as (data & E & Hlen & _).
  exists data. split; [exact E | exact Hlen].
Defined.

(** * [load_all_employer_data] *)

(** X13. For a file with a header row, [load_all_employer_data] either
    ends with [IndexError], and then some row has fewer cells than two
    plus the number of employers, or returns a dictionary whose keys are
    exactly the stripped headers at the places 2 to 17, each with a list
    that may be empty, whatever the rows hold. No other error comes from
    the rows. *)
Theorem load_all_employer_data_keys fs csv_file headers data_rows :
  fs csv_file = Some (headers :: data_rows) ->
  (load_all_employer_data fs csv_file = Raise IndexError
   /\ exists row,
        In row data_rows
        /\ length row < 2 + length (all_employers headers))
  \/ exists d,
       load_all_employer_data fs csv_file = Ok d
       /\ forall k,
            is_Some (d !! k)
            <-> In k (map strip_string (all_employers headers)).
Proof.
  intros Hfs. unfold load_all_employer_data. rewrite Hfs.
  destruct (all_employers_rows_keys (all_employers headers) data_rows
              (init_by_employer (all_employers headers)))
    as [H | (d & E & Hd)].
  - intros e He. apply init_by_employer_keys. now apply in_map.
  - now left.
  - right. exists d. split; [exact E|].
    intros k. now rewrite Hd, init_by_employer_keys.
Qed.

Lemma load_all_employer_data_keys_witness :
  survey_fs "survey.csv" = Some survey_rows
  /\ exists d,
       load_all_employer_data survey_fs "survey.csv" = Ok d
       /\ (is_Some (d !! "Town B"%string)
           <-> In "Town B"%string
                 (map strip_string (all_employers survey_headers))).
Proof.
  split; [reflexivity|].
  destruct (load_all_employer_data_keys survey_fs "survey.csv"
              survey_headers
              [clerk_row; inspector_row; untitled_row; second_clerk_row;
               chief_row] eq_refl) as [[E _] | (d & E & Hd)].
  - vm_compute in E. discriminate E.
  - exists d. split; [exact E | apply Hd].
Defined.

(** X14. When [load_all_employer_data] returns, the list of an employer
    holds an item exactly for each row whose title is not blank and each
    column among the places 2 to 17 whose stripped header is that employer
    and whose cell parses: the stripped title with the parsed value.
    Columns with the same stripped header fill one list, and rows with an
    inspector title are kept. *)
Theorem load_all_employer_data_items fs csv_file headers data_rows d :
  fs csv_file = Some (headers :: data_rows) ->
  load_all_employer_data fs csv_file = Ok d ->
  forall k it,
    holds d k it
    <-> exists row title j employer cell,
          In row data_rows
          /\ row !! 0 = Some title /\ strip_string title <> ""%string
          /\ all_employers headers !! j = Some employer
          /\ strip_string employer = k
          /\ row !! (j + 2) = Some cell
          /\ position it = strip_string title
          /\ clean_salary_value cell = Ok (Some (salary it)).
Proof.
  intros Hfs. unfold load_all_employer_data. rewrite Hfs. intros Hload k it.
  rewrite (all_employers_rows_holds _ _ _ _ Hload k it).
  split; [|auto]. intros [(l & Hl & Hin) | H]; [|exact H].
  apply init_by_employer_lookup in Hl. subst l. destruct Hin.
Qed.

Lemma load_all_employer_data_items_witness :
  one_file "towns.csv" twin_rows "towns.csv" = Some twin_rows
  /\ load_all_employer_data (one_file "towns.csv" twin_rows) "towns.csv"
     = Ok twin_data
  /\ holds twin_data "Town A"
       (Item "Alternate Wire Inspector" (of_decimal false 5 0)).
Proof.
  assert (load_all_employer_data (one_file "towns.csv" twin_rows) "towns.csv"
          = Ok twin_data) as Hload by (vm_compute; reflexivity).
  split; [reflexivity|]. split; [exact Hload|].
  apply (load_all_employer_data_items (one_file "towns.csv" twin_rows)
           "towns.csv"
           ["POSITION TITLE"; "Dartmouth"; "Town A"; " Town A"]%string
           [ ["Clerk"; "1"; "2"; "3"];
             ["Alternate Wire Inspector"; "4"; "n/a"; "5"] ]%string
           twin_data eq_refl Hload).
  exists ["Alternate Wire Inspector"; "4"; "n/a"; "5"]%string,
    "Alternate Wire Inspector"%string, 1, " Town A"%string, "5"%string.
  split; [right; left; reflexivity|].
  split; [reflexivity|]. split; [discriminate|].
  split; [reflexivity|]. split; [reflexivity|].
  split; [reflexivity|]. split; [reflexivity|].
  vm_compute; reflexivity.
Defined.

(** * The filters of the charts *)

Lemma insert_stable_perm {A} (before : A -> A -> bool) x l :
  insert_stable before x l ≡ₚ x :: l.
Proof.
  induction l as [|y l IH]; simpl; [reflexivity|].
  destruct (before y x); [|reflexivity].
  rewrite IH. apply Permutation_swap.
Qed.

Lemma stable_sort_perm {A} (before : A -> A -> bool) l :
  stable_sort before l ≡ₚ l.
Proof.
  unfold stable_sort. induction l as [|x l IH]; simpl; [reflexivity|].
  now rewrite insert_stable_perm, IH.
Qed.

Lemma sorted_desc_lookup keys i j a b :
  sorted_desc keys = true -> i < j ->
  keys !! i = Some a -> keys !! j = Some b -> SFltb a b = false.
Proof.
  revert i j. induction keys as [|x keys IH]; intros i j Hs Hlt Hi Hj;
    [discriminate|].
  simpl in Hs. apply andb_true_iff in Hs as [Hx Hs].
  destruct j as [|j]; [lia|]. destruct i as [|i]; simpl in *.
  - injection Hi as ->. rewrite forallb_forall in Hx.
    apply negb_true_iff, Hx, list_elem_of_In, list_elem_of_lookup. eauto.
  - apply (IH i j); [exact Hs | lia | exact Hi | exact Hj].
Qed.

(** X15. [filter_data_for_visualization], for a [sort] that rearranges its
    argument: the result has no inspector's position and only items of the
    data; when more than two items are left after the inspectors are taken
    out, two of them are removed, and when the first sort puts the
    salaries in decreasing order, no remaining item is paid more than a
    removed one; when two items or fewer are left, none is removed. *)
Theorem filter_data_drops_two_highest
  (sort : bool -> list item -> list item) data :
  (forall reverse l, sort reverse l ≡ₚ l) ->
  sorted_desc (map salary (sort true (without_inspectors data))) = true ->
  (forall it,
      In it (filter_data_for_visualization sort data) ->
      In it data /\ position it ∉ inspector_positions)
  /\ length (filter_data_for_visualization sort data)
     = (if 2 <? length (without_inspectors data)
        then length (without_inspectors data) - 2
        else length (without_inspectors data))
  /\ (2 < length (without_inspectors data) ->
      forall top it,
        In top (take 2 (sort true (without_inspectors data))) ->
        In it (filter_data_for_visualization sort data) ->
        SFltb (salary top) (salary it) = false)
  /\ (length (without_inspectors data) <= 2 ->
      forall it,
        In it (filter_data_for_visualization sort data)
        <-> In it (without_inspectors data)).
Proof.
  intros Hperm Hsorted.
  set (kept := without_inspectors data) in *.
  set (sorted := sort true kept) in *.
  assert (length sorted = length kept) as Hlen
    by (apply Permutation_length, Hperm).
  assert (filter_data_for_visualization sort data
          = sort false (if 2 <? length sorted then drop 2 sorted
                        else sorted)) as E by reflexivity.
  split.
  { intros it Hit.
    now apply (filter_data_excludes_inspectors sort Hperm) in Hit. }
  rewrite E. clear E. rewrite Hlen.
  split; [|split].
  - rewrite (Permutation_length (Hperm false _)).
    destruct (2 <? length kept); [|exact Hlen].
    rewrite length_drop. lia.
  - intros Hgt top it Htop Hit.
    apply Nat.ltb_lt in Hgt. rewrite Hgt in Hit.
    apply (Permutation_in _ (Hperm false _)) in Hit.
    apply list_elem_of_In, list_elem_of_lookup in Hit as [j Hj].
    apply list_elem_of_In, list_elem_of_lookup in Htop as [i Hi].
    rewrite lookup_drop in Hj.
    apply lookup_take_Some in Hi as [Hi Hi2].
    apply (sorted_desc_lookup _ i (2 + j) _ _ Hsorted); [lia|..];
      rewrite list_lookup_fmap; [now rewrite Hi | now rewrite Hj].
  - intros Hle it.
    destruct (Nat.ltb_spec 2 (length kept)); [lia|].
    split; intros Hit.
    + apply (Permutation_in _ (Hperm false _)) in Hit.
      now apply (Permutation_in _ (Hperm true _)) in Hit.
    + apply (Permutation_in _ (Permutation_sym (Hperm false _))).
      now apply (Permutation_in _ (Permutation_sym (Hperm true _))).
Qed.

Lemma filter_data_drops_two_highest_witness :
  sorted_desc (map salary (sort_items true (without_inspectors sample_items)))
  = true
  /\ map position (filter_data_for_visualization sort_items sample_items)
     = ["Aide"; "Clerk"]%string
  /\ length (filter_data_for_visualization sort_items sample_items) = 2.
Proof.
  split; [reflexivity|]. split; [reflexivity|].
  exact (proj1 (proj2 (filter_data_drops_two_highest sort_items sample_items
                         (fun reverse l => stable_sort_perm _ l) eq_refl))).
Defined.

Section FilterHighestFacts.

Variable average_salary : gmap string float -> float.
Variable sort_by_average : list (string * float) -> list (string * float).

Lemma position_averages_elem (position_data : dataset) p a :
  (p, a) ∈ position_averages average_salary position_data
  <-> exists d, position_data !! p = Some d /\ d <> ∅
                /\ a = average_salary d.
Proof.
  unfold position_averages. rewrite list_elem_of_omap. split.
  - intros [[q d] [Hin Hf]]. apply elem_of_map_to_list in Hin.
    destruct (decide (d = ∅)); [discriminate|].
    injection Hf as <- <-. eauto.
  - intros (d & Hd & Hne & ->). exists (p, d). split.
    + now apply elem_of_map_to_list.
    + now destruct (decide (d = ∅)).
Qed.

Lemma position_averages_nodup (position_data : dataset) :
  NoDup (map fst (position_averages average_salary position_data)).
Proof.
  unfold position_averages.
  pose proof (NoDup_fst_map_to_list position_data) as Hnd.
  induction (map_to_list position_data) as [|[q d] l IH]; simpl;
    [constructor|].
  inversion Hnd as [|? ? Hq Hl]; subst.
  destruct (decide (d = ∅)); simpl; [now apply IH|].
  constructor; [|now apply IH].
  intros Hin. apply Hq.
  apply list_elem_of_fmap in Hin as [[q' a] [-> Hin]].
  apply list_elem_of_omap in Hin as [[q'' d'] [Hin Hf]].
  destruct (decide (d' = ∅)); [discriminate|]. injection Hf as -> _.
  apply list_elem_of_fmap. now exists (q', d').
Qed.

End FilterHighestFacts.

(** X16. [filter_highest_paid_positions], for a [sort] that rearranges its
    argument and puts the averages in decreasing order: every position of
    the result is a position of the data, with the same salaries, of more
    than one employer. When fewer than two positions have data, these are
    all the positions of the result. When two or more have data, two
    different positions that have data are left out, and no position of
    the result has a higher average than either of them. *)
Theorem filter_highest_paid_positions_result
  (average_salary : gmap string float -> float)
  (sort_by_average : list (string * float) -> list (string * float))
  (position_data : dataset) :
  (forall l, sort_by_average l ≡ₚ l) ->
  sorted_desc
    (map snd (sort_by_average
                (position_averages average_salary position_data))) = true ->
  (forall p d,
      filter_highest_paid_positions average_salary sort_by_average
        position_data !! p = Some d ->
      position_data !! p = Some d /\ 1 < size d)
  /\ (length (position_averages average_salary position_data) < 2 ->
      forall p d,
        position_data !! p = Some d -> 1 < size d ->
        filter_highest_paid_positions average_salary sort_by_average
          position_data !! p = Some d)
  /\ (2 <= length (position_averages average_salary position_data) ->
      exists p1 p2 d1 d2,
        p1 <> p2
        /\ positions_to_exclude average_salary sort_by_average position_data
           = [p1; p2]
        /\ position_data !! p1 = Some d1 /\ d1 <> ∅
        /\ position_data !! p2 = Some d2 /\ d2 <> ∅
        /\ filter_highest_paid_positions average_salary sort_by_average
             position_data !! p1 = None
        /\ filter_highest_paid_positions average_salary sort_by_average
             position_data !! p2 = None
        /\ forall q dq,
            filter_highest_paid_positions average_salary sort_by_average
              position_data !! q = Some dq ->
            SFltb (average_salary d1) (average_salary dq) = false
            /\ SFltb (average_salary d2) (average_salary dq) = false).
Proof.
  intros Hperm Hsorted.
  set (avgs := position_averages average_salary position_data) in *.
  set (sorted := sort_by_average avgs) in *.
  assert (length sorted = length avgs) as Hlen
    by (apply Permutation_length, Hperm).
  assert (positions_to_exclude average_salary sort_by_average position_data
          = if 2 <=? length sorted then map fst (take 2 sorted) else [])
    as Eexcl by reflexivity.
  assert (forall p d,
             filter_highest_paid_positions average_salary sort_by_average
               position_data !! p = Some d
             <-> position_data !! p = Some d
                 /\ (p ∉ positions_to_exclude average_salary
                           sort_by_average position_data)
                 /\ 1 < size d) as Hres.
  { intros p d. unfold filter_highest_paid_positions.
    rewrite map_lookup_filter_Some. reflexivity. }
  split; [|split].
  - intros p d H. apply Hres in H. tauto.
  - intros Hlt p d Hp Hsize. apply Hres. split; [exact Hp|].
    split; [|exact Hsize]. rewrite Eexcl, Hlen.
    destruct (Nat.leb_spec 2 (length avgs)); [lia|]. apply not_elem_of_nil.
  - intros Hge. rewrite <- Hlen in Hge.
    assert (NoDup (map fst sorted)) as Hnd.
    { unfold sorted. rewrite (Hperm avgs).
      apply position_averages_nodup. }
    assert (forall p a, (p, a) ∈ sorted <->
              exists d, position_data !! p = Some d /\ d <> ∅
                        /\ a = average_salary d) as Hin.
    { intros p a. rewrite <- position_averages_elem. fold avgs.
      unfold sorted. now rewrite (Hperm avgs). }
    clearbody sorted.
    destruct sorted as [|[p1 a1] [|[p2 a2] rest]];
      [simpl in Hge; lia | simpl in Hge; lia |].
    assert (positions_to_exclude average_salary sort_by_average
              position_data = [p1; p2]) as Eex by (rewrite Eexcl; reflexivity).
    destruct (proj1 (Hin p1 a1)) as (d1 & Hd1 & Hne1 & ->);
      [apply list_elem_of_here|].
    destruct (proj1 (Hin p2 a2)) as (d2 & Hd2 & Hne2 & ->);
      [apply list_elem_of_further, list_elem_of_here|].
    assert (p1 <> p2) as Hne.
    { simpl in Hnd.
      inversion Hnd as [|? ? Hnot _]; subst. intros ->. apply Hnot.
      apply list_elem_of_here. }
    exists p1, p2, d1, d2.
    split; [exact Hne|]. split; [exact Eex|].
    split; [exact Hd1|]. split; [exact Hne1|].
    split; [exact Hd2|]. split; [exact Hne2|].
    assert (forall p, p ∈ [p1; p2] ->
              filter_highest_paid_positions average_salary sort_by_average
                position_data !! p = None) as Hout.
    { intros p Hp.
      destruct (filter_highest_paid_positions average_salary sort_by_average
                  position_data !! p) as [d|] eqn:E; [|reflexivity].
      apply Hres in E as (_ & Hnot & _). rewrite Eex in Hnot.
      now destruct Hnot. }
    split; [apply Hout, list_elem_of_here|].
    split; [apply Hout, list_elem_of_further, list_elem_of_here|].
    intros q dq Hq. apply Hres in Hq as (Hq & Hnot & Hsize).
    rewrite Eex in Hnot.
    assert (dq <> ∅) as Hneq.
    { intros ->. rewrite map_size_empty in Hsize. lia. }
    assert ((q, average_salary dq) ∈ rest) as Hrest.
    { assert ((q, average_salary dq)
              ∈ (p1, average_salary d1) :: (p2, average_salary d2) :: rest)
        as H by (apply Hin; eauto).
      apply elem_of_cons in H as [H|H].
      { injection H as -> _. exfalso. apply Hnot, list_elem_of_here. }
      apply elem_of_cons in H as [H|H]; [|exact H].
      injection H as -> _. exfalso.
      apply Hnot, list_elem_of_further, list_elem_of_here. }
    apply list_elem_of_lookup in Hrest as [j Hj].
    split.
    + apply (sorted_desc_lookup _ 0 (2 + j) _ _ Hsorted); [lia|reflexivity|].
      simpl. rewrite list_lookup_fmap, Hj. reflexivity.
    + apply (sorted_desc_lookup _ 1 (2 + j) _ _ Hsorted); [lia|reflexivity|].
      simpl. rewrite list_lookup_fmap, Hj. reflexivity.
Qed.

Lemma filter_highest_paid_positions_result_witness :
  sorted_desc
    (map snd (sort_averages (position_averages plain_average staff_dataset)))
  = true
  /\ positions_to_exclude plain_average sort_averages staff_dataset
     = ["Chief"; "Planner"]%string
  /\ map fst (map_to_list
                (filter_highest_paid_positions plain_average sort_averages
                   staff_dataset))
     = ["Clerk"%string]
  /\ forall p d,
      filter_highest_paid_positions plain_average sort_averages
        staff_dataset !! p = Some d ->
      staff_dataset !! p = Some d /\ 1 < size d.
Proof.
  split; [vm_compute; reflexivity|].
  split; [vm_compute; reflexivity|].
  split; [vm_compute; reflexivity|].
  exact (proj1 (filter_highest_paid_positions_result plain_average
                  sort_averages staff_dataset
                  (fun l => stable_sort_perm _ l)
                  ltac:(vm_compute; reflexivity))).
Defined.
